(** * Gemini API wrapper: the generation pipeline of [GeminiService] and its
    controllers, embedded as state-passing functions over an explicit runtime.

    Sources embedded here:
    - [src/services/geminiService.js]   class [GeminiService]
    - [src/controllers/*.js]            the Elysia route handlers
    The network, the model SDK, the clock, the file system and the base64
    codec of [Buffer] are the runtime the code runs against; they are taken
    as a record of oracles, never given a behaviour of their own. *)

From stdpp Require Import gmap strings list fin_maps pretty.
From Stdlib Require Import Strings.Byte Strings.Ascii.

(** ** JavaScript values the code relies on *)

Module Js.

(** Truthiness of a string: only the empty string is falsy. *)
Definition truthy (s : string) : bool :=
  match s with
  | EmptyString => false
  | String _ _ => true
  end.

(** Truthiness of a possibly-undefined (or null) string. *)
Definition truthy_opt (o : option string) : bool :=
  match o with
  | Some s => truthy s
  | None => false
  end.

(** [a || d] where [a] is a string, [undefined] or [null] and [d] a string. *)
Definition or_string (a : option string) (d : string) : string :=
  match a with
  | Some s => if truthy s then s else d
  | None => d
  end.

(** [a || null] where [a] is a string or [undefined]. *)
Definition or_null (a : option string) : option string :=
  match a with
  | Some s => if truthy s then Some s else None
  | None => None
  end.

(** [x = d] in a destructuring pattern: the default applies to [undefined]
    only. *)
Definition default {A} (d : A) (o : option A) : A :=
  match o with
  | Some a => a
  | None => d
  end.

(** [s.split('/')]. *)
Fixpoint split_slash (s : string) : list string :=
  match s with
  | EmptyString => [EmptyString]
  | String c r =>
      if Ascii.eqb c "/"%char then EmptyString :: split_slash r
      else match split_slash r with
           | h :: t => String c h :: t
           | [] => [String c EmptyString]
           end
  end.

(** [s] occurs in [t] as a contiguous substring. *)
Definition includes (t s : string) : Prop :=
  exists pre post, t = pre +:+ s +:+ post.

End Js.

(** ** Node's [path] module, POSIX flavour *)

Module Path.

(** [segs.join('/')] *)
Fixpoint join_slash (segs : list string) : string :=
  match segs with
  | [] => EmptyString
  | [s] => s
  | s :: rest => s +:+ "/" +:+ join_slash rest
  end.

(** [path.charCodeAt(0) === '/'] *)
Definition starts_with_slash (path : string) : bool :=
  match path with
  | EmptyString => false
  | String c _ => Ascii.eqb c "/"%char
  end.

(** [path.charCodeAt(path.length - 1) === '/'] *)
Fixpoint ends_with_slash (path : string) : bool :=
  match path with
  | EmptyString => false
  | String c EmptyString => Ascii.eqb c "/"%char
  | String _ rest => ends_with_slash rest
  end.

(** One step of [normalizeString]: the segments kept so far (the latest
    first) and the next segment.  Empty segments and [.] are dropped; [..]
    removes the latest segment, unless there is none or it is [..] itself, in
    which case it is kept when the path may climb above its root and dropped
    otherwise. *)
Definition push_segment (allowAboveRoot : bool) (kept : list string) (seg : string)
  : list string :=
  if decide (seg = "" \/ seg = ".") then kept
  else if decide (seg = "..") then
    match kept with
    | latest :: earlier =>
        if decide (latest = "..")
        then (if allowAboveRoot then seg :: kept else kept)
        else earlier
    | [] => if allowAboveRoot then [seg] else []
    end
  else seg :: kept.

(** The segments [normalizeString] ends with, in order. *)
Definition segments (path : string) (allowAboveRoot : bool) : list string :=
  rev (fold_left (push_segment allowAboveRoot) (Js.split_slash path) []).

(** [normalizeString(path, allowAboveRoot, '/', isPosixPathSeparator)] *)
Definition normalizeString (path : string) (allowAboveRoot : bool) : string :=
  join_slash (segments path allowAboveRoot).

(** [path.posix.normalize(path)] *)
Definition normalize (path : string) : string :=
  if decide (path = "") then "."
  else
    let isAbsolute := starts_with_slash path in
    let trailingSeparator := ends_with_slash path in
    let normalized := normalizeString path (negb isAbsolute) in
    if decide (normalized = "") then
      (if isAbsolute then "/" else if trailingSeparator then "./" else ".")
    else
      let normalized :=
        if trailingSeparator then normalized +:+ "/" else normalized in
      if isAbsolute then "/" +:+ normalized else normalized.

(** [path.posix.join(...args)]: the non-empty arguments joined by [/], then
    normalised; [.] when there is none. *)
Definition join (args : list string) : string :=
  match filter (fun arg => arg <> "") args with
  | [] => "."
  | nonempty => normalize (join_slash nonempty)
  end.

(** The directories above [path], from the top down: what
    [mkdirSync(path, { recursive: true })] makes sure exists before [path]
    itself. *)
Definition ancestors (path : string) : list string :=
  let root := if starts_with_slash path then "/" else "" in
  let segs := filter (fun seg => seg <> "") (Js.split_slash path) in
  (fun n => root +:+ join_slash (take n segs)) <$> seq 1 (length segs - 1).

End Path.

(** ** Data model *)

Definition Buffer := list byte.

(** A [File] object of an upload: its declared type and its bytes. *)
Record File := { file_type : string; file_bytes : Buffer }.

(** The [file] / [image] field of a request: a URL string or a [File]. *)
Inductive FileArg :=
| FileUrl (url : string)
| FileObject (f : File).

(** [{ data, mimeType }], base64 payload and MIME type. *)
Record InlineData := { data : string; mimeType : string }.

Inductive Part :=
| TextPart (text : string)
| InlineDataPart (inlineData : InlineData).

Record ContentTurn := { role : string; parts : list Part }.

Inductive Tool := GoogleSearch.

Record GenConfig := {
  thinkingBudget : option Z;
  tools : option (list Tool);
  responseModalities : option (list string)
}.

Record GenRequest := {
  gr_model : string;
  gr_config : GenConfig;
  gr_contents : list ContentTurn
}.

(** What the SDK hands back. *)
Record RespPart := { part_inlineData : option InlineData; part_text : option string }.
Record Content := { content_parts : option (list RespPart) }.
Record Candidate := { cand_content : option Content }.
Record Response := { resp_candidates : option (list Candidate); resp_text : option string }.
Record Chunk := { chunk_candidates : option (list Candidate); chunk_text : option string }.

(** ** Exceptions *)

Inductive TypeErrorKind :=
| NotAFunction (callee : string)
| ReadOfUndefined (object property : string)
| BufferFromUndefined.

Inductive Exn :=
| JsError (message : string)
| JsTypeError (k : TypeErrorKind).

Inductive Outcome (A : Type) :=
| Ok (a : A)
| Throw (e : Exn).
Arguments Ok {A} a.
Arguments Throw {A} e.

(** ** The runtime *)

(** What [await response.arrayBuffer()] gives: the bytes, or a rejection when
    the transfer breaks off. *)
Inductive BodyRead :=
| BodyBytes (bytes : Buffer)
| BodyAborted (message : string).

(** The [Response] of [fetch]; [contentType] is
    [response.headers.get('content-type')], [null] when the header is absent. *)
Record HttpResponse := {
  ok : bool;
  statusText : string;
  contentType : option string;
  body : BodyRead
}.

Inductive FetchOutcome :=
| NetworkError (message : string)
| Fetched (response : HttpResponse).

Inductive ModelOutcome (A : Type) :=
| ModelError (message : string)
| ModelResult (a : A).
Arguments ModelError {A} message.
Arguments ModelResult {A} a.

(** The oracles.  [writeError path] is the error a write to [path] ends in,
    if it fails; [writeLeaves path buffer] is what such a failed write leaves
    at [path]: nothing new when the file could not be opened, or the file,
    created or truncated by the open, with the bytes that got through.
    [mkdirError path] is the error a recursive [mkdirSync] of [path] ends in,
    if it fails, and [mkdirMade path] is how many of the directories on the
    way to [path] it had made by then. *)
Record Runtime := {
  toBase64 : Buffer -> string;
  fromBase64 : string -> Buffer;
  cwd : string;
  fetch : string -> FetchOutcome;
  generateContent : GenRequest -> ModelOutcome Response;
  generateContentStream : GenRequest -> ModelOutcome (list Chunk);
  clock : nat -> N;
  writeError : string -> option string;
  writeLeaves : string -> Buffer -> option Buffer;
  mkdirError : string -> option string;
  mkdirMade : string -> nat;
  typeErrorMessage : TypeErrorKind -> string
}.

Inductive Event :=
| EvFetch (url : string)
| EvGenerateContent (req : GenRequest)
| EvGenerateContentStream (req : GenRequest)
| EvWriteFile (path : string).

(** The [set] object of a route handler. *)
Record SetCtx := { set_status : option nat; set_headers : gmap string string }.

Record State := {
  sessions : gmap string string;
  imagesDir : string;
  files : gmap string Buffer;
  dirs : gset string;
  ticks : nat;
  trace : list Event;
  set : SetCtx
}.

Definition with_sessions (m : gmap string string) (st : State) : State :=
  {| sessions := m; imagesDir := imagesDir st; files := files st; dirs := dirs st;
     ticks := ticks st; trace := trace st; set := set st |}.

Definition with_imagesDir (d : string) (st : State) : State :=
  {| sessions := sessions st; imagesDir := d; files := files st; dirs := dirs st;
     ticks := ticks st; trace := trace st; set := set st |}.

Definition with_files (f : gmap string Buffer) (st : State) : State :=
  {| sessions := sessions st; imagesDir := imagesDir st; files := f; dirs := dirs st;
     ticks := ticks st; trace := trace st; set := set st |}.

Definition with_dirs (d : gset string) (st : State) : State :=
  {| sessions := sessions st; imagesDir := imagesDir st; files := files st; dirs := d;
     ticks := ticks st; trace := trace st; set := set st |}.

Definition with_ticks (n : nat) (st : State) : State :=
  {| sessions := sessions st; imagesDir := imagesDir st; files := files st; dirs := dirs st;
     ticks := n; trace := trace st; set := set st |}.

Definition with_trace (t : list Event) (st : State) : State :=
  {| sessions := sessions st; imagesDir := imagesDir st; files := files st; dirs := dirs st;
     ticks := ticks st; trace := t; set := set st |}.

Definition with_set (s : SetCtx) (st : State) : State :=
  {| sessions := sessions st; imagesDir := imagesDir st; files := files st; dirs := dirs st;
     ticks := ticks st; trace := trace st; set := s |}.

(** ** The monad of handler code: state passing with exceptions *)

Definition M (A : Type) : Type := State -> Outcome A * State.

Definition ret {A} (a : A) : M A := fun st => (Ok a, st).

Definition bind {A B} (m : M A) (k : A -> M B) : M B :=
  fun st =>
    match m st with
    | (Ok a, st') => k a st'
    | (Throw e, st') => (Throw e, st')
    end.

Definition throw {A} (e : Exn) : M A := fun st => (Throw e, st).

(** [try { m } catch (error) { h error }] *)
Definition try_catch {A} (m : M A) (h : Exn -> M A) : M A :=
  fun st =>
    match m st with
    | (Ok a, st') => (Ok a, st')
    | (Throw e, st') => h e st'
    end.

Definition emit (e : Event) : M unit :=
  fun st => (Ok tt, with_trace (trace st ++ [e]) st).

Notation "'do' x <- m ; k" := (bind m (fun x => k))
  (at level 10, x name, m at level 100, k at level 200).
Notation "m ;; k" := (bind m (fun _ => k))
  (at level 100, k at level 200, right associativity).

Section Service.

Variable rt : Runtime.

(** [error.message] *)
Definition message_of (e : Exn) : string :=
  match e with
  | JsError m => m
  | JsTypeError k => typeErrorMessage rt k
  end.

(** [await fetch(fileUrl)]: a network failure rejects. *)
Definition js_fetch (url : string) : M HttpResponse :=
  emit (EvFetch url) ;;
  match fetch rt url with
  | NetworkError m => throw (JsError m)
  | Fetched response => ret response
  end.

(** [await response.arrayBuffer()] *)
Definition js_arrayBuffer (response : HttpResponse) : M Buffer :=
  match body response with
  | BodyBytes bytes => ret bytes
  | BodyAborted m => throw (JsError m)
  end.

(** [GeminiService.fetchFileFromUrl] (geminiService.js 40-58). *)
Definition fetchFileFromUrl (fileUrl : string) : M InlineData :=
  try_catch
    (do response <- js_fetch fileUrl;
     if negb (ok response) then
       throw (JsError ("Failed to fetch file: " +:+ statusText response))
     else
       do arrayBuffer <- js_arrayBuffer response;
       let mimeType :=
         Js.or_string (contentType response) "application/octet-stream" in
       let base64Data := toBase64 rt arrayBuffer in
       ret {| data := base64Data; mimeType := mimeType |})
    (fun error =>
       throw (JsError ("Error fetching file from URL: " +:+ message_of error))).


(** *** The request and result objects of the service *)

Record ChatRequest := {
  chat_model : option string;
  chat_sessionId : option string;
  chat_systemPrompt : option string;
  chat_message : string;
  chat_file : option FileArg;
  chat_useTools : option bool;
  chat_useThinking : option bool
}.

(** [chunks] is only set by the streaming definition. *)
Record ChatResponse := {
  cr_text : string;
  cr_chunks : option (list string);
  cr_sessionId : option string;
  cr_usedTools : bool;
  cr_usedThinking : bool
}.

Record ImageRequest := { img_model : option string; img_prompt : string }.

Record PresetRequest := { preset_image : option FileArg; preset_model : option string }.

(** One element of [images]; which properties exist depends on the method
    that pushed it. *)
Record ImageResult := {
  img_buffer : option Buffer;
  img_data : option string;
  img_url : option string;
  img_mimeType : string
}.

Record ImageResponse := {
  images : list ImageResult;
  ir_text : string;
  totalImages : nat;
  ir_type : option string
}.

(** [config.models.chat] (config.js). *)
Definition config_models_chat : string := "gemini-2.5-flash".

(** [path.join(a, b)] *)
Definition path_join (a b : string) : string := Path.join [a; b].

(** [fs.existsSync(path)]: a directory or a file is there. *)
Definition existsSync (path : string) (st : State) : bool :=
  bool_decide (path ∈ dirs st \/ is_Some (files st !! path)).

(** [fs.mkdirSync(path, { recursive: true })]: the directories above [path],
    then [path], are made from the top down; a failure throws, and leaves
    those made by then. *)
Definition mkdirSync_recursive (path : string) : M unit :=
  let wanted := Path.ancestors path ++ [path] in
  match mkdirError rt path with
  | Some m =>
      fun st =>
        (Throw (JsError m),
         with_dirs (list_to_set (take (mkdirMade rt path) wanted) ∪ dirs st) st)
  | None => fun st => (Ok tt, with_dirs (list_to_set wanted ∪ dirs st) st)
  end.

(** [constructor()] (geminiService.js 24-33).  [this.ai], the client of the
    SDK, is the runtime's [generateContent] and [generateContentStream]. *)
Definition GeminiService_constructor : M unit :=
  (fun st => (Ok tt, with_sessions ∅ st)) ;;
  let dir := Path.join [cwd rt; "public"; "images"] in
  (fun st => (Ok tt, with_imagesDir dir st)) ;;
  do exists_ <- (fun st => (Ok (existsSync dir st), st));
  if negb exists_ then mkdirSync_recursive dir else ret tt.

(** [await this.ai.models.generateContent(req)] *)
Definition ai_generateContent (req : GenRequest) : M Response :=
  emit (EvGenerateContent req) ;;
  match generateContent rt req with
  | ModelError m => throw (JsError m)
  | ModelResult r => ret r
  end.

(** [await this.ai.models.generateContentStream(req)] *)
Definition ai_generateContentStream (req : GenRequest) : M (list Chunk) :=
  emit (EvGenerateContentStream req) ;;
  match generateContentStream rt req with
  | ModelError m => throw (JsError m)
  | ModelResult r => ret r
  end.

(** The value of [file] when [if (file)] lets it through: a [File] object,
    or a non-empty URL string. *)
Definition if_file (file : option FileArg) : option FileArg :=
  match file with
  | Some (FileUrl u) => if Js.truthy u then file else None
  | Some (FileObject _) => file
  | None => None
  end.

(** The block [if (typeof file === 'string') { ... } else { ... }] that every
    method repeats (geminiService.js 104-114, 302-312, 449-459, 534-544,
    619-629); [undefined] takes the [else] branch and has no [arrayBuffer]. *)
Definition resolveFile (name : string) (file : option FileArg) : M InlineData :=
  match file with
  | Some (FileUrl u) =>
      do urlFileData <- fetchFileFromUrl u;
      ret {| data := data urlFileData; mimeType := mimeType urlFileData |}
  | Some (FileObject f) =>
      let arrayBuffer := file_bytes f in
      ret {| data := toBase64 rt arrayBuffer; mimeType := file_type f |}
  | None => throw (JsTypeError (ReadOfUndefined name "arrayBuffer"))
  end.

(** Lines 77-137 and 275-335, the same text in both definitions of
    [generateChatResponse]: configuration, parts, contents. *)
Definition chat_configOptions (useTools useThinking : bool) : GenConfig :=
  let tools := if useTools then Some [GoogleSearch] else None in
  {| thinkingBudget := if useThinking then Some (-1)%Z else None;
     tools := tools;
     responseModalities := None |}.

Definition chat_parts (message : string) (file : option FileArg) : M (list Part) :=
  let parts := [TextPart message] in
  match if_file file with
  | Some f =>
      do media <- resolveFile "file" (Some f);
      ret (parts ++ [InlineDataPart media])
  | None => ret parts
  end.

Definition chat_contents (systemPrompt : option string) (parts : list Part)
  : list ContentTurn :=
  let contents := [] in
  let contents :=
    match systemPrompt with
    | Some sp =>
        if Js.truthy sp
        then contents ++ [{| role := "user"; parts := [TextPart sp] |}]
        else contents
    | None => contents
    end in
  contents ++ [{| role := "user"; parts := parts |}].

(** The [for await] loop of the streaming chat (lines 146-154). *)
Fixpoint chat_collect (response : list Chunk) (fullText : string)
    (chunks : list string) : string * list string :=
  match response with
  | [] => (fullText, chunks)
  | chunk :: rest =>
      match chunk_text chunk with
      | Some t =>
          if Js.truthy t then chat_collect rest (fullText +:+ t) (chunks ++ [t])
          else chat_collect rest fullText chunks
      | None => chat_collect rest fullText chunks
      end
  end.

(** First definition of [generateChatResponse] (lines 65-166), streaming. *)
Definition generateChatResponse_1 (request : ChatRequest) : M ChatResponse :=
  try_catch
    (let model := Js.default config_models_chat (chat_model request) in
     let sessionId := chat_sessionId request in
     let useTools := Js.default false (chat_useTools request) in
     let useThinking := Js.default false (chat_useThinking request) in
     let configOptions := chat_configOptions useTools useThinking in
     do parts <- chat_parts (chat_message request) (chat_file request);
     let contents := chat_contents (chat_systemPrompt request) parts in
     do response <- ai_generateContentStream
       {| gr_model := model; gr_config := configOptions; gr_contents := contents |};
     let collected := chat_collect response "" [] in
     ret {| cr_text := fst collected;
            cr_chunks := Some (snd collected);
            cr_sessionId := Js.or_null sessionId;
            cr_usedTools := useTools;
            cr_usedThinking := useThinking |})
    (fun error =>
       throw (JsError ("Chat generation failed: " +:+ message_of error))).

(** Second definition of [generateChatResponse] (lines 263-355),
    non-streaming. *)
Definition generateChatResponse_2 (request : ChatRequest) : M ChatResponse :=
  try_catch
    (let model := Js.default config_models_chat (chat_model request) in
     let sessionId := chat_sessionId request in
     let useTools := Js.default false (chat_useTools request) in
     let useThinking := Js.default false (chat_useThinking request) in
     let configOptions := chat_configOptions useTools useThinking in
     do parts <- chat_parts (chat_message request) (chat_file request);
     let contents := chat_contents (chat_systemPrompt request) parts in
     do response <- ai_generateContent
       {| gr_model := model; gr_config := configOptions; gr_contents := contents |};
     let text := Js.or_string (resp_text response) "" in
     ret {| cr_text := text;
            cr_chunks := None;
            cr_sessionId := Js.or_null sessionId;
            cr_usedTools := useTools;
            cr_usedThinking := useThinking |})
    (fun error =>
       throw (JsError ("Chat generation failed: " +:+ message_of error))).

(** *** Output materialisation *)

(** [Date.now()] *)
Definition date_now : M N :=
  fun st => (Ok (clock rt (ticks st)), with_ticks (S (ticks st)) st).

(** [fs.writeFileSync(path, buffer)]: the file is opened for writing, which
    creates or truncates it, and the bytes are written; a failure at either
    step throws, and leaves at [path] what had been done by then. *)
Definition writeFileSync (path : string) (buffer : Buffer) : M unit :=
  emit (EvWriteFile path) ;;
  match writeError rt path with
  | Some m =>
      fun st =>
        (Throw (JsError m),
         match writeLeaves rt path buffer with
         | Some remains => with_files (<[path := remains]> (files st)) st
         | None => st
         end)
  | None => fun st => (Ok tt, with_files (<[path := buffer]> (files st)) st)
  end.

(** [mimeType.split('/')[1] || 'png'] *)
Definition extension_of (mimeType : string) : string :=
  Js.or_string (Js.split_slash mimeType !! 1%nat) "png".

Definition filename_of (timestamp : N) (mimeType : string) : string :=
  "generated_" +:+ pretty timestamp +:+ "." +:+ extension_of mimeType.

(** [saveImageToFile] (lines 174-191). *)
Definition saveImageToFile (base64Data mimeType : string) : M string :=
  try_catch
    (do timestamp <- date_now;
     let extension := extension_of mimeType in
     let filename := "generated_" +:+ pretty timestamp +:+ "." +:+ extension in
     do dir <- (fun st => (Ok (imagesDir st), st));
     let filepath := path_join dir filename in
     let buffer := fromBase64 rt base64Data in
     writeFileSync filepath buffer ;;
     ret ("/images/" +:+ filename))
    (fun error =>
       throw (JsError ("Failed to save image: " +:+ message_of error))).


(** *** Image generation *)

Definition image_model : string := "gemini-2.5-flash-image-preview".

Definition image_config : GenConfig :=
  {| thinkingBudget := None; tools := None;
     responseModalities := Some ["IMAGE"; "TEXT"] |}.

(** [response.candidates && response.candidates[0] &&
     response.candidates[0].content && response.candidates[0].content.parts],
    the guard of every non-streaming aggregation: the parts to walk, if
    any. *)
Definition guarded_parts (candidates : option (list Candidate))
  : option (list RespPart) :=
  match candidates with
  | Some (first :: _) =>
      match cand_content first with
      | Some content => content_parts content
      | None => None
      end
  | Some [] => None
  | None => None
  end.

(** The [for await] loop of the first [generateImage] (lines 229-246). *)
Fixpoint image_collect_stream (response : list Chunk)
    (images : list ImageResult) (textResponse : string)
  : M (list ImageResult * string) :=
  match response with
  | [] => ret (images, textResponse)
  | chunk :: rest =>
      match chunk_candidates chunk with
      | None => image_collect_stream rest images textResponse
      | Some [] =>
          throw (JsTypeError (ReadOfUndefined "chunk.candidates[0]" "content"))
      | Some (first :: _) =>
          match cand_content first with
          | None => image_collect_stream rest images textResponse
          | Some content =>
              match content_parts content with
              | None => image_collect_stream rest images textResponse
              | Some ps =>
                  match ps !! 0%nat ≫= part_inlineData with
                  | Some inlineData =>
                      image_collect_stream rest
                        (images ++ [{| img_buffer := None;
                                       img_data := Some (data inlineData);
                                       img_url := None;
                                       img_mimeType := mimeType inlineData |}])
                        textResponse
                  | None =>
                      match chunk_text chunk with
                      | Some t =>
                          if Js.truthy t
                          then image_collect_stream rest images (textResponse +:+ t)
                          else image_collect_stream rest images textResponse
                      | None => image_collect_stream rest images textResponse
                      end
                  end
              end
          end
      end
  end.

Definition prompt_contents (prompt : string) : list ContentTurn :=
  [{| role := "user"; parts := [TextPart prompt] |}].

(** First definition of [generateImage] (lines 198-256), streaming, base64
    in the result. *)
Definition generateImage_1 (request : ImageRequest) : M ImageResponse :=
  try_catch
    (let model := Js.default image_model (img_model request) in
     let config := image_config in
     let contents := prompt_contents (img_prompt request) in
     do response <- ai_generateContentStream
       {| gr_model := model; gr_config := config; gr_contents := contents |};
     do collected <- image_collect_stream response [] "";
     ret {| images := fst collected;
            ir_text := snd collected;
            totalImages := length (fst collected);
            ir_type := None |})
    (fun error =>
       throw (JsError ("Image generation failed: " +:+ message_of error))).

(** The [for (const part of parts)] loop of the second [generateImage]
    (lines 400-414): every image is saved as it is met. *)
Fixpoint image_collect_file (parts : list RespPart)
    (images : list ImageResult) (textResponse : string)
  : M (list ImageResult * string) :=
  match parts with
  | [] => ret (images, textResponse)
  | part :: rest =>
      match part_inlineData part with
      | Some inlineData =>
          do imageUrl <- saveImageToFile (data inlineData) (mimeType inlineData);
          image_collect_file rest
            (images ++ [{| img_buffer := None;
                           img_data := None;
                           img_url := Some imageUrl;
                           img_mimeType := mimeType inlineData |}])
            textResponse
      | None =>
          match part_text part with
          | Some t =>
              if Js.truthy t
              then image_collect_file rest images (textResponse +:+ t)
              else image_collect_file rest images textResponse
          | None => image_collect_file rest images textResponse
          end
      end
  end.

(** Second definition of [generateImage] (lines 362-425), non-streaming,
    images written to files. *)
Definition generateImage_2 (request : ImageRequest) : M ImageResponse :=
  try_catch
    (let model := Js.default image_model (img_model request) in
     let config := image_config in
     let contents := prompt_contents (img_prompt request) in
     do response <- ai_generateContent
       {| gr_model := model; gr_config := config; gr_contents := contents |};
     do collected <-
       match guarded_parts (resp_candidates response) with
       | Some parts => image_collect_file parts [] ""
       | None => ret ([], "")
       end;
     ret {| images := fst collected;
            ir_text := snd collected;
            totalImages := length (fst collected);
            ir_type := None |})
    (fun error =>
       throw (JsError ("Image generation failed: " +:+ message_of error))).

(** *** The image-to-image presets *)

Definition FIGURINE_PROMPT : string :=
  "Using the nano-banana model, a commercial 1/7 scale figurine of the character in the picture was created, depicting a realistic style and a realistic environment. The figurine is placed on a computer desk with a round transparent acrylic base. There is no text on the base. The computer screen shows the Zbrush modeling process of the figurine. Next to the computer screen is a BANDAI-style toy box with the original painting printed on it.".

Definition HIJAB_PROMPT : string :=
  "Modify only the hair area by converting it into a neat, fully-covered white hijab in Indonesian Muslim style (100% no hair visible), while STRICTLY PRESERVING all other elements: do NOT alter skin color, clothing, facial features, pose, background, shadows, or any original details beyond the hair-to-hijab conversion—no additions/subtractions permitted.".

Definition SDMTINGGI_PROMPT : string :=
  "Edit the uploaded image by keeping the exact same character and anything they are holding without changing their pose, position, or appearance, convert only the character and held objects into grayscale with all visual details preserved (not fully white), add a clean solid black rectangular censor bar that precisely follows the orientation of the character's eyes and covers only the eyes, remove the entire original background completely and replace it with a flat solid pure red color (#FF0000), and make sure no parts of the character or the items they are holding are removed or replaced.".

Definition preset_contents (prompt : string) (media : InlineData)
  : list ContentTurn :=
  [{| role := "user";
      parts := [TextPart prompt;
                InlineDataPart {| data := data media; mimeType := mimeType media |}] |}].

(** The [for (const part of parts)] loop of the presets (lines 490-504,
    575-589, 660-674): images are decoded to buffers, nothing is written. *)
Fixpoint preset_collect (parts : list RespPart)
    (images : list ImageResult) (textResponse : string)
  : list ImageResult * string :=
  match parts with
  | [] => (images, textResponse)
  | part :: rest =>
      match part_inlineData part with
      | Some inlineData =>
          let buffer := fromBase64 rt (data inlineData) in
          preset_collect rest
            (images ++ [{| img_buffer := Some buffer;
                           img_data := Some (data inlineData);
                           img_url := None;
                           img_mimeType := mimeType inlineData |}])
            textResponse
      | None =>
          match part_text part with
          | Some t =>
              if Js.truthy t
              then preset_collect rest images (textResponse +:+ t)
              else preset_collect rest images textResponse
          | None => preset_collect rest images textResponse
          end
      end
  end.

(** The body shared, letter for letter, by [generateFigurine],
    [generateHijab] and [generateSdmTinggi]; they differ in the prompt, the
    [type] tag and the prefix of the error message. *)
Definition generatePreset (PROMPT type failed : string) (request : PresetRequest)
  : M ImageResponse :=
  try_catch
    (let image := preset_image request in
     let model := Js.default image_model (preset_model request) in
     let config := image_config in
     do media <- resolveFile "image" image;
     let contents := preset_contents PROMPT media in
     do response <- ai_generateContent
       {| gr_model := model; gr_config := config; gr_contents := contents |};
     let collected :=
       match guarded_parts (resp_candidates response) with
       | Some parts => preset_collect parts [] ""
       | None => ([], "")
       end in
     ret {| images := fst collected;
            ir_text := snd collected;
            totalImages := length (fst collected);
            ir_type := Some type |})
    (fun error => throw (JsError (failed +:+ message_of error))).

(** [generateFigurine] (lines 433-516). *)
Definition generateFigurine : PresetRequest -> M ImageResponse :=
  generatePreset FIGURINE_PROMPT "figurine" "Figurine generation failed: ".

(** [generateHijab] (lines 518-601). *)
Definition generateHijab : PresetRequest -> M ImageResponse :=
  generatePreset HIJAB_PROMPT "hijab" "Hijab generation failed: ".

(** [generateSdmTinggi] (lines 603-686). *)
Definition generateSdmTinggi : PresetRequest -> M ImageResponse :=
  generatePreset SDMTINGGI_PROMPT "sdmtinggi" "SdmTinggi generation failed: ".

(** *** The class body

    The methods of [class GeminiService], in the order the class body
    declares them.  Two names are declared twice; a later declaration of a
    name replaces the earlier one on the prototype. *)

Inductive Method :=
| MFetch (f : string -> M InlineData)
| MChat (f : ChatRequest -> M ChatResponse)
| MSave (f : string -> string -> M string)
| MImage (f : ImageRequest -> M ImageResponse)
| MPreset (f : PresetRequest -> M ImageResponse).

Definition GeminiService_body : list (string * Method) :=
  [ ("fetchFileFromUrl", MFetch fetchFileFromUrl);
    ("generateChatResponse", MChat generateChatResponse_1);
    ("saveImageToFile", MSave saveImageToFile);
    ("generateImage", MImage generateImage_1);
    ("generateChatResponse", MChat generateChatResponse_2);
    ("generateImage", MImage generateImage_2);
    ("generateFigurine", MPreset generateFigurine);
    ("generateHijab", MPreset generateHijab);
    ("generateSdmTinggi", MPreset generateSdmTinggi) ].

(** Property lookup on the prototype built from a class body. *)
Definition prototype (body : list (string * Method)) : gmap string Method :=
  fold_left (fun proto member => <[member.1 := member.2]> proto) body ∅.

Definition geminiService : gmap string Method := prototype GeminiService_body.

(** [geminiService.<name>(request)] as the controllers write it; calling a
    property that is [undefined] raises a [TypeError]. *)
Definition call_chat (name : string) (request : ChatRequest) : M ChatResponse :=
  match geminiService !! name with
  | Some (MChat f) => f request
  | _ => throw (JsTypeError (NotAFunction ("geminiService." +:+ name)))
  end.

Definition call_image (name : string) (request : ImageRequest) : M ImageResponse :=
  match geminiService !! name with
  | Some (MImage f) => f request
  | _ => throw (JsTypeError (NotAFunction ("geminiService." +:+ name)))
  end.

Definition call_preset (name : string) (request : PresetRequest) : M ImageResponse :=
  match geminiService !! name with
  | Some (MPreset f) => f request
  | _ => throw (JsTypeError (NotAFunction ("geminiService." +:+ name)))
  end.


(** ** The controllers *)

(** What a handler returns to Elysia. *)
Inductive Body :=
| BodyBuffer (buffer : Buffer)
| BodyUndefined
| BodyFailure (error : string)
| BodyChat (data : ChatResponse)
| BodyImage (data : ImageResponse).

Definition dquote : string := String "034"%char EmptyString.

(** [set.headers[name] = value] *)
Definition set_header (name value : string) : M unit :=
  fun st =>
    (Ok tt,
     with_set {| set_status := set_status (set st);
                 set_headers := <[name := value]> (set_headers (set st)) |} st).

(** [set.status = code] *)
Definition set_status_code (code : nat) : M unit :=
  fun st =>
    (Ok tt,
     with_set {| set_status := Some code;
                 set_headers := set_headers (set st) |} st).

Definition attachment (filename : string) : string :=
  "attachment; filename=" +:+ dquote +:+ filename +:+ dquote.

(** Lines 13-28 (and 62-77) of the figurine, hijab, sdmtinggi and hitam
    controllers: answer with the first image, or with the failure object. *)
Definition first_image_or_failure (filename : string) (result : ImageResponse)
  : M Body :=
  match images result with
  | firstImage :: _ =>
      set_header "Content-Type" (img_mimeType firstImage) ;;
      set_header "Content-Disposition" (attachment filename) ;;
      match img_buffer firstImage with
      | Some buffer => ret (BodyBuffer buffer)
      | None => ret BodyUndefined
      end
  | [] => ret (BodyFailure "No image generated")
  end.

(** [.post("/", async ({ body, set }) => ...)] of a preset controller. *)
Definition preset_post (method filename : string) (body_image : option File)
  : M Body :=
  try_catch
    (do result <- call_preset method
       {| preset_image := FileObject <$> body_image; preset_model := None |};
     first_image_or_failure filename result)
    (fun error => ret (BodyFailure (message_of error))).

(** [.get("/", async ({ query, set }) => ...)] of a preset controller. *)
Definition preset_get (method filename : string) (query_imageUrl : option string)
  : M Body :=
  try_catch
    (if negb (Js.truthy_opt query_imageUrl) then
       ret (BodyFailure "imageUrl parameter is required")
     else
       do result <- call_preset method
         {| preset_image := FileUrl <$> query_imageUrl; preset_model := None |};
       first_image_or_failure filename result)
    (fun error => ret (BodyFailure (message_of error))).

(** figurineController *)
Definition figurineController_post := preset_post "generateFigurine" "figurine.png".
Definition figurineController_get := preset_get "generateFigurine" "figurine.png".

(** hijabController *)
Definition hijabController_post := preset_post "generateHijab" "hijab.png".
Definition hijabController_get := preset_get "generateHijab" "hijab.png".

(** sdmtinggiController.js *)
Definition sdmtinggiController_post := preset_post "generateSdmTinggi" "sdmtinggi.png".
Definition sdmtinggiController_get := preset_get "generateSdmTinggi" "sdmtinggi.png".

(** hitamController.js *)
Definition hitamController_post := preset_post "generateHitam" "hitam.png".
Definition hitamController_get := preset_get "generateHitam" "hitam.png".

(** imageController.js, [/image/generate] answering JSON (POST and GET have
    the same body). *)
Definition imageController_generate (request : ImageRequest) : M Body :=
  try_catch
    (do response <- call_image "generateImage" request;
     ret (BodyImage response))
    (fun error =>
       set_status_code 500 ;;
       ret (BodyFailure (message_of error))).

(** The other [imageController], [/image/generate] answering the first image
    as a buffer decoded from [firstImage.data]. *)
Definition imageController_generate_buffer (request : ImageRequest) : M Body :=
  try_catch
    (do response <- call_image "generateImage" request;
     match images response with
     | firstImage :: _ =>
         set_header "Content-Type" (img_mimeType firstImage) ;;
         set_header "Content-Disposition" (attachment "generated.png") ;;
         match img_data firstImage with
         | Some base64 => ret (BodyBuffer (fromBase64 rt base64))
         | None => throw (JsTypeError BufferFromUndefined)
         end
     | [] => ret (BodyFailure "No image generated")
     end)
    (fun error =>
       set_status_code 500 ;;
       ret (BodyFailure (message_of error))).

(** chatController: the four routes run the same handler body. *)
Definition chatController_handler (request : ChatRequest) : M Body :=
  try_catch
    (do response <- call_chat "generateChatResponse" request;
     ret (BodyChat response))
    (fun error =>
       set_status_code 500 ;;
       ret (BodyFailure (message_of error))).

End Service.

(** ** Concrete runtimes used to run the code *)

Module Demo.

Definition jpeg : InlineData := {| data := "AAAA"; mimeType := "image/jpeg" |}.
Definition png : InlineData := {| data := "BBBB"; mimeType := "image/png" |}.

Definition image_part (i : InlineData) : RespPart :=
  {| part_inlineData := Some i; part_text := None |}.

Definition text_part (t : string) : RespPart :=
  {| part_inlineData := None; part_text := Some t |}.

Definition response_of (ps : list RespPart) : Response :=
  {| resp_candidates := Some [{| cand_content := Some {| content_parts := Some ps |} |}];
     resp_text := Some "hi" |}.

(** Base64 is kept symbolic: one byte per character. *)
Definition decode (s : string) : Buffer := String.list_byte_of_string s.

Definition encode (b : Buffer) : string := String.string_of_list_byte b.

(** A network that answers every URL with a PNG and no content type, and a
    model that answers every request with two images around a text. *)
Definition rt : Runtime :=
  {| toBase64 := encode;
     fromBase64 := decode;
     cwd := "/srv";
     fetch := fun _ =>
       Fetched {| ok := true; statusText := "OK"; contentType := None;
                body := BodyBytes [x50; x4e; x47] |};
     generateContent := fun _ =>
       ModelResult (response_of [image_part jpeg; text_part "done"; image_part png]);
     generateContentStream := fun _ =>
       ModelResult [{| chunk_candidates := None; chunk_text := Some "he" |};
                    {| chunk_candidates := None; chunk_text := None |};
                    {| chunk_candidates := None; chunk_text := Some "llo" |}];
     clock := fun n => (1700000000000 + N.of_nat n)%N;
     writeError := fun _ => None;
     writeLeaves := fun _ _ => None;
     mkdirError := fun _ => None; mkdirMade := fun _ => 0%nat;
     typeErrorMessage := fun k =>
       match k with
       | NotAFunction callee => callee +:+ " is not a function"
       | ReadOfUndefined o p => "undefined is not an object (evaluating " +:+ o +:+ "." +:+ p +:+ ")"
       | BufferFromUndefined => "The first argument must be of type string"
       end |}.

(** The same runtime with a network that is down. *)
Definition rt_down : Runtime :=
  {| toBase64 := encode; fromBase64 := decode; cwd := "/srv";
     fetch := fun _ => NetworkError "ECONNREFUSED";
     generateContent := generateContent rt;
     generateContentStream := generateContentStream rt;
     clock := clock rt; writeError := writeError rt;
     writeLeaves := writeLeaves rt; mkdirError := mkdirError rt; mkdirMade := mkdirMade rt;
     typeErrorMessage := typeErrorMessage rt |}.

(** ... answering 404. *)
Definition rt_404 : Runtime :=
  {| toBase64 := encode; fromBase64 := decode; cwd := "/srv";
     fetch := fun _ =>
       Fetched {| ok := false; statusText := "Not Found"; contentType := None;
                body := BodyBytes [] |};
     generateContent := generateContent rt;
     generateContentStream := generateContentStream rt;
     clock := clock rt; writeError := writeError rt;
     writeLeaves := writeLeaves rt; mkdirError := mkdirError rt; mkdirMade := mkdirMade rt;
     typeErrorMessage := typeErrorMessage rt |}.

(** ... with a model that produces nothing. *)
Definition rt_empty : Runtime :=
  {| toBase64 := encode; fromBase64 := decode; cwd := "/srv";
     fetch := fetch rt;
     generateContent := fun _ =>
       ModelResult {| resp_candidates := None; resp_text := None |};
     generateContentStream := fun _ => ModelResult [];
     clock := clock rt; writeError := writeError rt;
     writeLeaves := writeLeaves rt; mkdirError := mkdirError rt; mkdirMade := mkdirMade rt;
     typeErrorMessage := typeErrorMessage rt |}.

(** ... with a model that is out of quota. *)
Definition rt_quota : Runtime :=
  {| toBase64 := encode; fromBase64 := decode; cwd := "/srv";
     fetch := fetch rt;
     generateContent := fun _ => ModelError "quota exceeded";
     generateContentStream := fun _ => ModelError "quota exceeded";
     clock := clock rt; writeError := writeError rt;
     writeLeaves := writeLeaves rt; mkdirError := mkdirError rt; mkdirMade := mkdirMade rt;
     typeErrorMessage := typeErrorMessage rt |}.

(** ... with a disk that is full: a write creates the file and gets no byte
    into it. *)
Definition rt_full : Runtime :=
  {| toBase64 := encode; fromBase64 := decode; cwd := "/srv";
     fetch := fetch rt;
     generateContent := generateContent rt;
     generateContentStream := generateContentStream rt;
     clock := clock rt;
     writeError := fun _ => Some "ENOSPC: no space left on device";
     writeLeaves := fun _ _ => Some [];
     mkdirError := mkdirError rt; mkdirMade := mkdirMade rt;
     typeErrorMessage := typeErrorMessage rt |}.

Definition st0 : State :=
  {| sessions := ∅; imagesDir := "/srv/public/images"; files := ∅;
     dirs := {["/srv/public"; "/srv/public/images"]}; ticks := 0; trace := [];
     set := {| set_status := None; set_headers := ∅ |} |}.

(** The same state on a disk where no directory has been made yet. *)
Definition st_bare : State :=
  {| sessions := ∅; imagesDir := ""; files := ∅; dirs := ∅; ticks := 0; trace := [];
     set := {| set_status := None; set_headers := ∅ |} |}.

Definition upload : File := {| file_type := "image/png"; file_bytes := [x01; x02; x03] |}.

Definition hello : ChatRequest :=
  {| chat_model := None; chat_sessionId := Some "user123";
     chat_systemPrompt := Some "You are a helpful assistant";
     chat_message := "hello"; chat_file := None;
     chat_useTools := None; chat_useThinking := None |}.

(** What [hello] is sent as, and what the handler answers. *)
Definition hello_request : GenRequest :=
  {| gr_model := "gemini-2.5-flash";
     gr_config := {| thinkingBudget := None; tools := None; responseModalities := None |};
     gr_contents := [{| role := "user"; parts := [TextPart "You are a helpful assistant"] |};
                     {| role := "user"; parts := [TextPart "hello"] |}] |}.

Definition hello_answer : ChatResponse :=
  {| cr_text := "hi"; cr_chunks := None; cr_sessionId := Some "user123";
     cr_usedTools := false; cr_usedThinking := false |}.

(** A chat request that carries an upload. *)
Definition describe : ChatRequest :=
  {| chat_model := None; chat_sessionId := None;
     chat_systemPrompt := Some "You are a helpful assistant";
     chat_message := "what is this?"; chat_file := Some (FileObject upload);
     chat_useTools := None; chat_useThinking := None |}.

(** What [describe] is sent as. *)
Definition describe_request : GenRequest :=
  {| gr_model := "gemini-2.5-flash";
     gr_config := {| thinkingBudget := None; tools := None; responseModalities := None |};
     gr_contents :=
       [{| role := "user"; parts := [TextPart "You are a helpful assistant"] |};
        {| role := "user";
           parts := [TextPart "what is this?";
                     InlineDataPart {| data := encode [x01; x02; x03];
                                       mimeType := "image/png" |}] |}] |}.

Definition cat : ImageRequest := {| img_model := None; img_prompt := "cat" |}.

Definition nothing : Response := {| resp_candidates := None; resp_text := None |}.

End Demo.

(** * Vocabulary of the properties *)

(** Why a remote reference cannot be retrieved, and the text that names the
    cause: the transport error (of the request, or of the transfer of the
    body), or the status text of a non-2xx answer. *)
Inductive unretrievable (rt : Runtime) (url : string) : string -> Prop :=
| transport_failure msg :
    fetch rt url = NetworkError msg -> unretrievable rt url msg
| bad_status response :
    fetch rt url = Fetched response -> ok response = false ->
    unretrievable rt url (statusText response)
| transfer_failure response msg :
    fetch rt url = Fetched response -> ok response = true ->
    body response = BodyAborted msg ->
    unretrievable rt url msg.

(** The four image-to-image presets, and the route handlers index.js mounts
    for each. *)
Inductive Preset := figurine | hijab | sdmtinggi | hitam.

Definition controller_get (rt : Runtime) (p : Preset) : option string -> M Body :=
  match p with
  | figurine => figurineController_get rt
  | hijab => hijabController_get rt
  | sdmtinggi => sdmtinggiController_get rt
  | hitam => hitamController_get rt
  end.

Definition controller_post (rt : Runtime) (p : Preset) : option File -> M Body :=
  match p with
  | figurine => figurineController_post rt
  | hijab => hijabController_post rt
  | sdmtinggi => sdmtinggiController_post rt
  | hitam => hitamController_post rt
  end.

(** The calls [m] adds to the trace when run from [st]. *)
Definition events_of {A} (m : M A) (st : State) : list Event :=
  drop (length (trace st)) (trace (m st).2).

(** From every state, [m] extends the trace by events that all satisfy [P],
    and a value it returns satisfies [Q]. *)
Definition emits {A} (P : Event -> Prop) (Q : A -> Prop) (m : M A) : Prop :=
  forall st,
    (exists evs, trace (m st).2 = trace st ++ evs /\ Forall P evs) /\
    (forall a, (m st).1 = Ok a -> Q a).

(** Within a turn, every text part comes before every media part. *)
Definition text_before_media (ps : list Part) : Prop :=
  forall i j t m,
    ps !! i = Some (TextPart t) -> ps !! j = Some (InlineDataPart m) -> i < j.

(** The turn a system prompt becomes (its role is [user] in the code). *)
Definition system_turn (sp : string) : ContentTurn :=
  {| role := "user"; parts := [TextPart sp] |}.

(** The media part a reference is sent as: an upload as its bytes in base64
    under its declared type; a URL as the bytes of a successful download in
    base64, under the content type answered, or [application/octet-stream]
    when none is. *)
Definition resolved_media (rt : Runtime) (f : FileArg) (media : InlineData) : Prop :=
  match f with
  | FileObject file =>
      media = {| data := toBase64 rt (file_bytes file); mimeType := file_type file |}
  | FileUrl url =>
      exists response bytes,
        fetch rt url = Fetched response /\ ok response = true /\
        body response = BodyBytes bytes /\
        media = {| data := toBase64 rt bytes;
                   mimeType := Js.or_string (contentType response)
                                 "application/octet-stream" |}
  end.

(** What is required of the request [r] assembled for a chat [request]: the
    turns and their order, and the parts of the user turn, which are the
    message alone when no media is supplied and the message followed by the
    media of the request, and nothing else, when it is. *)
Definition chat_ordered (rt : Runtime) (request : ChatRequest) (r : GenRequest) : Prop :=
  exists u,
    last (gr_contents r) = Some u /\
    role u = "user" /\
    head (parts u) = Some (TextPart (chat_message request)) /\
    text_before_media (parts u) /\
    (forall sp, chat_systemPrompt request = Some sp -> sp <> "" ->
                gr_contents r = [system_turn sp; u]) /\
    (Js.truthy_opt (chat_systemPrompt request) = false -> gr_contents r = [u]) /\
    (if_file (chat_file request) = None -> parts u = [TextPart (chat_message request)]) /\
    (forall f, if_file (chat_file request) = Some f ->
               exists media,
                 resolved_media rt f media /\
                 parts u = [TextPart (chat_message request); InlineDataPart media]).

(** What is required of the request [r] assembled by a preset for
    [request]: one user turn, the prompt followed by the image of the
    request. *)
Definition preset_ordered (rt : Runtime) (PROMPT : string) (request : PresetRequest)
    (r : GenRequest) : Prop :=
  exists u f media,
    preset_image request = Some f /\
    resolved_media rt f media /\
    gr_contents r = [u] /\
    role u = "user" /\
    parts u = [TextPart PROMPT; InlineDataPart media] /\
    text_before_media (parts u).

(** What is required of the request [r] assembled for an image [request]:
    no system prompt, no media, the prompt alone. *)
Definition image_ordered (request : ImageRequest) (r : GenRequest) : Prop :=
  gr_contents r = [{| role := "user"; parts := [TextPart (img_prompt request)] |}].

(** The parts [chat_parts] can return. *)
Definition chat_parts_shape (request : ChatRequest) (ps : list Part) : Prop :=
  ps = [TextPart (chat_message request)] \/
  (if_file (chat_file request) <> None /\
   exists m, ps = [TextPart (chat_message request); InlineDataPart m]).

(** The parts [chat_parts] returns for [request]. *)
Definition chat_parts_exact (rt : Runtime) (request : ChatRequest) (ps : list Part)
  : Prop :=
  match if_file (chat_file request) with
  | None => ps = [TextPart (chat_message request)]
  | Some f =>
      exists media,
        resolved_media rt f media /\
        ps = [TextPart (chat_message request); InlineDataPart media]
  end.

(** Every generation call in the trace carries a request that satisfies
    [ordered]. *)
Definition dispatches (ordered : GenRequest -> Prop) (e : Event) : Prop :=
  match e with
  | EvGenerateContent r | EvGenerateContentStream r => ordered r
  | EvFetch _ | EvWriteFile _ => True
  end.

(** Any call but [generateContentStream]. *)
Definition not_stream (e : Event) : Prop :=
  match e with
  | EvGenerateContentStream _ => False
  | EvFetch _ | EvGenerateContent _ | EvWriteFile _ => True
  end.

(** The value the second definition returns. *)
Definition chat_result_2 (request : ChatRequest) (data : ChatResponse) : Prop :=
  cr_chunks data = None /\
  cr_sessionId data = Js.or_null (chat_sessionId request) /\
  cr_usedTools data = Js.default false (chat_useTools request) /\
  cr_usedThinking data = Js.default false (chat_useThinking request).

(** [s] contains no [/]. *)
Fixpoint no_slash (s : string) : bool :=
  match s with
  | EmptyString => true
  | String c r => negb (Ascii.eqb c "/"%char) && no_slash r
  end.

(** [m] neither reads nor writes [this.sessions]. *)
Definition sessions_frame {A} (m : M A) : Prop :=
  forall st s, m (with_sessions s st) = ((m st).1, with_sessions s (m st).2).

(** Every method on the prototype is framed. *)
Definition method_frame (m : Method) : Prop :=
  match m with
  | MFetch f => forall url, sessions_frame (f url)
  | MChat f => forall request, sessions_frame (f request)
  | MSave f => forall base64Data mimeType, sessions_frame (f base64Data mimeType)
  | MImage f => forall request, sessions_frame (f request)
  | MPreset f => forall request, sessions_frame (f request)
  end.

(** Every request the controllers handle. *)
Inductive Inbound :=
| InChat (request : ChatRequest)
| InImage (request : ImageRequest)
| InImageBuffer (request : ImageRequest)
| InPresetPost (p : Preset) (image : option File)
| InPresetGet (p : Preset) (imageUrl : option string).

Definition handle (rt : Runtime) (i : Inbound) : M Body :=
  match i with
  | InChat request => chatController_handler rt request
  | InImage request => imageController_generate rt request
  | InImageBuffer request => imageController_generate_buffer rt request
  | InPresetPost p image => controller_post rt p image
  | InPresetGet p imageUrl => controller_get rt p imageUrl
  end.

(** The element [preset_collect] pushes for an inline image. *)
Definition buffer_image (rt : Runtime) (i : InlineData) : ImageResult :=
  {| img_buffer := Some (fromBase64 rt (data i));
     img_data := Some (data i);
     img_url := None;
     img_mimeType := mimeType i |}.

(** The images of the artifact a preset aggregates from [response]. *)
Definition preset_images (rt : Runtime) (response : Response) : list ImageResult :=
  match guarded_parts (resp_candidates response) with
  | Some ps => (preset_collect rt ps [] "").1
  | None => []
  end.

(** ... and its text. *)
Definition preset_text (rt : Runtime) (response : Response) : string :=
  match guarded_parts (resp_candidates response) with
  | Some ps => (preset_collect rt ps [] "").2
  | None => ""
  end.

(** The request a preset sends for [media] when no model is named. *)
Definition preset_request (PROMPT : string) (media : InlineData) : GenRequest :=
  {| gr_model := image_model; gr_config := image_config;
     gr_contents := preset_contents PROMPT media |}.

(** The body [first_image_or_failure] answers with. *)
Definition first_image_body (images : list ImageResult) : Body :=
  match images with
  | firstImage :: _ =>
      match img_buffer firstImage with
      | Some buffer => BodyBuffer buffer
      | None => BodyUndefined
      end
  | [] => BodyFailure "No image generated"
  end.

(** The prompt of the presets whose service method exists. *)
Definition preset_prompt (p : Preset) : option string :=
  match p with
  | figurine => Some FIGURINE_PROMPT
  | hijab => Some HIJAB_PROMPT
  | sdmtinggi => Some SDMTINGGI_PROMPT
  | hitam => None
  end.

(** A request to preset [p] carrying the media reference [ref]: an upload goes
    to the POST route, a URL to the GET route. *)
Definition controller_with (rt : Runtime) (p : Preset) (ref : FileArg) : M Body :=
  match ref with
  | FileUrl url => controller_get rt p (Some url)
  | FileObject f => controller_post rt p (Some f)
  end.

(** No candidates, or a first candidate without content, without parts, or
    with an empty list of parts. *)
Definition no_content_parts (response : Response) : Prop :=
  match resp_candidates response with
  | None | Some [] => True
  | Some (first :: _) =>
      match cand_content first with
      | None => True
      | Some content =>
          match content_parts content with
          | None => True
          | Some ps => ps = []
          end
      end
  end.

(** [{ images: [], text: '', totalImages: 0 }], with the [type] tag the
    presets add. *)
Definition empty_artifact (type : option string) : ImageResponse :=
  {| images := []; ir_text := ""; totalImages := 0; ir_type := type |}.

(** The request [generateImage] sends. *)
Definition image_request (request : ImageRequest) : GenRequest :=
  {| gr_model := Js.default image_model (img_model request);
     gr_config := image_config;
     gr_contents := prompt_contents (img_prompt request) |}.

(** An element of [images] without the [data] property, as the second
    [generateImage] pushes them. *)
Definition no_data (i : ImageResult) : Prop := img_data i = None.

(** [m] leaves the component [f] of the state as it found it. *)
Definition keeps {X A} (f : State -> X) (m : M A) : Prop :=
  forall st, f (m st).2 = f st.

(** [m] always returns: whatever is thrown inside it is caught inside it. *)
Definition never_throws {A} (m : M A) : Prop :=
  forall st, exists a, (m st).1 = Ok a.

(** What the file system and the clock hold. *)
Definition disk (st : State) : gmap string Buffer * gset string * string * nat :=
  (files st, dirs st, imagesDir st, ticks st).

(** Any call but a file write. *)
Definition not_write (e : Event) : Prop :=
  match e with
  | EvWriteFile _ => False
  | EvFetch _ | EvGenerateContent _ | EvGenerateContentStream _ => True
  end.

(** An element of [images] that carries its decoded bytes, as the presets
    push them. *)
Definition has_buffer (i : ImageResult) : Prop := img_buffer i <> None.

(** The bodies a handler of each kind of request can answer with. *)
Definition answer_shape (i : Inbound) (b : Body) : Prop :=
  match i with
  | InChat _ => (exists data, b = BodyChat data) \/ (exists error, b = BodyFailure error)
  | InImage _ => (exists data, b = BodyImage data) \/ (exists error, b = BodyFailure error)
  | InImageBuffer _ => exists error, b = BodyFailure error
  | InPresetPost _ _ | InPresetGet _ _ =>
      (exists buffer, b = BodyBuffer buffer) \/ (exists error, b = BodyFailure error)
  end.

(** [set.status], the status code the handler chose, if it chose one. *)
Definition status_of (st : State) : option nat := set_status (set st).

(** A buffer or a failure object. *)
Definition buffer_or_failure (b : Body) : Prop :=
  (exists buffer, b = BodyBuffer buffer) \/ (exists error, b = BodyFailure error).

(** The request a chat call sends once its parts [ps] are assembled. *)
Definition chat_request (request : ChatRequest) (ps : list Part) : GenRequest :=
  {| gr_model := Js.default config_models_chat (chat_model request);
     gr_config := chat_configOptions (Js.default false (chat_useTools request))
                    (Js.default false (chat_useThinking request));
     gr_contents := chat_contents (chat_systemPrompt request) ps |}.

(** The model answers every request with the error [cause]. *)
Definition model_down (rt : Runtime) (cause : string) : Prop :=
  forall req, generateContent rt req = ModelError cause.

(** The prefix a preset's service method puts before the cause of a failure. *)
Definition preset_failed (p : Preset) : option string :=
  match p with
  | figurine => Some "Figurine generation failed: "
  | hijab => Some "Hijab generation failed: "
  | sdmtinggi => Some "SdmTinggi generation failed: "
  | hitam => None
  end.

(** The media of a chat request resolves from [st] (or there is none). *)
Definition chat_media_resolves (rt : Runtime) (request : ChatRequest) (st : State) : Prop :=
  match if_file (chat_file request) with
  | Some f => exists media st1, resolveFile rt "file" (Some f) st = (Ok media, st1)
  | None => True
  end.

(** The fetch a chat request makes for its media, if any. *)
Definition chat_fetches (request : ChatRequest) : list Event :=
  match if_file (chat_file request) with
  | Some (FileUrl url) => [EvFetch url]
  | Some (FileObject _) | None => []
  end.

(** What is required of the model and configuration of a chat request. *)
Definition chat_configured (request : ChatRequest) (r : GenRequest) : Prop :=
  gr_model r = Js.default "gemini-2.5-flash" (chat_model request) /\
  (thinkingBudget (gr_config r) = Some (-1)%Z <-> chat_useThinking request = Some true) /\
  (thinkingBudget (gr_config r) = None <-> chat_useThinking request <> Some true) /\
  (tools (gr_config r) = Some [GoogleSearch] <-> chat_useTools request = Some true) /\
  (tools (gr_config r) = None <-> chat_useTools request <> Some true) /\
  responseModalities (gr_config r) = None.

(** ... and of an image or preset request. *)
Definition image_configured (model : option string) (r : GenRequest) : Prop :=
  gr_model r = Js.default "gemini-2.5-flash-image-preview" model /\
  gr_config r = {| thinkingBudget := None; tools := None;
                   responseModalities := Some ["IMAGE"; "TEXT"] |}.

(** The strings of [l] appended in order. *)
Definition joined (l : list string) : string := foldr String.append "" l.

(** What a response part adds to the text: nothing when it carries inline
    data, else its text if it has a non-empty one. *)
Definition text_of_part (p : RespPart) : string :=
  match part_inlineData p with
  | Some _ => ""
  | None => Js.or_string (part_text p) ""
  end.

(** The text deltas a chunk sequence carries: the non-empty [chunk.text]s. *)
Definition text_deltas (response : list Chunk) : list string :=
  filter (fun t => t <> "") (omap chunk_text response).

(** The result of the streaming chat definition on a chunk sequence. *)
Definition streamed_result (result : ChatResponse) : Prop :=
  exists deltas,
    cr_chunks result = Some deltas /\
    cr_text result = joined deltas /\
    Forall (fun t => t <> "") deltas.

(** A decimal digit. *)
Definition is_digit (c : ascii) : bool :=
  (48 <=? nat_of_ascii c)%nat && (nat_of_ascii c <=? 57)%nat.

(** [s] is made of decimal digits only. *)
Fixpoint all_digits (s : string) : bool :=
  match s with
  | EmptyString => true
  | String c r => is_digit c && all_digits r
  end.

(** The element the second [generateImage] pushes for an inline image saved
    at clock reading number [t]. *)
Definition saved_image (rt : Runtime) (t : nat) (i : InlineData) : ImageResult :=
  {| img_buffer := None;
     img_data := None;
     img_url := Some ("/images/" +:+ filename_of (clock rt t) (mimeType i));
     img_mimeType := mimeType i |}.

(** The elements pushed for a run of inline images, the first saved at clock
    reading number [t], each of the next at the following reading. *)
Fixpoint saved_images (rt : Runtime) (t : nat) (inls : list InlineData)
  : list ImageResult :=
  match inls with
  | [] => []
  | i :: rest => saved_image rt t i :: saved_images rt (S t) rest
  end.

(** ... and the paths they are written to, under [dir]. *)
Fixpoint saved_paths (rt : Runtime) (dir : string) (t : nat) (inls : list InlineData)
  : list string :=
  match inls with
  | [] => []
  | i :: rest =>
      path_join dir (filename_of (clock rt t) (mimeType i)) :: saved_paths rt dir (S t) rest
  end.

(** No file write fails. *)
Definition writes_succeed (rt : Runtime) : Prop :=
  forall path, writeError rt path = None.

(** The download name a preset's handlers put in [Content-Disposition]. *)
Definition preset_filename (p : Preset) : string :=
  match p with
  | figurine => "figurine.png"
  | hijab => "hijab.png"
  | sdmtinggi => "sdmtinggi.png"
  | hitam => "hitam.png"
  end.

(** A path segment that [path.normalize] keeps as it is: not empty, without
    [/], and neither [.] nor [..]. *)
Definition plain (seg : string) : Prop :=
  no_slash seg = true /\ seg <> "" /\ seg <> "." /\ seg <> "..".

(** What a failed write of [buffer] to [path] leaves of the files [fs]. *)
Definition after_failed_write (rt : Runtime) (path : string) (buffer : Buffer)
    (fs : gmap string Buffer) : gmap string Buffer :=
  match writeLeaves rt path buffer with
  | Some remains => <[path := remains]> fs
  | None => fs
  end.

(** * Properties *)

(** ** Running monadic code *)

Section Run.

Context {A B : Type}.

Lemma bind_ok (m : M A) (k : A -> M B) st a st' :
  m st = (Ok a, st') -> bind m k st = k a st'.
Proof. intros H. unfold bind. now rewrite H. Qed.

Lemma bind_throw (m : M A) (k : A -> M B) st e st' :
  m st = (Throw e, st') -> bind m k st = (Throw e, st').
Proof. intros H. unfold bind. now rewrite H. Qed.

Lemma try_catch_ok (m : M A) h st a st' :
  m st = (Ok a, st') -> try_catch m h st = (Ok a, st').
Proof. intros H. unfold try_catch. now rewrite H. Qed.

Lemma try_catch_throw (m : M A) h st e st' :
  m st = (Throw e, st') -> try_catch m h st = h e st'.
Proof. intros H. unfold try_catch. now rewrite H. Qed.

End Run.

(** ** Media resolution *)

Lemma truthy_nonempty s : Js.truthy s = true <-> s <> "".
Proof. destruct s; simpl; split; congruence. Qed.

Lemma or_string_nonempty o d : d <> "" -> Js.or_string o d <> "".
Proof.
  intros Hd. unfold Js.or_string.
  destruct o as [s|]; [|exact Hd].
  destruct (Js.truthy s) eqn:E; [|exact Hd].
  now apply truthy_nonempty.
Qed.

Lemma string_app_cons c (s t : string) : String c s +:+ t = String c (s +:+ t).
Proof. reflexivity. Qed.

Lemma string_app_nil_r (s : string) : s +:+ "" = s.
Proof.
  induction s as [|c s IH]; [reflexivity|].
  rewrite string_app_cons. now rewrite IH.
Qed.

Lemma string_app_assoc (a b c : string) : (a +:+ b) +:+ c = a +:+ (b +:+ c).
Proof.
  induction a as [|x a IH]; [reflexivity|].
  rewrite !string_app_cons. now rewrite IH.
Qed.

Lemma includes_suffix pre s : Js.includes (pre +:+ s) s.
Proof. exists pre, "". now rewrite string_app_nil_r. Qed.

Lemma fetchFileFromUrl_network rt url st msg :
  fetch rt url = NetworkError msg ->
  fetchFileFromUrl rt url st =
    (Throw (JsError ("Error fetching file from URL: " +:+ msg)),
     with_trace (trace st ++ [EvFetch url]) st).
Proof.
  intros H. unfold fetchFileFromUrl, try_catch, bind, js_fetch, bind, emit.
  simpl. now rewrite H.
Qed.

Lemma fetchFileFromUrl_status rt url st response :
  fetch rt url = Fetched response -> ok response = false ->
  fetchFileFromUrl rt url st =
    (Throw (JsError ("Error fetching file from URL: " +:+
                     ("Failed to fetch file: " +:+ statusText response))),
     with_trace (trace st ++ [EvFetch url]) st).
Proof.
  intros H Hok. unfold fetchFileFromUrl, try_catch, bind, js_fetch, bind, emit.
  simpl. rewrite H. simpl. now rewrite Hok.
Qed.

Lemma fetchFileFromUrl_aborted rt url st response msg :
  fetch rt url = Fetched response -> ok response = true ->
  body response = BodyAborted msg ->
  fetchFileFromUrl rt url st =
    (Throw (JsError ("Error fetching file from URL: " +:+ msg)),
     with_trace (trace st ++ [EvFetch url]) st).
Proof.
  intros H Hok Hbody.
  unfold fetchFileFromUrl, try_catch, bind, js_fetch, bind, emit, js_arrayBuffer.
  simpl. rewrite H. simpl. rewrite Hok. simpl. now rewrite Hbody.
Qed.

Lemma fetchFileFromUrl_ok rt url st response bytes :
  fetch rt url = Fetched response -> ok response = true ->
  body response = BodyBytes bytes ->
  fetchFileFromUrl rt url st =
    (Ok {| data := toBase64 rt bytes;
           mimeType := Js.or_string (contentType response) "application/octet-stream" |},
     with_trace (trace st ++ [EvFetch url]) st).
Proof.
  intros H Hok Hbody.
  unfold fetchFileFromUrl, try_catch, bind, js_fetch, bind, emit, js_arrayBuffer.
  simpl. rewrite H. simpl. rewrite Hok. simpl. now rewrite Hbody.
Qed.

(** C5. A remote media reference that cannot be retrieved makes resolution
    fail with an error whose message contains the cause: the transport error
    text on a network failure, the upstream status text on a non-success
    response.  This holds for [fetchFileFromUrl] and for the resolution block
    that every method runs on a URL. *)
Theorem C5_unretrievable_media_reports_cause rt url st cause :
  unretrievable rt url cause ->
  (exists m, (fetchFileFromUrl rt url st).1 = Throw (JsError m) /\ Js.includes m cause) /\
  (forall name,
      exists m, (resolveFile rt name (Some (FileUrl url)) st).1 = Throw (JsError m) /\
                Js.includes m cause).
Proof.
  intros Hc.
  assert (exists m st', fetchFileFromUrl rt url st = (Throw (JsError m), st') /\
                        Js.includes m cause) as (m & st' & Hrun & Hinc).
  { destruct Hc as [msg Hf | response Hf Hok | response msg Hf Hok Hbody].
    - do 2 eexists. split; [apply fetchFileFromUrl_network; eassumption|].
      apply includes_suffix.
    - do 2 eexists. split; [apply fetchFileFromUrl_status; eassumption|].
      rewrite <- string_app_assoc. apply includes_suffix.
    - do 2 eexists. split; [eapply fetchFileFromUrl_aborted; eassumption|].
      apply includes_suffix. }
  split.
  - exists m. now rewrite Hrun.
  - intros name. exists m. split; [|exact Hinc].
    unfold resolveFile. now rewrite (bind_throw _ _ _ _ _ Hrun).
Qed.

Lemma C5_witness :
  unretrievable Demo.rt_down "http://nowhere.invalid/a.png" "ECONNREFUSED" /\
  (exists m,
      (fetchFileFromUrl Demo.rt_down "http://nowhere.invalid/a.png" Demo.st0).1
        = Throw (JsError m) /\
      Js.includes m "ECONNREFUSED").
Proof.
  split.
  - apply transport_failure. reflexivity.
  - apply (C5_unretrievable_media_reports_cause Demo.rt_down
             "http://nowhere.invalid/a.png" Demo.st0 "ECONNREFUSED").
    apply transport_failure. reflexivity.
Defined.

(** ** The prototype of [GeminiService] *)

Section Prototype.

Variable rt : Runtime.

Ltac lookup_proto :=
  unfold geminiService, prototype, GeminiService_body; cbn [fold_left fst snd];
  repeat first [ rewrite lookup_insert_eq; reflexivity
               | rewrite lookup_insert_ne by discriminate
               | apply lookup_empty ].

Lemma proto_generateChatResponse :
  geminiService rt !! "generateChatResponse" = Some (MChat (generateChatResponse_2 rt)).
Proof. lookup_proto. Qed.

Lemma proto_generateImage :
  geminiService rt !! "generateImage" = Some (MImage (generateImage_2 rt)).
Proof. lookup_proto. Qed.

Lemma proto_generateFigurine :
  geminiService rt !! "generateFigurine" = Some (MPreset (generateFigurine rt)).
Proof. lookup_proto. Qed.

Lemma proto_generateHijab :
  geminiService rt !! "generateHijab" = Some (MPreset (generateHijab rt)).
Proof. lookup_proto. Qed.

Lemma proto_generateSdmTinggi :
  geminiService rt !! "generateSdmTinggi" = Some (MPreset (generateSdmTinggi rt)).
Proof. lookup_proto. Qed.

Lemma proto_generateHitam : geminiService rt !! "generateHitam" = None.
Proof. lookup_proto. Qed.

Lemma call_chat_generateChatResponse request :
  call_chat rt "generateChatResponse" request = generateChatResponse_2 rt request.
Proof. unfold call_chat. now rewrite proto_generateChatResponse. Qed.

Lemma call_image_generateImage request :
  call_image rt "generateImage" request = generateImage_2 rt request.
Proof. unfold call_image. now rewrite proto_generateImage. Qed.

Lemma call_preset_generateFigurine request :
  call_preset rt "generateFigurine" request = generateFigurine rt request.
Proof. unfold call_preset. now rewrite proto_generateFigurine. Qed.

Lemma call_preset_generateHijab request :
  call_preset rt "generateHijab" request = generateHijab rt request.
Proof. unfold call_preset. now rewrite proto_generateHijab. Qed.

Lemma call_preset_generateSdmTinggi request :
  call_preset rt "generateSdmTinggi" request = generateSdmTinggi rt request.
Proof. unfold call_preset. now rewrite proto_generateSdmTinggi. Qed.

Lemma call_preset_generateHitam request :
  call_preset rt "generateHitam" request =
  throw (JsTypeError (NotAFunction "geminiService.generateHitam")).
Proof. unfold call_preset. now rewrite proto_generateHitam. Qed.

End Prototype.

Lemma resolveFile_inline rt name f st :
  resolveFile rt name (Some (FileObject f)) st =
  (Ok {| data := toBase64 rt (file_bytes f); mimeType := file_type f |}, st).
Proof. reflexivity. Qed.

Lemma resolveFile_url rt name url st :
  resolveFile rt name (Some (FileUrl url)) st = fetchFileFromUrl rt url st.
Proof.
  unfold resolveFile, bind.
  destruct (fetchFileFromUrl rt url st) as [[m|e] st']; [|reflexivity].
  now destruct m.
Qed.

Lemma fetchFileFromUrl_inv rt url st m st' :
  fetchFileFromUrl rt url st = (Ok m, st') ->
  exists response bytes,
    fetch rt url = Fetched response /\ ok response = true /\
    body response = BodyBytes bytes /\
    m = {| data := toBase64 rt bytes;
           mimeType := Js.or_string (contentType response) "application/octet-stream" |} /\
    st' = with_trace (trace st ++ [EvFetch url]) st.
Proof.
  intros H.
  destruct (fetch rt url) as [msg|response] eqn:Hf.
  - rewrite (fetchFileFromUrl_network _ _ _ _ Hf) in H. discriminate.
  - destruct (ok response) eqn:Hok.
    + destruct (body response) as [bytes|msg] eqn:Hbody.
      * rewrite (fetchFileFromUrl_ok _ _ _ _ _ Hf Hok Hbody) in H.
        injection H as <- <-. now exists response, bytes.
      * rewrite (fetchFileFromUrl_aborted _ _ _ _ _ Hf Hok Hbody) in H. discriminate.
    + rewrite (fetchFileFromUrl_status _ _ _ _ Hf Hok) in H. discriminate.
Qed.

(** C3, as the spec has it, at a [File] whose declared type is the empty
    string: resolution succeeds and the MIME type it yields is empty. *)
Lemma C3_counterexample :
  ~ (forall rt name (f : File) st m st',
        resolveFile rt name (Some (FileObject f)) st = (Ok m, st') ->
        mimeType m <> "").
Proof.
  intros H.
  apply (H Demo.rt "file" {| file_type := ""; file_bytes := [x01] |} Demo.st0
           _ _ eq_refl).
  reflexivity.
Qed.

(** C3, amended.  A remote reference that resolves yields a non-empty MIME
    type, which is [application/octet-stream] when the response carries no
    content-type header (or an empty one); an inline reference always resolves, without touching
    the state, to the bytes re-encoded and the declared type of the upload
    unchanged, so its MIME type is non-empty exactly when the declared type
    is. *)
Theorem C3_resolved_mime_type rt name st :
  (forall url m st',
      resolveFile rt name (Some (FileUrl url)) st = (Ok m, st') ->
      mimeType m <> "" /\
      (forall response,
          fetch rt url = Fetched response ->
          contentType response = None \/ contentType response = Some "" ->
          mimeType m = "application/octet-stream")) /\
  (forall f : File,
      exists m,
        resolveFile rt name (Some (FileObject f)) st = (Ok m, st) /\
        mimeType m = file_type f /\
        (file_type f <> "" -> mimeType m <> "")).
Proof.
  split.
  - intros url m st' H. rewrite resolveFile_url in H.
    apply fetchFileFromUrl_inv in H as (response & bytes & Hf & _ & _ & -> & _).
    simpl. split.
    + now apply or_string_nonempty.
    + intros r Hr Hct. rewrite Hf in Hr. injection Hr as ->.
      now destruct Hct as [-> | ->].
  - intros f. eexists. split; [apply resolveFile_inline|]. simpl. auto.
Qed.

Lemma C3_witness :
  exists m st',
    resolveFile Demo.rt "image" (Some (FileUrl "http://x/y.png")) Demo.st0 = (Ok m, st') /\
    mimeType m <> "" /\ mimeType m = "application/octet-stream".
Proof.
  do 2 eexists. split; [reflexivity|].
  destruct (C3_resolved_mime_type Demo.rt "image" Demo.st0) as [Hremote _].
  destruct (Hremote "http://x/y.png" _ _ eq_refl) as [Hne Hdef].
  split; [exact Hne|].
  exact (Hdef _ eq_refl (or_introl eq_refl)).
Defined.

(** ** The hitam controller *)

(** C1, what the code does: [GeminiService] declares no [generateHitam], so
    the call in either handler of the hitam controller raises a [TypeError]
    that the handler's [catch] turns into the failure object; no media is
    resolved, nothing is sent to the model, and no buffer is ever returned. *)
Theorem C1_hitam_never_reaches_the_model rt st :
  (forall image : option File,
      hitamController_post rt image st =
      (Ok (BodyFailure (typeErrorMessage rt (NotAFunction "geminiService.generateHitam"))),
       st)) /\
  (forall imageUrl : option string,
      hitamController_get rt imageUrl st =
      (Ok (BodyFailure
             (if Js.truthy_opt imageUrl
              then typeErrorMessage rt (NotAFunction "geminiService.generateHitam")
              else "imageUrl parameter is required")),
       st)).
Proof.
  split.
  - intros image. unfold hitamController_post, preset_post, try_catch, bind.
    now rewrite call_preset_generateHitam.
  - intros imageUrl. unfold hitamController_get, preset_get, try_catch, bind.
    destruct (Js.truthy_opt imageUrl); simpl; [|reflexivity].
    now rewrite call_preset_generateHitam.
Qed.

(** ** Missing media *)

Lemma generatePreset_no_image rt PROMPT type failed model st :
  generatePreset rt PROMPT type failed
    {| preset_image := None; preset_model := model |} st =
  (Throw (JsError (failed +:+ typeErrorMessage rt (ReadOfUndefined "image" "arrayBuffer"))),
   st).
Proof. reflexivity. Qed.

(** C4. For each of figurine, hijab, sdmtinggi and hitam, a request without a
    media reference is answered with a failure and leaves the whole state as
    it was, the trace of calls included: nothing is fetched and nothing is
    sent to the model.  On the GET route (image URL absent or empty) the
    handler's own guard answers [imageUrl parameter is required]; a POST
    handler reached without a file fails while resolving it. *)
Theorem C4_missing_media_fails_before_dispatch rt (p : Preset) imageUrl st :
  Js.truthy_opt imageUrl = false ->
  controller_get rt p imageUrl st =
    (Ok (BodyFailure "imageUrl parameter is required"), st) /\
  (exists error, controller_post rt p None st = (Ok (BodyFailure error), st)) /\
  trace (controller_get rt p imageUrl st).2 = trace st /\
  trace (controller_post rt p None st).2 = trace st.
Proof.
  intros Hq.
  assert (controller_get rt p imageUrl st =
          (Ok (BodyFailure "imageUrl parameter is required"), st)) as Hget.
  { destruct p; simpl;
      unfold figurineController_get, hijabController_get, sdmtinggiController_get,
        hitamController_get, preset_get, try_catch;
      now rewrite Hq. }
  assert (exists error, controller_post rt p None st = (Ok (BodyFailure error), st))
    as [error Hpost].
  { destruct p; simpl;
      unfold figurineController_post, hijabController_post, sdmtinggiController_post,
        hitamController_post, preset_post, try_catch, bind; simpl.
    - rewrite call_preset_generateFigurine. unfold generateFigurine.
      rewrite generatePreset_no_image. eauto.
    - rewrite call_preset_generateHijab. unfold generateHijab.
      rewrite generatePreset_no_image. eauto.
    - rewrite call_preset_generateSdmTinggi. unfold generateSdmTinggi.
      rewrite generatePreset_no_image. eauto.
    - rewrite call_preset_generateHitam. simpl. eauto. }
  rewrite Hget, Hpost. eauto.
Qed.

Lemma C4_witness :
  Js.truthy_opt (Some "") = false /\
  controller_get Demo.rt sdmtinggi (Some "") Demo.st0 =
    (Ok (BodyFailure "imageUrl parameter is required"), Demo.st0).
Proof.
  split; [reflexivity|].
  apply (C4_missing_media_fails_before_dispatch Demo.rt sdmtinggi (Some "") Demo.st0).
  reflexivity.
Defined.

(** ** What a computation emits and what it returns *)

Create HintDb pipeline.

Section Emits.

Context {A B : Type}.
Variable P : Event -> Prop.

Lemma emits_events (Q : A -> Prop) (m : M A) st :
  emits P Q m -> Forall P (events_of m st).
Proof.
  intros H. destruct (H st) as [(evs & Ht & Hevs) _].
  unfold events_of. rewrite Ht. now rewrite drop_app_length.
Qed.

Lemma emits_ret (Q : A -> Prop) a : Q a -> emits P Q (ret a).
Proof.
  intros Ha st. split.
  - exists []. simpl. now rewrite app_nil_r.
  - simpl. now intros ? [= <-].
Qed.

Lemma emits_throw (Q : A -> Prop) e : emits P Q (throw e).
Proof.
  intros st. split.
  - exists []. simpl. now rewrite app_nil_r.
  - simpl. discriminate.
Qed.

Lemma emits_bind (Q : A -> Prop) (R : B -> Prop) (m : M A) (k : A -> M B) :
  emits P Q m -> (forall a, Q a -> emits P R (k a)) -> emits P R (bind m k).
Proof.
  intros Hm Hk st. unfold bind.
  destruct (Hm st) as [(evs & Ht & Hevs) Hq].
  destruct (m st) as [[a|e] st1]; simpl in *.
  - destruct (Hk a (Hq a eq_refl) st1) as [(evs' & Ht' & Hevs') Hr].
    split; [|exact Hr].
    exists (evs ++ evs'). rewrite Ht', Ht, app_assoc. split; [reflexivity|].
    now apply Forall_app.
  - split; [eauto|discriminate].
Qed.

Lemma emits_try_catch (Q : A -> Prop) (m : M A) (h : Exn -> M A) :
  emits P Q m -> (forall e, emits P Q (h e)) -> emits P Q (try_catch m h).
Proof.
  intros Hm Hh st. unfold try_catch.
  destruct (Hm st) as [(evs & Ht & Hevs) Hq].
  destruct (m st) as [[a|e] st1]; simpl in *.
  - split; eauto.
  - destruct (Hh e st1) as [(evs' & Ht' & Hevs') Hr].
    split; [|exact Hr].
    exists (evs ++ evs'). rewrite Ht', Ht, app_assoc. split; [reflexivity|].
    now apply Forall_app.
Qed.

Lemma emits_weaken (Q Q' : A -> Prop) (m : M A) :
  emits P Q m -> (forall a, Q a -> Q' a) -> emits P Q' m.
Proof.
  intros Hm Hq st. destruct (Hm st) as [Hev Hres]. split; [exact Hev|].
  intros a Ha. auto.
Qed.

(** A step that leaves the trace alone. *)
Lemma emits_silent (Q : A -> Prop) (m : M A) :
  (forall st, trace (m st).2 = trace st) ->
  (forall st a, (m st).1 = Ok a -> Q a) ->
  emits P Q m.
Proof.
  intros Ht Hq st. split; [|apply Hq].
  exists []. rewrite Ht. now rewrite app_nil_r.
Qed.

End Emits.

Lemma emits_emit P e : P e -> emits P (fun _ : unit => True) (emit e).
Proof.
  intros He st. split; [|trivial].
  exists [e]. simpl. split; [reflexivity|]. now constructor.
Qed.

#[export] Hint Resolve emits_ret emits_throw emits_emit : pipeline.

Section EmitsService.

Variable rt : Runtime.
Variable P : Event -> Prop.

Lemma emits_js_fetch url :
  P (EvFetch url) -> emits P (fun _ => True) (js_fetch rt url).
Proof.
  intros Hp. unfold js_fetch.
  eapply emits_bind; [now apply emits_emit|]. intros _ _.
  destruct (fetch rt url); auto with pipeline.
Qed.

Lemma emits_fetchFileFromUrl url :
  P (EvFetch url) -> emits P (fun _ => True) (fetchFileFromUrl rt url).
Proof.
  intros Hp. unfold fetchFileFromUrl.
  apply emits_try_catch; [|intros e; apply emits_throw].
  eapply emits_bind; [now apply emits_js_fetch|]. intros response _.
  destruct (negb (ok response)); [apply emits_throw|].
  eapply emits_bind with (Q := fun _ => True); [|auto with pipeline].
  unfold js_arrayBuffer. destruct (body response); auto with pipeline.
Qed.

Lemma emits_resolveFile name file :
  (forall url, P (EvFetch url)) -> emits P (fun _ => True) (resolveFile rt name file).
Proof.
  intros Hp. unfold resolveFile.
  destruct file as [[url|f]|]; auto with pipeline.
  eapply emits_bind; [now apply emits_fetchFileFromUrl|]. auto with pipeline.
Qed.

Lemma emits_resolveFile_media name file :
  (forall url, P (EvFetch url)) ->
  emits P (fun media => exists f, file = Some f /\ resolved_media rt f media)
    (resolveFile rt name file).
Proof.
  intros Hp st. split.
  - now apply emits_resolveFile.
  - intros media Hrun. destruct file as [[url|f]|]; [| |discriminate].
    + exists (FileUrl url). split; [reflexivity|].
      rewrite resolveFile_url in Hrun.
      destruct (fetchFileFromUrl rt url st) as [[m|e] st'] eqn:Hfetch; [|discriminate].
      simpl in Hrun. injection Hrun as ->.
      apply fetchFileFromUrl_inv in Hfetch
        as (response & bytes & Hf & Hok & Hbody & -> & _).
      now exists response, bytes.
    + exists (FileObject f). split; [reflexivity|].
      rewrite resolveFile_inline in Hrun. simpl in Hrun. now injection Hrun as <-.
Qed.

Lemma emits_ai_generateContent req :
  P (EvGenerateContent req) -> emits P (fun _ => True) (ai_generateContent rt req).
Proof.
  intros Hp. unfold ai_generateContent.
  eapply emits_bind; [now apply emits_emit|]. intros _ _.
  destruct (generateContent rt req); auto with pipeline.
Qed.

Lemma emits_ai_generateContentStream req :
  P (EvGenerateContentStream req) ->
  emits P (fun _ => True) (ai_generateContentStream rt req).
Proof.
  intros Hp. unfold ai_generateContentStream.
  eapply emits_bind; [now apply emits_emit|]. intros _ _.
  destruct (generateContentStream rt req); auto with pipeline.
Qed.

Lemma emits_saveImageToFile base64Data mimeType :
  (forall path, P (EvWriteFile path)) ->
  emits P (fun _ => True) (saveImageToFile rt base64Data mimeType).
Proof.
  intros Hp. unfold saveImageToFile.
  apply emits_try_catch; [|intros e; apply emits_throw].
  eapply emits_bind with (Q := fun _ => True); [now apply emits_silent|].
  intros timestamp _.
  eapply emits_bind with (Q := fun _ => True); [now apply emits_silent|].
  intros dir _.
  eapply emits_bind with (Q := fun _ => True); [|auto with pipeline].
  unfold writeFileSync.
  eapply emits_bind; [apply emits_emit, Hp|]. intros _ _.
  destruct (writeError rt _); apply emits_silent; try done.
  intros st. now destruct (writeLeaves rt _ _).
Qed.

End EmitsService.

(** ** Assembly of the request sent to the model *)

Lemma text_before_media_one t : text_before_media [TextPart t].
Proof.
  intros i j t' m Hi Hj. destruct j as [|j]; simpl in Hj; [discriminate|].
  now rewrite lookup_nil in Hj.
Qed.

Lemma text_before_media_two t m : text_before_media [TextPart t; InlineDataPart m].
Proof.
  intros i j t' m' Hi Hj.
  destruct j as [|[|j]]; simpl in Hj; [discriminate| |now rewrite lookup_nil in Hj].
  destruct i as [|[|i]]; simpl in Hi; [lia|discriminate|now rewrite lookup_nil in Hi].
Qed.

Lemma chat_contents_ordered rt request ps model config :
  chat_parts_exact rt request ps ->
  chat_ordered rt request
    {| gr_model := model; gr_config := config;
       gr_contents := chat_contents (chat_systemPrompt request) ps |}.
Proof.
  intros Hps. exists {| role := "user"; parts := ps |}. simpl.
  assert (head ps = Some (TextPart (chat_message request)) /\ text_before_media ps /\
          (if_file (chat_file request) = None -> ps = [TextPart (chat_message request)]) /\
          (forall f, if_file (chat_file request) = Some f ->
                     exists media,
                       resolved_media rt f media /\
                       ps = [TextPart (chat_message request); InlineDataPart media]))
    as (Hhead & Horder & Honly & Hmedia).
  { unfold chat_parts_exact in Hps.
    destruct (if_file (chat_file request)) as [f|].
    - destruct Hps as (media & Hres & ->).
      split_and!; [reflexivity|apply text_before_media_two|discriminate|].
      intros f' [= <-]. now exists media.
    - subst ps.
      split_and!; [reflexivity|apply text_before_media_one|reflexivity|discriminate]. }
  unfold chat_contents, system_turn.
  destruct (chat_systemPrompt request) as [sp|]; simpl.
  - destruct (Js.truthy sp) eqn:Hsp; simpl.
    + split_and!; auto.
      * now intros sp' [= <-] _.
      * discriminate.
    + split_and!; auto.
      intros sp' [= <-] Hne. apply truthy_nonempty in Hne. congruence.
  - split_and!; auto. discriminate.
Qed.

Section Assembly.

Variable rt : Runtime.

Lemma emits_chat_parts P request :
  (forall url, P (EvFetch url)) ->
  emits P (chat_parts_shape request)
    (chat_parts rt (chat_message request) (chat_file request)).
Proof.
  intros Hp. unfold chat_parts.
  destruct (if_file (chat_file request)) as [f|] eqn:Hfile.
  - eapply emits_bind; [now apply emits_resolveFile|].
    intros media _. apply emits_ret. right. split; [congruence|]. now exists media.
  - apply emits_ret. now left.
Qed.

Lemma emits_chat_parts_exact P request :
  (forall url, P (EvFetch url)) ->
  emits P (chat_parts_exact rt request)
    (chat_parts rt (chat_message request) (chat_file request)).
Proof.
  intros Hp. unfold chat_parts, chat_parts_exact.
  destruct (if_file (chat_file request)) as [f|] eqn:Hfile.
  - eapply emits_bind; [now apply emits_resolveFile_media|].
    intros media (f' & [= <-] & Hres). apply emits_ret. now exists media.
  - now apply emits_ret.
Qed.

Lemma emits_generateChatResponse_2 request :
  emits (dispatches (chat_ordered rt request)) (fun _ => True)
    (generateChatResponse_2 rt request).
Proof.
  unfold generateChatResponse_2.
  apply emits_try_catch; [|intros e; apply emits_throw].
  eapply emits_bind; [apply emits_chat_parts_exact; now intros url|]. intros ps Hps.
  eapply emits_bind; [|intros; now apply emits_ret].
  apply emits_ai_generateContent. simpl. now apply chat_contents_ordered.
Qed.

Lemma emits_generateChatResponse_1 request :
  emits (dispatches (chat_ordered rt request)) (fun _ => True)
    (generateChatResponse_1 rt request).
Proof.
  unfold generateChatResponse_1.
  apply emits_try_catch; [|intros e; apply emits_throw].
  eapply emits_bind; [apply emits_chat_parts_exact; now intros url|]. intros ps Hps.
  eapply emits_bind; [|intros; now apply emits_ret].
  apply emits_ai_generateContentStream. simpl. now apply chat_contents_ordered.
Qed.

Lemma emits_generatePreset PROMPT type failed request :
  emits (dispatches (preset_ordered rt PROMPT request)) (fun _ => True)
    (generatePreset rt PROMPT type failed request).
Proof.
  unfold generatePreset.
  apply emits_try_catch; [|intros e; apply emits_throw].
  eapply emits_bind; [apply emits_resolveFile_media; now intros url|].
  intros media (f & Hf & Hres).
  eapply emits_bind; [|intros; now apply emits_ret].
  apply emits_ai_generateContent. simpl. unfold preset_contents.
  exists {| role := "user"; parts := [TextPart PROMPT; InlineDataPart media] |}, f, media.
  destruct media as [base64 type']. simpl.
  split_and!; try done. apply text_before_media_two.
Qed.

Lemma emits_image_collect_stream_any P response images textResponse :
  emits P (fun _ => True) (image_collect_stream response images textResponse).
Proof.
  revert images textResponse.
  induction response as [|chunk rest IH]; intros images textResponse; simpl.
  - now apply emits_ret.
  - destruct (chunk_candidates chunk) as [[|first others]|]; [apply emits_throw| |apply IH].
    destruct (cand_content first) as [content|]; [|apply IH].
    destruct (content_parts content) as [ps|]; [|apply IH].
    destruct (ps !! 0%nat ≫= part_inlineData); [apply IH|].
    destruct (chunk_text chunk) as [t|]; [destruct (Js.truthy t)|]; apply IH.
Qed.

Lemma emits_image_collect_file_any P ps images textResponse :
  (forall path, P (EvWriteFile path)) ->
  emits P (fun _ => True) (image_collect_file rt ps images textResponse).
Proof.
  intros Hw. revert images textResponse.
  induction ps as [|part rest IH]; intros images textResponse; simpl.
  - now apply emits_ret.
  - destruct (part_inlineData part) as [i|].
    + eapply emits_bind; [now apply emits_saveImageToFile|]. intros imageUrl _. apply IH.
    + destruct (part_text part) as [t|]; [destruct (Js.truthy t)|]; apply IH.
Qed.

Lemma emits_generateImage_2_ordered request :
  emits (dispatches (image_ordered request)) (fun _ => True) (generateImage_2 rt request).
Proof.
  unfold generateImage_2.
  apply emits_try_catch; [|intros e; apply emits_throw].
  eapply emits_bind; [now apply emits_ai_generateContent|]. intros response _.
  eapply emits_bind with (Q := fun _ => True); [|intros; now apply emits_ret].
  destruct (guarded_parts (resp_candidates response)) as [ps|].
  - apply emits_image_collect_file_any. now intros path.
  - now apply emits_ret.
Qed.

Lemma emits_generateImage_1_ordered request :
  emits (dispatches (image_ordered request)) (fun _ => True) (generateImage_1 rt request).
Proof.
  unfold generateImage_1.
  apply emits_try_catch; [|intros e; apply emits_throw].
  eapply emits_bind; [now apply emits_ai_generateContentStream|]. intros response _.
  eapply emits_bind with (Q := fun _ => True); [|intros; now apply emits_ret].
  apply emits_image_collect_stream_any.
Qed.

End Assembly.

Lemma dispatched_ordered {A} ordered (m : M A) st r :
  emits (dispatches ordered) (fun _ => True) m ->
  EvGenerateContent r ∈ events_of m st \/ EvGenerateContentStream r ∈ events_of m st ->
  ordered r.
Proof.
  intros Hm Hin. apply (emits_events _ _ _ st) in Hm.
  rewrite Forall_forall in Hm.
  destruct Hin as [Hin|Hin]; exact (Hm _ Hin).
Qed.

(** C7. Every request a chat call sends to the model (by either definition
    of [generateChatResponse]) ends with the user turn, whose first part is
    the message and in which text comes strictly before media; a non-empty
    system prompt makes the contents exactly the system turn followed by the
    user turn; with no media supplied the user turn is the text part alone,
    and with media supplied it is the text part followed by that media (the
    upload, or what the URL was fetched as) and nothing else.  Every request
    a preset sends is the single user turn made of the prompt text followed
    by the image of the request, and every request an image generation sends
    is the single user turn made of the prompt text. *)
Theorem C7_turn_and_part_order rt st :
  (forall request r,
      EvGenerateContent r ∈ events_of (generateChatResponse_2 rt request) st \/
      EvGenerateContentStream r ∈ events_of (generateChatResponse_1 rt request) st ->
      chat_ordered rt request r) /\
  (forall PROMPT type failed request r,
      EvGenerateContent r ∈ events_of (generatePreset rt PROMPT type failed request) st ->
      preset_ordered rt PROMPT request r) /\
  (forall request r,
      EvGenerateContent r ∈ events_of (generateImage_2 rt request) st \/
      EvGenerateContentStream r ∈ events_of (generateImage_1 rt request) st ->
      image_ordered request r).
Proof.
  split_and!.
  - intros request r [Hin|Hin].
    + eapply dispatched_ordered; [apply emits_generateChatResponse_2|]. left. exact Hin.
    + eapply dispatched_ordered; [apply emits_generateChatResponse_1|]. right. exact Hin.
  - intros PROMPT type failed request r Hin.
    eapply dispatched_ordered; [apply emits_generatePreset|]. left. exact Hin.
  - intros request r [Hin|Hin].
    + eapply dispatched_ordered; [apply emits_generateImage_2_ordered|]. left. exact Hin.
    + eapply dispatched_ordered; [apply emits_generateImage_1_ordered|]. right. exact Hin.
Qed.

Lemma C7_witness :
  EvGenerateContent Demo.describe_request ∈
    events_of (generateChatResponse_2 Demo.rt Demo.describe) Demo.st0 /\
  chat_ordered Demo.rt Demo.describe Demo.describe_request /\
  if_file (chat_file Demo.describe) = Some (FileObject Demo.upload).
Proof.
  assert (EvGenerateContent Demo.describe_request ∈
          events_of (generateChatResponse_2 Demo.rt Demo.describe) Demo.st0) as Hin.
  { vm_compute. apply list_elem_of_here. }
  split; [exact Hin|]. split; [|reflexivity].
  destruct (C7_turn_and_part_order Demo.rt Demo.st0) as [Hchat _].
  apply Hchat. left. exact Hin.
Defined.

(** The media is part of what is required: the request of [Demo.describe]
    without its upload is not in order. *)
Example media_must_be_sent :
  ~ chat_ordered Demo.rt Demo.describe
      {| gr_model := gr_model Demo.describe_request;
         gr_config := gr_config Demo.describe_request;
         gr_contents :=
           [{| role := "user"; parts := [TextPart "You are a helpful assistant"] |};
            {| role := "user"; parts := [TextPart "what is this?"] |}] |}.
Proof.
  intros (u & Hlast & _ & _ & _ & _ & _ & _ & Hmedia).
  simpl in Hlast. injection Hlast as <-.
  destruct (Hmedia _ eq_refl) as (media & _ & Hparts). discriminate.
Qed.

(** ** Which definition of [generateChatResponse] runs *)

Lemma emits_generateChatResponse_2_result rt P request :
  (forall url, P (EvFetch url)) -> (forall r, P (EvGenerateContent r)) ->
  emits P (chat_result_2 request) (generateChatResponse_2 rt request).
Proof.
  intros Hf Hg. unfold generateChatResponse_2.
  apply emits_try_catch; [|intros e; apply emits_throw].
  eapply emits_bind; [now apply emits_chat_parts|]. intros ps _.
  eapply emits_bind; [apply emits_ai_generateContent, Hg|]. intros response _.
  apply emits_ret. now repeat split.
Qed.

Lemma emits_chatController_handler rt P request :
  (forall url, P (EvFetch url)) -> (forall r, P (EvGenerateContent r)) ->
  emits P (fun body => forall data, body = BodyChat data -> chat_result_2 request data)
    (chatController_handler rt request).
Proof.
  intros Hf Hg. unfold chatController_handler.
  apply emits_try_catch.
  - eapply emits_bind.
    + rewrite call_chat_generateChatResponse.
      now apply emits_generateChatResponse_2_result.
    + intros response Hr. apply emits_ret. now intros data [= <-].
  - intros e.
    eapply emits_bind with (Q := fun _ => True); [now apply emits_silent|].
    intros _ _. apply emits_ret. discriminate.
Qed.

(** C2, what the code does.  The class body declares [generateChatResponse]
    twice and the later, non-streaming declaration is the one on the
    prototype: a chat request never calls [generateContentStream], its result
    carries no [chunks], and its text is [response.text || ''] of the single
    response rather than a concatenation of chunk texts. *)
Theorem C2_chat_runs_the_non_streaming_definition rt request st :
  call_chat rt "generateChatResponse" request = generateChatResponse_2 rt request /\
  (forall r, EvGenerateContentStream r ∉ events_of (chatController_handler rt request) st) /\
  (forall data,
      (chatController_handler rt request st).1 = Ok (BodyChat data) ->
      cr_chunks data = None).
Proof.
  split; [apply call_chat_generateChatResponse|].
  pose proof (emits_chatController_handler rt not_stream request
                (fun _ => I) (fun _ => I)) as H.
  split.
  - intros r Hin. apply (emits_events _ _ _ st) in H.
    rewrite Forall_forall in H. exact (H _ Hin).
  - intros data Hd. destruct (H st) as [_ Hq].
    now destruct (Hq _ Hd data eq_refl).
Qed.

(** The same request under both declarations: the model streams [he], an
    empty chunk, [llo] and answers [hi] in one piece. *)
Example chat_hello_effective :
  (chatController_handler Demo.rt Demo.hello Demo.st0).1 =
  Ok (BodyChat {| cr_text := "hi"; cr_chunks := None; cr_sessionId := Some "user123";
                  cr_usedTools := false; cr_usedThinking := false |}).
Proof. reflexivity. Qed.

Example chat_hello_shadowed :
  (generateChatResponse_1 Demo.rt Demo.hello Demo.st0).1 =
  Ok {| cr_text := "hello"; cr_chunks := Some ["he"; "llo"];
        cr_sessionId := Some "user123";
        cr_usedTools := false; cr_usedThinking := false |}.
Proof. reflexivity. Qed.

(** ** Materialising an image as a file *)

Lemma split_slash_no_slash s : no_slash s = true -> Js.split_slash s = [s].
Proof.
  induction s as [|c s IH]; simpl; [reflexivity|].
  intros [Hc Hs]%andb_true_iff. apply negb_true_iff in Hc. rewrite Hc.
  now rewrite (IH Hs).
Qed.

Lemma split_slash_app a b :
  no_slash a = true -> Js.split_slash (a +:+ "/" +:+ b) = a :: Js.split_slash b.
Proof.
  induction a as [|c a IH]; intros Ha.
  - reflexivity.
  - simpl in Ha. apply andb_true_iff in Ha as [Hc Ha]. apply negb_true_iff in Hc.
    rewrite string_app_cons. simpl. rewrite Hc. now rewrite (IH Ha).
Qed.

Lemma extension_of_subtype ty sub :
  no_slash ty = true -> no_slash sub = true -> sub <> "" ->
  extension_of (ty +:+ "/" +:+ sub) = sub.
Proof.
  intros Hty Hsub Hne. unfold extension_of.
  rewrite (split_slash_app _ _ Hty), (split_slash_no_slash _ Hsub). simpl.
  apply truthy_nonempty in Hne. now rewrite Hne.
Qed.

Lemma extension_of_no_subtype ty :
  no_slash ty = true ->
  extension_of ty = "png" /\ extension_of (ty +:+ "/" +:+ "") = "png".
Proof.
  intros Hty. unfold extension_of. split.
  - now rewrite (split_slash_no_slash _ Hty).
  - now rewrite (split_slash_app _ _ Hty).
Qed.

Lemma pretty_N_char_digit x : is_digit (pretty_N_char x) = true.
Proof. unfold pretty_N_char. repeat case_match; reflexivity. Qed.

Lemma all_digits_app a b : all_digits (a +:+ b) = all_digits a && all_digits b.
Proof.
  induction a as [|c a IH]; [reflexivity|].
  rewrite string_app_cons. simpl. rewrite IH. now rewrite andb_assoc.
Qed.

Lemma pretty_N_go_digits x s :
  exists d, pretty_N_go x s = d +:+ s /\ all_digits d = true.
Proof.
  revert s. induction (N.lt_wf_0 x) as [x _ IH]; intros s.
  assert (x = 0 \/ 0 < x)%N as [->|Hpos] by lia.
  - exists "". now rewrite pretty_N_go_0.
  - rewrite pretty_N_go_step by done.
    destruct (IH (x `div` 10)%N ltac:(now apply N.div_lt)
                (String (pretty_N_char (x `mod` 10)) s)) as (d & -> & Hd).
    exists (d +:+ String (pretty_N_char (x `mod` 10)) ""). split.
    + now rewrite string_app_assoc.
    + rewrite all_digits_app, Hd. simpl. now rewrite pretty_N_char_digit.
Qed.

Lemma pretty_N_digits (n : N) : all_digits (pretty n) = true.
Proof.
  unfold pretty, pretty_N. case_decide; [reflexivity|].
  destruct (pretty_N_go_digits n "") as (d & -> & Hd). now rewrite string_app_nil_r.
Qed.

Lemma digit_not_slash_or_dot c :
  is_digit c = true -> Ascii.eqb c "/"%char = false /\ c <> "."%char.
Proof.
  destruct c as [[] [] [] [] [] [] [] []]; simpl; intros H;
    (discriminate || (split; [reflexivity|discriminate])).
Qed.

Lemma digits_no_slash d : all_digits d = true -> no_slash d = true.
Proof.
  induction d as [|c d IH]; simpl; [reflexivity|].
  intros [Hc Hd]%andb_true_iff.
  destruct (digit_not_slash_or_dot c Hc) as [-> _]. simpl. auto.
Qed.

Lemma no_slash_app a b : no_slash (a +:+ b) = no_slash a && no_slash b.
Proof.
  induction a as [|c a IH]; [reflexivity|].
  rewrite string_app_cons. simpl. rewrite IH. now rewrite andb_assoc.
Qed.

Lemma split_slash_no_slashes s :
  Forall (fun x => no_slash x = true) (Js.split_slash s).
Proof.
  induction s as [|c s IH]; simpl; [now repeat constructor|].
  destruct (Ascii.eqb c "/"%char) eqn:Hc; [now constructor|].
  destruct (Js.split_slash s) as [|h t]; [now repeat constructor; simpl; rewrite Hc|].
  apply Forall_cons in IH as [Hh Ht]. constructor; [|exact Ht].
  simpl. now rewrite Hc, Hh.
Qed.

Lemma extension_of_safe mimeType :
  no_slash (extension_of mimeType) = true /\ extension_of mimeType <> "".
Proof.
  unfold extension_of, Js.or_string.
  destruct (Js.split_slash mimeType !! 1%nat) as [s|] eqn:Hs; [|split; [reflexivity|discriminate]].
  destruct (Js.truthy s) eqn:Ht; [|split; [reflexivity|discriminate]].
  split; [|now apply truthy_nonempty].
  pose proof (split_slash_no_slashes mimeType) as H.
  rewrite Forall_lookup in H. exact (H _ _ Hs).
Qed.

Lemma digits_dot_inj d1 d2 r1 r2 :
  all_digits d1 = true -> all_digits d2 = true ->
  d1 +:+ String "."%char r1 = d2 +:+ String "."%char r2 -> d1 = d2 /\ r1 = r2.
Proof.
  revert d2. induction d1 as [|c1 d1 IH]; intros [|c2 d2] H1 H2 H; simpl in H1, H2.
  - change (String "."%char r1 = String "."%char r2) in H. injection H as ->. auto.
  - apply andb_true_iff in H2 as [Hc _]. rewrite string_app_cons in H.
    change (String "."%char r1 = String c2 (d2 +:+ String "."%char r2)) in H.
    injection H as <- _. now destruct (digit_not_slash_or_dot _ Hc).
  - apply andb_true_iff in H1 as [Hc _]. rewrite string_app_cons in H.
    change (String c1 (d1 +:+ String "."%char r1) = String "."%char r2) in H.
    injection H as -> _. now destruct (digit_not_slash_or_dot _ Hc).
  - apply andb_true_iff in H1 as [_ H1]. apply andb_true_iff in H2 as [_ H2].
    rewrite !string_app_cons in H. injection H as -> Heq.
    destruct (IH d2 H1 H2 Heq) as [-> ->]. auto.
Qed.

Lemma filename_of_inj t1 t2 m1 m2 :
  filename_of t1 m1 = filename_of t2 m2 -> t1 = t2 /\ extension_of m1 = extension_of m2.
Proof.
  unfold filename_of. intros H. apply (inj (String.app "generated_")) in H.
  apply digits_dot_inj in H as [Ht He]; try apply pretty_N_digits.
  split; [now apply (inj pretty)|exact He].
Qed.

(** *** Joining a directory and plain names *)

Lemma split_slash_nonempty s : Js.split_slash s <> [].
Proof.
  destruct s as [|c s]; simpl; [done|].
  destruct (Ascii.eqb c "/"%char); [done|]. now destruct (Js.split_slash s).
Qed.

Lemma split_slash_join a b :
  Js.split_slash (a +:+ "/" +:+ b) = Js.split_slash a ++ Js.split_slash b.
Proof.
  induction a as [|c a IH]; [reflexivity|].
  rewrite string_app_cons. simpl. rewrite IH.
  destruct (Ascii.eqb c "/"%char); [reflexivity|].
  pose proof (split_slash_nonempty a). now destruct (Js.split_slash a).
Qed.

Lemma string_app_nil_inv (a b : string) : a +:+ b = "" -> a = "" /\ b = "".
Proof.
  destruct a as [|c a]; [intros H; exact (conj eq_refl H)|].
  rewrite string_app_cons. discriminate.
Qed.

Lemma ends_with_slash_cons c s :
  s <> "" -> Path.ends_with_slash (String c s) = Path.ends_with_slash s.
Proof. now destruct s. Qed.

Lemma ends_with_slash_app a b :
  b <> "" -> Path.ends_with_slash (a +:+ b) = Path.ends_with_slash b.
Proof.
  intros Hb. induction a as [|c a IH]; [reflexivity|].
  rewrite string_app_cons, ends_with_slash_cons; [exact IH|].
  intros H. now apply string_app_nil_inv in H as [_ H].
Qed.

Lemma no_slash_ends s : no_slash s = true -> Path.ends_with_slash s = false.
Proof.
  induction s as [|c s IH]; [reflexivity|]. simpl.
  intros [Hc Hs]%andb_true_iff. apply negb_true_iff in Hc.
  destruct s; [exact Hc|]. now apply IH.
Qed.

Lemma no_slash_starts s : no_slash s = true -> Path.starts_with_slash s = false.
Proof.
  destruct s as [|c s]; [reflexivity|]. simpl.
  intros [Hc _]%andb_true_iff. now apply negb_true_iff in Hc.
Qed.

Lemma starts_with_slash_app a b :
  a <> "" -> Path.starts_with_slash (a +:+ b) = Path.starts_with_slash a.
Proof. now destruct a. Qed.

Lemma plain_no_slash seg : plain seg -> no_slash seg = true.
Proof. now intros [H _]. Qed.

Lemma plain_nonempty seg : plain seg -> seg <> "".
Proof. now intros (_ & H & _). Qed.

Lemma push_segment_plain allowAboveRoot kept seg :
  plain seg -> Path.push_segment allowAboveRoot kept seg = seg :: kept.
Proof.
  intros (_ & H1 & H2 & H3). unfold Path.push_segment.
  rewrite decide_False by (now intros [|]). now rewrite decide_False.
Qed.

Lemma fold_push_plain allowAboveRoot segs kept :
  Forall plain segs ->
  fold_left (Path.push_segment allowAboveRoot) segs kept = rev segs ++ kept.
Proof.
  intros H. revert kept. induction H as [|seg segs Hseg _ IH]; intros kept; [reflexivity|].
  simpl. rewrite (push_segment_plain _ _ _ Hseg), IH. now rewrite <- app_assoc.
Qed.

Lemma join_slash_cons seg segs :
  segs <> [] -> Path.join_slash (seg :: segs) = seg +:+ "/" +:+ Path.join_slash segs.
Proof. now destruct segs. Qed.

Lemma join_slash_app front back :
  front <> [] -> back <> [] ->
  Path.join_slash (front ++ back) =
  Path.join_slash front +:+ "/" +:+ Path.join_slash back.
Proof.
  intros Hf Hb. induction front as [|seg front IH]; [done|].
  destruct front as [|seg' front].
  - simpl app. now rewrite join_slash_cons.
  - rewrite <- app_comm_cons, !join_slash_cons by done.
    rewrite IH by done. now rewrite !string_app_assoc.
Qed.

Lemma join_slash_plain segs :
  segs <> [] -> Forall plain segs ->
  Path.join_slash segs <> "" /\
  Path.starts_with_slash (Path.join_slash segs) = false /\
  Path.ends_with_slash (Path.join_slash segs) = false /\
  Js.split_slash (Path.join_slash segs) = segs.
Proof.
  intros Hne H. induction H as [|seg segs Hseg Hsegs IH]; [done|].
  pose proof (plain_no_slash _ Hseg) as Hns.
  pose proof (plain_nonempty _ Hseg) as Hnn.
  destruct segs as [|seg' segs].
  - simpl. split_and!; [done|now apply no_slash_starts|now apply no_slash_ends|].
    now apply split_slash_no_slash.
  - destruct IH as (Hj & _ & He & Hs); [done|].
    rewrite join_slash_cons by done. split_and!.
    + intros H. now apply string_app_nil_inv in H as [H _].
    + rewrite starts_with_slash_app by done. now apply no_slash_starts.
    + rewrite <- string_app_assoc, ends_with_slash_app by done. exact He.
    + rewrite split_slash_join, Hs. now rewrite split_slash_no_slash.
Qed.

Lemma filter_nonempty_plain (segs : list string) :
  Forall plain segs -> filter (fun arg => arg <> "") segs = segs.
Proof.
  intros H. induction H as [|seg segs Hseg _ IH]; [reflexivity|].
  rewrite filter_cons_True by (now apply plain_nonempty). now rewrite IH.
Qed.

Lemma join_of_nonempty args :
  filter (fun arg => arg <> "") args <> [] ->
  Path.join args = Path.normalize (Path.join_slash (filter (fun arg => arg <> "") args)).
Proof. unfold Path.join. now destruct (filter _ args). Qed.

(** [path.join(dir, name1, ..., namek)] for plain names: the names follow
    the segments of [dir] that normalisation keeps. *)
Lemma join_plain_names dir names :
  names <> [] -> Forall plain names ->
  Path.join (dir :: names) =
  (if Path.starts_with_slash dir then "/" else "") +:+
  Path.join_slash (Path.segments dir (negb (Path.starts_with_slash dir)) ++ names).
Proof.
  intros Hne Hnames.
  destruct (join_slash_plain names Hne Hnames) as (Hj & Hst & Hen & Hsp).
  assert (forall front, Path.join_slash (front ++ names) <> "") as Hfront.
  { intros front H. destruct front as [|seg front]; [now apply Hj|].
    rewrite join_slash_app in H by done.
    apply string_app_nil_inv in H as [_ H]. discriminate. }
  destruct (decide (dir = "")) as [->|Hdir].
  - rewrite join_of_nonempty; rewrite filter_cons_False by (intros H; now apply H);
      rewrite (filter_nonempty_plain _ Hnames); [|done].
    unfold Path.normalize. rewrite decide_False by done.
    rewrite Hst, Hen. cbn [negb].
    unfold Path.normalizeString, Path.segments. rewrite Hsp.
    rewrite (fold_push_plain _ _ _ Hnames), app_nil_r, rev_involutive.
    now rewrite decide_False.
  - rewrite join_of_nonempty; rewrite filter_cons_True by done;
      rewrite (filter_nonempty_plain _ Hnames); [|done].
    rewrite join_slash_cons by done.
    unfold Path.normalize.
    rewrite decide_False
      by (intros H; now apply string_app_nil_inv in H as [H _]).
    rewrite starts_with_slash_app by done.
    rewrite <- string_app_assoc, ends_with_slash_app, Hen by done.
    rewrite string_app_assoc.
    unfold Path.normalizeString, Path.segments.
    rewrite split_slash_join, Hsp, fold_left_app.
    rewrite (fold_push_plain _ _ _ Hnames), rev_app_distr, rev_involutive.
    rewrite decide_False by apply Hfront.
    now destruct (Path.starts_with_slash dir).
Qed.

Lemma push_segment_keeps (Q : string -> Prop) allowAboveRoot kept seg :
  Forall Q kept -> Q seg -> Forall Q (Path.push_segment allowAboveRoot kept seg).
Proof.
  intros Hk Hs. unfold Path.push_segment.
  case_decide; [exact Hk|]. case_decide; [|now constructor].
  destruct kept as [|latest earlier].
  - destruct allowAboveRoot; now repeat constructor.
  - case_decide.
    + destruct allowAboveRoot; [now constructor|exact Hk].
    + now apply Forall_cons in Hk as [_ Hk].
Qed.

Lemma segments_keep (Q : string -> Prop) path allowAboveRoot :
  Forall Q (Js.split_slash path) -> Forall Q (Path.segments path allowAboveRoot).
Proof.
  intros H. unfold Path.segments. apply Forall_rev.
  assert (Forall Q (@nil string)) as Hk by constructor.
  revert Hk. generalize (@nil string).
  induction H as [|seg segs Hseg _ IH]; intros kept Hk; [exact Hk|].
  simpl. apply IH. now apply push_segment_keeps.
Qed.

Lemma split_slash_join_slash segs :
  segs <> [] -> Forall (fun seg => no_slash seg = true) segs ->
  Js.split_slash (Path.join_slash segs) = segs.
Proof.
  intros Hne H. induction H as [|seg segs Hseg _ IH]; [done|].
  destruct segs as [|seg' segs]; [now apply split_slash_no_slash|].
  rewrite join_slash_cons, split_slash_join, IH by done.
  now rewrite split_slash_no_slash.
Qed.

Lemma segments_of_clean segs :
  Forall plain segs ->
  Path.segments ("/" +:+ Path.join_slash segs) false = segs.
Proof.
  intros H. destruct segs as [|seg segs]; [reflexivity|].
  destruct (join_slash_plain (seg :: segs)) as (_ & _ & _ & Hs); [done|exact H|].
  unfold Path.segments. change ("/" +:+ ?x) with (String "/"%char x).
  cbn [Js.split_slash Ascii.eqb Bool.eqb]. rewrite Hs.
  cbn [fold_left]. rewrite push_segment_plain by (now apply Forall_cons in H as [H _]).
  apply Forall_cons in H as [_ H].
  rewrite (fold_push_plain _ _ _ H).
  rewrite rev_app_distr. simpl. now rewrite rev_involutive.
Qed.

(** Under a directory in normal form, [/seg1/.../segn], the names are
    appended as they are. *)
Lemma join_clean_names segs names :
  names <> [] -> Forall plain segs -> Forall plain names ->
  Path.join (("/" +:+ Path.join_slash segs) :: names) =
  "/" +:+ Path.join_slash (segs ++ names).
Proof.
  intros Hne Hsegs Hnames. rewrite join_plain_names by done.
  change (Path.starts_with_slash ("/" +:+ Path.join_slash segs)) with true.
  cbn [negb]. now rewrite segments_of_clean.
Qed.

Lemma filename_plain t mimeType : plain (filename_of t mimeType).
Proof.
  destruct (extension_of_safe mimeType) as [Hs Hne].
  split_and!.
  - unfold filename_of.
    rewrite !no_slash_app, Hs, (digits_no_slash _ (pretty_N_digits t)). reflexivity.
  - unfold filename_of. rewrite string_app_cons. discriminate.
  - unfold filename_of. rewrite string_app_cons. discriminate.
  - unfold filename_of. rewrite string_app_cons. discriminate.
Qed.

(** The path of a saved file: what [path.join] keeps of the directory, then
    the file name. *)
Lemma path_join_plain dir name :
  plain name ->
  path_join dir name =
  (if Path.starts_with_slash dir then "/" else "") +:+
  Path.join_slash (Path.segments dir (negb (Path.starts_with_slash dir)) ++ [name]).
Proof. intros H. apply join_plain_names; [done|now constructor]. Qed.

Lemma path_join_base dir :
  exists base, forall name, plain name -> path_join dir name = base +:+ name.
Proof.
  destruct (Path.segments dir (negb (Path.starts_with_slash dir))) as [|seg segs] eqn:Hsegs.
  - exists (if Path.starts_with_slash dir then "/" else ""). intros name H.
    now rewrite path_join_plain, Hsegs.
  - exists ((if Path.starts_with_slash dir then "/" else "") +:+
            Path.join_slash (seg :: segs) +:+ "/").
    intros name H. rewrite path_join_plain, Hsegs by done.
    rewrite join_slash_app by done. simpl Path.join_slash at 2.
    now rewrite !string_app_assoc.
Qed.

Lemma path_join_last dir name :
  plain name -> last (Js.split_slash (path_join dir name)) = Some name.
Proof.
  intros H. rewrite path_join_plain by done.
  assert (Forall (fun seg => no_slash seg = true)
            (Path.segments dir (negb (Path.starts_with_slash dir)) ++ [name])) as Hall.
  { apply Forall_app. split.
    - apply segments_keep, split_slash_no_slashes.
    - constructor; [now apply plain_no_slash|constructor]. }
  assert (Path.segments dir (negb (Path.starts_with_slash dir)) ++ [name] <> [])
    as Hne by (now destruct (Path.segments _ _)).
  destruct (Path.starts_with_slash dir).
  - change ("/" +:+ ?x) with (String "/"%char x).
    cbn [Js.split_slash Ascii.eqb Bool.eqb].
    rewrite split_slash_join_slash by done.
    rewrite app_comm_cons. apply last_snoc.
  - change ("" +:+ ?x) with x.
    rewrite split_slash_join_slash by done. apply last_snoc.
Qed.

Lemma path_join_clean segs name :
  Forall plain segs -> plain name ->
  path_join ("/" +:+ Path.join_slash segs) name =
  "/" +:+ Path.join_slash (segs ++ [name]).
Proof. intros Hs Hn. apply join_clean_names; [done|exact Hs|now constructor]. Qed.

Lemma path_join_clean_child segs name :
  segs <> [] -> Forall plain segs -> plain name ->
  path_join ("/" +:+ Path.join_slash segs) name =
  ("/" +:+ Path.join_slash segs) +:+ "/" +:+ name.
Proof.
  intros Hne Hs Hn. rewrite path_join_clean, join_slash_app by done.
  simpl Path.join_slash at 2. now rewrite !string_app_assoc.
Qed.

Lemma plain_public_images : Forall plain ["public"; "images"].
Proof. repeat constructor; discriminate. Qed.

Lemma constructor_imagesDir rt st :
  imagesDir (GeminiService_constructor rt st).2 = Path.join [cwd rt; "public"; "images"].
Proof.
  unfold GeminiService_constructor, bind, mkdirSync_recursive. simpl.
  destruct (existsSync _ _); simpl; [reflexivity|].
  now destruct (mkdirError rt _).
Qed.

Lemma saveImageToFile_run rt base64Data mimeType st :
  let filename := filename_of (clock rt (ticks st)) mimeType in
  let filepath := path_join (imagesDir st) filename in
  writeError rt filepath = None ->
  saveImageToFile rt base64Data mimeType st =
  (Ok ("/images/" +:+ filename),
   with_files (<[filepath := fromBase64 rt base64Data]> (files st))
     (with_trace (trace st ++ [EvWriteFile filepath])
        (with_ticks (S (ticks st)) st))).
Proof.
  intros filename filepath Hw.
  unfold saveImageToFile, try_catch, bind, date_now, writeFileSync, bind, emit.
  simpl. fold (filename_of (clock rt (ticks st)) mimeType). fold filename.
  fold filepath. now rewrite Hw.
Qed.

(** C8. Saving an image under the file policy writes the decoded bytes to
    [path.join(imagesDir, filename)] with
    [filename = generated_<timestamp>.<ext>], where [timestamp] is the clock
    reading in decimal and [ext] is the subtype of the MIME type ([jpeg] for
    [image/jpeg]) or [png] when there is no subtype or it is empty; the value
    returned is [/images/<filename>] and the call leaves [imagesDir] as it
    is.  The last segment of the path written is the file name, whatever the
    directory; under a directory in normal form [/seg1/.../segn] the path is
    [<imagesDir>/<filename>].  [imagesDir] is what the constructor fixes,
    [path.join(cwd, 'public', 'images')]: for a working directory in normal
    form that is [<cwd>/public/images], and [/public/images] for the root. *)
Theorem C8_file_policy_names_and_writes rt base64Data mimeType st :
  let timestamp := clock rt (ticks st) in
  let filename := "generated_" +:+ pretty timestamp +:+ "." +:+ extension_of mimeType in
  let filepath := path_join (imagesDir st) filename in
  let run := saveImageToFile rt base64Data mimeType st in
  writeError rt filepath = None ->
  (run.1 = Ok ("/images/" +:+ filename) /\
   files run.2 = <[filepath := fromBase64 rt base64Data]> (files st) /\
   events_of (saveImageToFile rt base64Data mimeType) st = [EvWriteFile filepath] /\
   imagesDir run.2 = imagesDir st) /\
  (last (Js.split_slash filepath) = Some filename /\
   (forall segs, Forall plain segs -> imagesDir st = "/" +:+ Path.join_slash segs ->
                 filepath = "/" +:+ Path.join_slash (segs ++ [filename])) /\
   (forall segs, segs <> [] -> Forall plain segs ->
                 imagesDir st = "/" +:+ Path.join_slash segs ->
                 filepath = imagesDir st +:+ "/" +:+ filename)) /\
  (imagesDir (GeminiService_constructor rt st).2 = Path.join [cwd rt; "public"; "images"] /\
   (forall segs, Forall plain segs -> cwd rt = "/" +:+ Path.join_slash segs ->
                 Path.join [cwd rt; "public"; "images"] =
                 "/" +:+ Path.join_slash (segs ++ ["public"; "images"])) /\
   (forall segs, segs <> [] -> Forall plain segs -> cwd rt = "/" +:+ Path.join_slash segs ->
                 Path.join [cwd rt; "public"; "images"] = cwd rt +:+ "/public/images") /\
   (cwd rt = "/" -> Path.join [cwd rt; "public"; "images"] = "/public/images")) /\
  extension_of "image/jpeg" = "jpeg" /\
  (forall ty sub, no_slash ty = true -> no_slash sub = true -> sub <> "" ->
                  extension_of (ty +:+ "/" +:+ sub) = sub) /\
  (forall ty, no_slash ty = true ->
              extension_of ty = "png" /\ extension_of (ty +:+ "/" +:+ "") = "png").
Proof.
  intros timestamp filename filepath run Hw.
  pose proof (filename_plain timestamp mimeType) as Hplain.
  fold filename in Hplain.
  split_and!.
  - subst run. now rewrite (saveImageToFile_run rt base64Data mimeType st Hw).
  - subst run. now rewrite (saveImageToFile_run rt base64Data mimeType st Hw).
  - unfold events_of. rewrite (saveImageToFile_run rt base64Data mimeType st Hw).
    simpl. now rewrite drop_app_length.
  - subst run. now rewrite (saveImageToFile_run rt base64Data mimeType st Hw).
  - now apply path_join_last.
  - intros segs Hsegs Hdir. subst filepath. rewrite Hdir. now apply path_join_clean.
  - intros segs Hne Hsegs Hdir. subst filepath. rewrite Hdir.
    now apply path_join_clean_child.
  - apply constructor_imagesDir.
  - intros segs Hsegs ->. apply join_clean_names; [done|exact Hsegs|].
    apply plain_public_images.
  - intros segs Hne Hsegs ->.
    rewrite join_clean_names; [|done|exact Hsegs|apply plain_public_images].
    rewrite join_slash_app by done. now rewrite !string_app_assoc.
  - intros ->. reflexivity.
  - reflexivity.
  - apply extension_of_subtype.
  - apply extension_of_no_subtype.
Qed.

Lemma C8_witness :
  writeError Demo.rt
    (path_join (imagesDir Demo.st0) "generated_1700000000000.jpeg") = None /\
  (saveImageToFile Demo.rt "AAAA" "image/jpeg" Demo.st0).1 =
    Ok "/images/generated_1700000000000.jpeg" /\
  files (saveImageToFile Demo.rt "AAAA" "image/jpeg" Demo.st0).2
    !! "/srv/public/images/generated_1700000000000.jpeg" = Some (Demo.decode "AAAA") /\
  Forall plain ["srv"; "public"; "images"] /\
  path_join (imagesDir Demo.st0) "generated_1700000000000.jpeg" =
    imagesDir Demo.st0 +:+ "/" +:+ "generated_1700000000000.jpeg".
Proof.
  split; [reflexivity|].
  destruct (C8_file_policy_names_and_writes Demo.rt "AAAA" "image/jpeg" Demo.st0 eq_refl)
    as ((Hret & Hfiles & _) & (_ & _ & Hchild) & _).
  assert (Forall plain ["srv"; "public"; "images"]) as Hplain
    by (repeat constructor; discriminate).
  split; [exact Hret|]. split; [|split; [exact Hplain|]].
  - rewrite Hfiles.
    assert (path_join (imagesDir Demo.st0)
              ("generated_" +:+ pretty (clock Demo.rt (ticks Demo.st0)) +:+ "." +:+
               extension_of "image/jpeg") =
            "/srv/public/images/generated_1700000000000.jpeg") as ->
      by (vm_compute; reflexivity).
    apply lookup_insert_eq.
  - exact (Hchild ["srv"; "public"; "images"] ltac:(discriminate) Hplain eq_refl).
Defined.

(** ** The session registry is dead surface *)

Lemma with_sessions_same st : with_sessions (sessions st) st = st.
Proof. now destruct st. Qed.

Lemma sessions_frame_unchanged {A} (m : M A) st :
  sessions_frame m -> sessions (m st).2 = sessions st.
Proof.
  intros H. specialize (H st (sessions st)). rewrite with_sessions_same in H.
  now rewrite H.
Qed.

Section Frame.

Context {A B : Type}.

Lemma frame_ret (a : A) : sessions_frame (ret a).
Proof. now intros st s. Qed.

Lemma frame_throw e : sessions_frame (@throw A e).
Proof. now intros st s. Qed.

Lemma frame_bind (m : M A) (k : A -> M B) :
  sessions_frame m -> (forall a, sessions_frame (k a)) -> sessions_frame (bind m k).
Proof.
  intros Hm Hk st s. unfold bind. rewrite Hm.
  destruct (m st) as [[a|e] st1]; simpl; [apply Hk|reflexivity].
Qed.

Lemma frame_try_catch (m : M A) (h : Exn -> M A) :
  sessions_frame m -> (forall e, sessions_frame (h e)) ->
  sessions_frame (try_catch m h).
Proof.
  intros Hm Hh st s. unfold try_catch. rewrite Hm.
  destruct (m st) as [[a|e] st1]; simpl; [reflexivity|apply Hh].
Qed.

End Frame.

Lemma frame_emit e : sessions_frame (emit e).
Proof. now intros st s. Qed.

#[export] Hint Resolve frame_ret frame_throw frame_emit : pipeline.

(** Framing straight-line code: sequences, [try]/[catch], branches on data,
    and steps already known to be framed. *)
Ltac frame :=
  repeat first
    [ solve [auto with pipeline]
    | apply frame_try_catch; [|intros ?]
    | apply frame_bind; [|intros ?]
    | match goal with
      | |- sessions_frame (match ?x with _ => _ end) => destruct x
      end
    | progress cbv zeta
    | solve [intros ? ?; reflexivity] ].

Section FrameService.

Variable rt : Runtime.

Lemma frame_js_fetch url : sessions_frame (js_fetch rt url).
Proof. unfold js_fetch. frame. Qed.
Hint Resolve frame_js_fetch : pipeline.

Lemma frame_js_arrayBuffer response : sessions_frame (js_arrayBuffer response).
Proof. unfold js_arrayBuffer. frame. Qed.
Hint Resolve frame_js_arrayBuffer : pipeline.

Lemma frame_fetchFileFromUrl url : sessions_frame (fetchFileFromUrl rt url).
Proof. unfold fetchFileFromUrl. frame. Qed.
Hint Resolve frame_fetchFileFromUrl : pipeline.

Lemma frame_resolveFile name file : sessions_frame (resolveFile rt name file).
Proof. unfold resolveFile. frame. Qed.
Hint Resolve frame_resolveFile : pipeline.

Lemma frame_ai_generateContent req : sessions_frame (ai_generateContent rt req).
Proof. unfold ai_generateContent. frame. Qed.
Hint Resolve frame_ai_generateContent : pipeline.

Lemma frame_ai_generateContentStream req :
  sessions_frame (ai_generateContentStream rt req).
Proof. unfold ai_generateContentStream. frame. Qed.
Hint Resolve frame_ai_generateContentStream : pipeline.

Lemma frame_chat_parts message file : sessions_frame (chat_parts rt message file).
Proof. unfold chat_parts. frame. Qed.
Hint Resolve frame_chat_parts : pipeline.

Lemma frame_generateChatResponse_1 request :
  sessions_frame (generateChatResponse_1 rt request).
Proof. unfold generateChatResponse_1. frame. Qed.

Lemma frame_generateChatResponse_2 request :
  sessions_frame (generateChatResponse_2 rt request).
Proof. unfold generateChatResponse_2. frame. Qed.

Lemma frame_date_now : sessions_frame (date_now rt).
Proof. now intros st s. Qed.

Lemma frame_writeFileSync path buffer : sessions_frame (writeFileSync rt path buffer).
Proof.
  unfold writeFileSync. apply frame_bind; [apply frame_emit|]. intros _.
  destruct (writeError rt path); [|now intros st0 s0].
  intros st0 s0. now destruct (writeLeaves rt path buffer).
Qed.
Hint Resolve frame_date_now frame_writeFileSync : pipeline.

Lemma frame_saveImageToFile base64Data mimeType :
  sessions_frame (saveImageToFile rt base64Data mimeType).
Proof. unfold saveImageToFile. frame. Qed.
Hint Resolve frame_saveImageToFile : pipeline.

Lemma frame_image_collect_stream response images textResponse :
  sessions_frame (image_collect_stream response images textResponse).
Proof.
  revert images textResponse.
  induction response as [|chunk rest IH]; intros images textResponse; simpl.
  - apply frame_ret.
  - frame.
Qed.

Lemma frame_image_collect_file parts images textResponse :
  sessions_frame (image_collect_file rt parts images textResponse).
Proof.
  revert images textResponse.
  induction parts as [|part rest IH]; intros images textResponse; simpl.
  - apply frame_ret.
  - frame.
Qed.
Hint Resolve frame_image_collect_stream frame_image_collect_file : pipeline.

Lemma frame_generateImage_1 request : sessions_frame (generateImage_1 rt request).
Proof. unfold generateImage_1. frame. Qed.

Lemma frame_generateImage_2 request : sessions_frame (generateImage_2 rt request).
Proof. unfold generateImage_2. frame. Qed.

Lemma frame_generatePreset PROMPT type failed request :
  sessions_frame (generatePreset rt PROMPT type failed request).
Proof. unfold generatePreset. frame. Qed.

Lemma frame_prototype : map_Forall (fun _ => method_frame) (geminiService rt).
Proof.
  unfold geminiService, prototype, GeminiService_body. cbn [fold_left fst snd].
  repeat (apply map_Forall_insert_2; [simpl|]).
  - apply frame_generatePreset.
  - apply frame_generatePreset.
  - apply frame_generatePreset.
  - apply frame_generateImage_2.
  - apply frame_generateChatResponse_2.
  - apply frame_generateImage_1.
  - apply frame_saveImageToFile.
  - apply frame_generateChatResponse_1.
  - apply frame_fetchFileFromUrl.
  - apply map_Forall_empty.
Qed.

Lemma frame_call_chat name request : sessions_frame (call_chat rt name request).
Proof.
  unfold call_chat. destruct (geminiService rt !! name) as [m|] eqn:Hm.
  - apply frame_prototype in Hm. destruct m; simpl in Hm; auto with pipeline.
  - apply frame_throw.
Qed.

Lemma frame_call_image name request : sessions_frame (call_image rt name request).
Proof.
  unfold call_image. destruct (geminiService rt !! name) as [m|] eqn:Hm.
  - apply frame_prototype in Hm. destruct m; simpl in Hm; auto with pipeline.
  - apply frame_throw.
Qed.

Lemma frame_call_preset name request : sessions_frame (call_preset rt name request).
Proof.
  unfold call_preset. destruct (geminiService rt !! name) as [m|] eqn:Hm.
  - apply frame_prototype in Hm. destruct m; simpl in Hm; auto with pipeline.
  - apply frame_throw.
Qed.
Hint Resolve frame_call_chat frame_call_image frame_call_preset : pipeline.

Lemma frame_first_image_or_failure filename result :
  sessions_frame (first_image_or_failure filename result).
Proof. unfold first_image_or_failure. frame. Qed.
Hint Resolve frame_first_image_or_failure : pipeline.

Lemma frame_preset_post method filename image :
  sessions_frame (preset_post rt method filename image).
Proof. unfold preset_post. frame. Qed.

Lemma frame_preset_get method filename imageUrl :
  sessions_frame (preset_get rt method filename imageUrl).
Proof. unfold preset_get. frame. Qed.

Lemma frame_imageController_generate request :
  sessions_frame (imageController_generate rt request).
Proof. unfold imageController_generate. frame. Qed.

Lemma frame_imageController_generate_buffer request :
  sessions_frame (imageController_generate_buffer rt request).
Proof. unfold imageController_generate_buffer. frame. Qed.

Lemma frame_chatController_handler request :
  sessions_frame (chatController_handler rt request).
Proof. unfold chatController_handler. frame. Qed.

End FrameService.

Lemma frame_handle rt i : sessions_frame (handle rt i).
Proof.
  destruct i as [request|request|request|p image|p imageUrl]; simpl.
  - apply frame_chatController_handler.
  - apply frame_imageController_generate.
  - apply frame_imageController_generate_buffer.
  - unfold controller_post, figurineController_post, hijabController_post,
      sdmtinggiController_post, hitamController_post.
    destruct p; apply frame_preset_post.
  - unfold controller_get, figurineController_get, hijabController_get,
      sdmtinggiController_get, hitamController_get.
    destruct p; apply frame_preset_get.
Qed.

(** C9. The session identifier of a chat request is passed through to the
    response as [sessionId || null]: the identifier itself when it is a
    non-empty string, [null] when it is absent (or empty, which JavaScript
    takes for absent).  No request of any kind reads or writes the session
    registry: handled from a state holding any registry [s], it gives the same
    answer and the same final state, with [s] still in place; in particular
    the registry after handling is the registry before. *)
Theorem C9_session_id_is_a_pass_through rt st :
  (forall request data,
      (chatController_handler rt request st).1 = Ok (BodyChat data) ->
      cr_sessionId data = Js.or_null (chat_sessionId request) /\
      (chat_sessionId request = None -> cr_sessionId data = None) /\
      (forall sid, chat_sessionId request = Some sid -> sid <> "" ->
                   cr_sessionId data = chat_sessionId request)) /\
  (forall i, sessions (handle rt i st).2 = sessions st) /\
  (forall i s,
      handle rt i (with_sessions s st) =
      ((handle rt i st).1, with_sessions s (handle rt i st).2)).
Proof.
  split_and!.
  - intros request data Hd.
    destruct (emits_chatController_handler rt (fun _ => True) request
                (fun _ => I) (fun _ => I) st) as [_ Hq].
    destruct (Hq _ Hd data eq_refl) as (_ & Hsid & _).
    rewrite Hsid. split_and!; [reflexivity| |].
    + now intros ->.
    + intros sid -> Hne. simpl. apply truthy_nonempty in Hne. now rewrite Hne.
  - intros i. apply sessions_frame_unchanged, frame_handle.
  - intros i s. apply frame_handle.
Qed.

Lemma C9_witness :
  (chatController_handler Demo.rt Demo.hello Demo.st0).1 =
    Ok (BodyChat Demo.hello_answer) /\
  cr_sessionId Demo.hello_answer = chat_sessionId Demo.hello /\
  sessions (handle Demo.rt (InChat Demo.hello) Demo.st0).2 = sessions Demo.st0.
Proof.
  assert ((chatController_handler Demo.rt Demo.hello Demo.st0).1 =
          Ok (BodyChat Demo.hello_answer)) as Hrun by (vm_compute; reflexivity).
  destruct (C9_session_id_is_a_pass_through Demo.rt Demo.st0) as (Hsid & Hsame & _).
  split; [exact Hrun|]. split.
  - destruct (Hsid Demo.hello Demo.hello_answer Hrun) as (_ & _ & Hsome).
    apply (Hsome "user123"); [reflexivity|discriminate].
  - exact (Hsame (InChat Demo.hello)).
Defined.

(** ** Aggregation of a non-streaming response *)

Lemma preset_collect_images rt ps images textResponse :
  (preset_collect rt ps images textResponse).1 =
  images ++ (buffer_image rt <$> omap part_inlineData ps).
Proof.
  revert images textResponse.
  induction ps as [|part rest IH]; intros images textResponse; simpl.
  - now rewrite app_nil_r.
  - destruct (part_inlineData part) as [i|]; simpl.
    + rewrite IH. now rewrite <- app_assoc.
    + destruct (part_text part) as [t|]; [destruct (Js.truthy t)|]; apply IH.
Qed.

Lemma generatePreset_run rt PROMPT type failed image st media st1 response :
  resolveFile rt "image" image st = (Ok media, st1) ->
  generateContent rt (preset_request PROMPT media) = ModelResult response ->
  generatePreset rt PROMPT type failed
    {| preset_image := image; preset_model := None |} st =
  (Ok {| images := preset_images rt response;
         ir_text := preset_text rt response;
         totalImages := length (preset_images rt response);
         ir_type := Some type |},
   with_trace (trace st1 ++ [EvGenerateContent (preset_request PROMPT media)]) st1).
Proof.
  intros Hres Hgen.
  unfold generatePreset, try_catch, bind. simpl. rewrite Hres.
  unfold ai_generateContent, bind, emit. simpl.
  fold (preset_request PROMPT media). rewrite Hgen. simpl.
  unfold preset_images, preset_text.
  now destruct (guarded_parts (resp_candidates response)).
Qed.

Lemma first_image_or_failure_run filename result st :
  first_image_or_failure filename result st =
  (Ok (first_image_body (images result)),
   match images result with
   | firstImage :: _ =>
       with_set {| set_status := set_status (set st);
                   set_headers :=
                     <["Content-Disposition" := attachment filename]>
                       (<["Content-Type" := img_mimeType firstImage]>
                          (set_headers (set st))) |} st
   | [] => st
   end).
Proof.
  unfold first_image_or_failure, first_image_body.
  destruct (images result) as [|firstImage rest]; [reflexivity|].
  unfold bind, set_header. simpl. now destruct (img_buffer firstImage).
Qed.

Lemma controller_with_run rt p PROMPT ref st media st1 response :
  preset_prompt p = Some PROMPT ->
  if_file (Some ref) = Some ref ->
  resolveFile rt "image" (Some ref) st = (Ok media, st1) ->
  generateContent rt (preset_request PROMPT media) = ModelResult response ->
  (controller_with rt p ref st).1 = Ok (first_image_body (preset_images rt response)) /\
  events_of (controller_with rt p ref) st =
    events_of (resolveFile rt "image" (Some ref)) st ++
    [EvGenerateContent (preset_request PROMPT media)] /\
  (forall firstImage rest,
      preset_images rt response = firstImage :: rest ->
      set_headers (set (controller_with rt p ref st).2) !! "Content-Type" =
        Some (img_mimeType firstImage)).
Proof.
  intros Hp Href Hres Hgen.
  assert (exists evs, trace st1 = trace st ++ evs) as [evs Hevs].
  { destruct (emits_resolveFile rt (fun _ => True) "image" (Some ref) (fun _ => I) st)
      as [(evs & Ht & _) _].
    rewrite Hres in Ht. eauto. }
  assert (match ref with FileUrl u => Js.truthy u = true | FileObject _ => True end)
    as Htruthy.
  { destruct ref as [url|f]; [|exact I]. unfold if_file in Href.
    destruct (Js.truthy url); [reflexivity|discriminate]. }
  assert (forall method filename type failed,
             call_preset rt method
               {| preset_image := Some ref; preset_model := None |} =
             generatePreset rt PROMPT type failed
               {| preset_image := Some ref; preset_model := None |} ->
             match ref with
             | FileUrl url => preset_get rt method filename (Some url)
             | FileObject f => preset_post rt method filename (Some f)
             end st =
             first_image_or_failure filename
               {| images := preset_images rt response;
                  ir_text := preset_text rt response;
                  totalImages := length (preset_images rt response);
                  ir_type := Some type |}
               (with_trace (trace st1 ++ [EvGenerateContent (preset_request PROMPT media)])
                  st1)) as Hrun.
  { intros method filename type failed Hcall.
    destruct ref as [url|f].
    - unfold preset_get, try_catch, bind. cbn [Js.truthy_opt fmap option_fmap option_map].
      rewrite Htruthy. cbn [negb].
      rewrite Hcall, (generatePreset_run _ _ _ _ _ _ _ _ _ Hres Hgen).
      now rewrite first_image_or_failure_run.
    - unfold preset_post, try_catch, bind. cbn [fmap option_fmap option_map].
      rewrite Hcall, (generatePreset_run _ _ _ _ _ _ _ _ _ Hres Hgen).
      now rewrite first_image_or_failure_run. }
  assert (exists filename type,
             controller_with rt p ref st =
             first_image_or_failure filename
               {| images := preset_images rt response;
                  ir_text := preset_text rt response;
                  totalImages := length (preset_images rt response);
                  ir_type := Some type |}
               (with_trace (trace st1 ++ [EvGenerateContent (preset_request PROMPT media)])
                  st1)) as (filename & type & Heq).
  { destruct p; simpl in Hp; try discriminate; injection Hp as <-;
      unfold controller_with, controller_get, controller_post,
        figurineController_get, figurineController_post,
        hijabController_get, hijabController_post,
        sdmtinggiController_get, sdmtinggiController_post;
      do 2 eexists; eapply Hrun.
    - apply call_preset_generateFigurine.
    - apply call_preset_generateHijab.
    - apply call_preset_generateSdmTinggi. }
  unfold events_of. rewrite Heq, first_image_or_failure_run, Hres. simpl.
  split_and!.
  - reflexivity.
  - destruct (preset_images rt response); simpl;
      now rewrite Hevs, <- app_assoc, !drop_app_length.
  - intros firstImage rest ->. simpl.
    rewrite lookup_insert_ne by discriminate. apply lookup_insert_eq.
Qed.

(** ** A response that carries nothing *)

Lemma no_content_parts_guarded response :
  no_content_parts response ->
  guarded_parts (resp_candidates response) = None \/
  guarded_parts (resp_candidates response) = Some [].
Proof.
  unfold no_content_parts, guarded_parts.
  destruct (resp_candidates response) as [[|first rest]|]; auto.
  destruct (cand_content first) as [content|]; auto.
  destruct (content_parts content) as [ps|]; auto.
  intros ->. auto.
Qed.

Lemma generateImage_2_empty rt request st response :
  no_content_parts response ->
  generateContent rt (image_request request) = ModelResult response ->
  generateImage_2 rt request st =
  (Ok (empty_artifact None),
   with_trace (trace st ++ [EvGenerateContent (image_request request)]) st).
Proof.
  intros Hnone Hgen.
  unfold generateImage_2, try_catch, bind, ai_generateContent, bind, emit. simpl.
  fold (image_request request). rewrite Hgen. simpl.
  now destruct (no_content_parts_guarded _ Hnone) as [-> | ->].
Qed.

Lemma preset_images_empty rt response :
  no_content_parts response ->
  preset_images rt response = [] /\ preset_text rt response = "".
Proof.
  intros Hnone. unfold preset_images, preset_text.
  now destruct (no_content_parts_guarded _ Hnone) as [-> | ->].
Qed.

(** C6, as the spec has it, at the JSON [/image/generate] endpoint: when the
    model returns no candidates the handler answers [{ success: true, data }]
    around the empty artifact, not the failure [No image generated]. *)
Lemma C6_counterexample :
  no_content_parts Demo.nothing /\
  generateContent Demo.rt_empty (image_request Demo.cat) = ModelResult Demo.nothing /\
  (imageController_generate Demo.rt_empty Demo.cat Demo.st0).1 =
    Ok (BodyImage (empty_artifact None)) /\
  (imageController_generate Demo.rt_empty Demo.cat Demo.st0).1 <>
    Ok (BodyFailure "No image generated").
Proof.
  assert ((imageController_generate Demo.rt_empty Demo.cat Demo.st0).1 =
          Ok (BodyImage (empty_artifact None))) as H by (vm_compute; reflexivity).
  split; [exact I|]. split; [reflexivity|]. split; [exact H|]. rewrite H. discriminate.
Qed.

(** C6, amended.  When the response has no candidates, or its first candidate
    has no content parts, aggregation yields the artifact with empty text and
    no images, without raising: in [generateImage], and in [generateFigurine],
    [generateHijab] and [generateSdmTinggi] once the media has resolved.  The
    figurine, hijab and sdmtinggi endpoints and the buffer-returning
    [/image/generate] then answer [{ success: false, error: "No image
    generated" }]; the JSON [/image/generate] answers [{ success: true, data }]
    around that empty artifact. *)
Theorem C6_empty_response_is_not_an_error rt st response :
  no_content_parts response ->
  (forall request,
      generateContent rt (image_request request) = ModelResult response ->
      (generateImage_2 rt request st).1 = Ok (empty_artifact None) /\
      (imageController_generate_buffer rt request st).1 =
        Ok (BodyFailure "No image generated") /\
      (imageController_generate rt request st).1 = Ok (BodyImage (empty_artifact None))) /\
  (forall p PROMPT ref media st1,
      preset_prompt p = Some PROMPT ->
      if_file (Some ref) = Some ref ->
      resolveFile rt "image" (Some ref) st = (Ok media, st1) ->
      generateContent rt (preset_request PROMPT media) = ModelResult response ->
      (forall type failed,
          (generatePreset rt PROMPT type failed
             {| preset_image := Some ref; preset_model := None |} st).1 =
          Ok (empty_artifact (Some type))) /\
      (controller_with rt p ref st).1 = Ok (BodyFailure "No image generated")).
Proof.
  intros Hnone. split.
  - intros request Hgen.
    pose proof (generateImage_2_empty rt request st response Hnone Hgen) as Hrun.
    split_and!.
    + now rewrite Hrun.
    + unfold imageController_generate_buffer, try_catch, bind.
      now rewrite call_image_generateImage, Hrun.
    + unfold imageController_generate, try_catch, bind.
      now rewrite call_image_generateImage, Hrun.
  - intros p PROMPT ref media st1 Hp Href Hres Hgen.
    destruct (preset_images_empty rt response Hnone) as [Himg Htxt]. split.
    + intros type failed.
      rewrite (generatePreset_run _ _ _ _ _ _ _ _ _ Hres Hgen). simpl.
      now rewrite Himg, Htxt.
    + destruct (controller_with_run rt p PROMPT ref st media st1 response
                  Hp Href Hres Hgen) as (Hbody & _).
      now rewrite Hbody, Himg.
Qed.

Lemma C6_witness :
  no_content_parts Demo.nothing /\
  (controller_with Demo.rt_empty sdmtinggi (FileObject Demo.upload) Demo.st0).1 =
    Ok (BodyFailure "No image generated").
Proof.
  split; [exact I|].
  destruct (C6_empty_response_is_not_an_error Demo.rt_empty Demo.st0 Demo.nothing I)
    as [_ Hpreset].
  destruct (Hpreset sdmtinggi SDMTINGGI_PROMPT (FileObject Demo.upload) _ _
              eq_refl eq_refl eq_refl eq_refl) as [_ Hbody].
  exact Hbody.
Defined.

(** ** Which image a buffer endpoint answers with *)

Lemma emits_image_collect_file rt ps images textResponse :
  Forall no_data images ->
  emits (fun _ => True) (fun collected => Forall no_data collected.1)
    (image_collect_file rt ps images textResponse).
Proof.
  revert images textResponse.
  induction ps as [|part rest IH]; intros images textResponse Himages; simpl.
  - now apply emits_ret.
  - destruct (part_inlineData part) as [i|].
    + eapply emits_bind; [apply emits_saveImageToFile; now intros path|].
      intros imageUrl _. apply IH. apply Forall_app. split; [exact Himages|].
      now repeat constructor.
    + destruct (part_text part) as [t|]; [destruct (Js.truthy t)|]; now apply IH.
Qed.

Lemma emits_generateImage_2 rt request :
  emits (fun _ => True) (fun result => Forall no_data (images result))
    (generateImage_2 rt request).
Proof.
  unfold generateImage_2.
  apply emits_try_catch; [|intros e; apply emits_throw].
  eapply emits_bind; [now apply emits_ai_generateContent|]. intros response _.
  eapply emits_bind with (Q := fun collected => Forall no_data collected.1).
  - destruct (guarded_parts (resp_candidates response)) as [ps|].
    + now apply emits_image_collect_file.
    + now apply emits_ret.
  - intros collected Hc. now apply emits_ret.
Qed.

Lemma emits_imageController_generate_buffer rt request :
  emits (fun _ => True) (fun body => forall buffer, body <> BodyBuffer buffer)
    (imageController_generate_buffer rt request).
Proof.
  unfold imageController_generate_buffer.
  apply emits_try_catch.
  - eapply emits_bind.
    + rewrite call_image_generateImage. apply emits_generateImage_2.
    + intros response Himages. simpl in Himages.
      destruct (images response) as [|firstImage rest]; [now apply emits_ret|].
      apply Forall_cons in Himages as [Hfirst _]. unfold no_data in Hfirst.
      eapply emits_bind with (Q := fun _ => True); [now apply emits_silent|].
      intros _ _.
      eapply emits_bind with (Q := fun _ => True); [now apply emits_silent|].
      intros _ _. rewrite Hfirst. apply emits_throw.
  - intros e.
    eapply emits_bind with (Q := fun _ => True); [now apply emits_silent|].
    intros _ _. now apply emits_ret.
Qed.

Lemma hitam_with_run rt ref st :
  exists error, (controller_with rt hitam ref st).1 = Ok (BodyFailure error).
Proof.
  destruct ref as [url|f]; simpl.
  - unfold hitamController_get, preset_get, try_catch, bind.
    destruct (negb (Js.truthy_opt (Some url))); simpl; [eauto|].
    rewrite call_preset_generateHitam. simpl. eauto.
  - unfold hitamController_post, preset_post, try_catch, bind.
    rewrite call_preset_generateHitam. simpl. eauto.
Qed.

(** C10, checked against the code.  For figurine, hijab and sdmtinggi, when
    the response carries the inline images [first :: others], in that order
    among its parts, the handler answers with the decoded bytes of [first]
    alone, under the MIME type of [first]; nothing of [others] is in the
    answer.  The hitam handlers and the buffer-returning [/image/generate]
    never answer with a buffer at all: the first calls a method the service
    does not have, the second decodes [firstImage.data], a property the
    effective [generateImage] does not set. *)
Theorem C10_first_image_only rt st :
  (forall p PROMPT ref media st1 response ps first others,
      preset_prompt p = Some PROMPT ->
      if_file (Some ref) = Some ref ->
      resolveFile rt "image" (Some ref) st = (Ok media, st1) ->
      generateContent rt (preset_request PROMPT media) = ModelResult response ->
      guarded_parts (resp_candidates response) = Some ps ->
      omap part_inlineData ps = first :: others ->
      (controller_with rt p ref st).1 = Ok (BodyBuffer (fromBase64 rt (data first))) /\
      set_headers (set (controller_with rt p ref st).2) !! "Content-Type" =
        Some (mimeType first)) /\
  (forall ref buffer, (controller_with rt hitam ref st).1 <> Ok (BodyBuffer buffer)) /\
  (forall request buffer,
      (imageController_generate_buffer rt request st).1 <> Ok (BodyBuffer buffer)).
Proof.
  split_and!.
  - intros p PROMPT ref media st1 response ps first others Hp Href Hres Hgen Hps Himgs.
    destruct (controller_with_run rt p PROMPT ref st media st1 response
                Hp Href Hres Hgen) as (Hbody & _ & Hheader).
    assert (preset_images rt response = buffer_image rt first :: (buffer_image rt <$> others))
      as Himages.
    { unfold preset_images. rewrite Hps, preset_collect_images, Himgs. reflexivity. }
    split.
    + now rewrite Hbody, Himages.
    + now rewrite (Hheader _ _ Himages).
  - intros ref buffer H. destruct (hitam_with_run rt ref st) as [error He].
    rewrite He in H. discriminate.
  - intros request buffer H.
    destruct (emits_imageController_generate_buffer rt request st) as [_ Hq].
    exact (Hq _ H buffer eq_refl).
Qed.

Lemma C10_witness :
  (controller_with Demo.rt sdmtinggi (FileObject Demo.upload) Demo.st0).1 =
    Ok (BodyBuffer (Demo.decode "AAAA")) /\
  set_headers (set (controller_with Demo.rt sdmtinggi (FileObject Demo.upload) Demo.st0).2)
    !! "Content-Type" = Some "image/jpeg".
Proof.
  destruct (C10_first_image_only Demo.rt Demo.st0) as [Hfirst _].
  exact (Hfirst sdmtinggi SDMTINGGI_PROMPT (FileObject Demo.upload) _ _ _ _
           Demo.jpeg [Demo.png] eq_refl eq_refl eq_refl eq_refl eq_refl eq_refl).
Defined.

(** The two endpoints that never answer with an image, run on a model that
    returns two images. *)
Example hitam_two_images :
  (hitamController_post Demo.rt (Some Demo.upload) Demo.st0).1 =
  Ok (BodyFailure "geminiService.generateHitam is not a function").
Proof. reflexivity. Qed.

Example image_buffer_two_images :
  let run := imageController_generate_buffer Demo.rt Demo.cat Demo.st0 in
  run.1 = Ok (BodyFailure "The first argument must be of type string") /\
  set_status (set run.2) = Some 500 /\
  size (files run.2) = 2.
Proof. vm_compute. auto. Qed.

(** * Further properties of the pipeline *)

(** ** Components of the state a computation leaves alone *)

Section Keeps.

Context {X A B : Type}.
Variable f : State -> X.

Lemma keeps_ret (a : A) : keeps f (ret a).
Proof. now intros st. Qed.

Lemma keeps_throw e : keeps f (@throw A e).
Proof. now intros st. Qed.

Lemma keeps_bind (m : M A) (k : A -> M B) :
  keeps f m -> (forall a, keeps f (k a)) -> keeps f (bind m k).
Proof.
  intros Hm Hk st. unfold bind. specialize (Hm st).
  destruct (m st) as [[a|e] st1]; simpl in *; [|exact Hm].
  now rewrite Hk.
Qed.

Lemma keeps_try_catch (m : M A) (h : Exn -> M A) :
  keeps f m -> (forall e, keeps f (h e)) -> keeps f (try_catch m h).
Proof.
  intros Hm Hh st. unfold try_catch. specialize (Hm st).
  destruct (m st) as [[a|e] st1]; simpl in *; [exact Hm|].
  now rewrite Hh.
Qed.

End Keeps.

#[export] Hint Resolve keeps_ret keeps_throw : pipeline.

(** Straight-line code keeps what each of its steps keeps. *)
Ltac keep :=
  repeat first
    [ solve [auto with pipeline]
    | apply keeps_try_catch; [|intros ?]
    | apply keeps_bind; [|intros ?]
    | match goal with
      | |- keeps _ (match ?x with _ => _ end) => destruct x
      end
    | progress cbv zeta
    | solve [intros ?; reflexivity] ].

Section KeepsService.

Variable rt : Runtime.

Lemma keeps_disk_emit e : keeps disk (emit e).
Proof. now intros st. Qed.

Lemma keeps_set_emit e : keeps set (emit e).
Proof. now intros st. Qed.
Hint Resolve keeps_disk_emit keeps_set_emit : pipeline.

Lemma keeps_disk_js_arrayBuffer response : keeps disk (js_arrayBuffer response).
Proof. unfold js_arrayBuffer. keep. Qed.

Lemma keeps_set_js_arrayBuffer response : keeps set (js_arrayBuffer response).
Proof. unfold js_arrayBuffer. keep. Qed.
Hint Resolve keeps_disk_js_arrayBuffer keeps_set_js_arrayBuffer : pipeline.

Lemma keeps_disk_js_fetch url : keeps disk (js_fetch rt url).
Proof. unfold js_fetch. keep. Qed.

Lemma keeps_set_js_fetch url : keeps set (js_fetch rt url).
Proof. unfold js_fetch. keep. Qed.
Hint Resolve keeps_disk_js_fetch keeps_set_js_fetch : pipeline.

Lemma keeps_disk_fetchFileFromUrl url : keeps disk (fetchFileFromUrl rt url).
Proof. unfold fetchFileFromUrl. keep. Qed.

Lemma keeps_set_fetchFileFromUrl url : keeps set (fetchFileFromUrl rt url).
Proof. unfold fetchFileFromUrl. keep. Qed.
Hint Resolve keeps_disk_fetchFileFromUrl keeps_set_fetchFileFromUrl : pipeline.

Lemma keeps_disk_resolveFile name file : keeps disk (resolveFile rt name file).
Proof. unfold resolveFile. keep. Qed.

Lemma keeps_set_resolveFile name file : keeps set (resolveFile rt name file).
Proof. unfold resolveFile. keep. Qed.
Hint Resolve keeps_disk_resolveFile keeps_set_resolveFile : pipeline.

Lemma keeps_disk_ai_generateContent req : keeps disk (ai_generateContent rt req).
Proof. unfold ai_generateContent. keep. Qed.

Lemma keeps_set_ai_generateContent req : keeps set (ai_generateContent rt req).
Proof. unfold ai_generateContent. keep. Qed.
Hint Resolve keeps_disk_ai_generateContent keeps_set_ai_generateContent : pipeline.

Lemma keeps_disk_chat_parts message file : keeps disk (chat_parts rt message file).
Proof. unfold chat_parts. keep. Qed.

Lemma keeps_set_chat_parts message file : keeps set (chat_parts rt message file).
Proof. unfold chat_parts. keep. Qed.
Hint Resolve keeps_disk_chat_parts keeps_set_chat_parts : pipeline.

Lemma keeps_disk_generateChatResponse_2 request :
  keeps disk (generateChatResponse_2 rt request).
Proof. unfold generateChatResponse_2. keep. Qed.

Lemma keeps_set_generateChatResponse_2 request :
  keeps set (generateChatResponse_2 rt request).
Proof. unfold generateChatResponse_2. keep. Qed.

Lemma keeps_disk_generatePreset PROMPT type failed request :
  keeps disk (generatePreset rt PROMPT type failed request).
Proof. unfold generatePreset. keep. Qed.

Lemma keeps_set_generatePreset PROMPT type failed request :
  keeps set (generatePreset rt PROMPT type failed request).
Proof. unfold generatePreset. keep. Qed.

Lemma keeps_set_writeFileSync path buffer : keeps set (writeFileSync rt path buffer).
Proof.
  unfold writeFileSync. apply keeps_bind; [apply keeps_set_emit|]. intros _.
  destruct (writeError rt path); [|now intros st].
  intros st. now destruct (writeLeaves rt path buffer).
Qed.
Hint Resolve keeps_set_writeFileSync : pipeline.

Lemma keeps_set_saveImageToFile base64Data mimeType :
  keeps set (saveImageToFile rt base64Data mimeType).
Proof. unfold saveImageToFile, date_now. keep. Qed.
Hint Resolve keeps_set_saveImageToFile : pipeline.

Lemma keeps_set_image_collect_file ps images textResponse :
  keeps set (image_collect_file rt ps images textResponse).
Proof.
  revert images textResponse.
  induction ps as [|part rest IH]; intros images textResponse; simpl.
  - apply keeps_ret.
  - keep.
Qed.
Hint Resolve keeps_set_image_collect_file : pipeline.

Lemma keeps_set_generateImage_2 request : keeps set (generateImage_2 rt request).
Proof. unfold generateImage_2. keep. Qed.

Lemma keeps_disk_call_preset name request : keeps disk (call_preset rt name request).
Proof.
  unfold call_preset. destruct (geminiService rt !! name) as [m|] eqn:Hm; [|keep].
  destruct m; try apply keeps_throw.
  revert Hm. unfold geminiService, prototype, GeminiService_body.
  cbn [fold_left fst snd].
  repeat (rewrite lookup_insert; case_decide;
          [intros [= <-]; try apply keeps_disk_generatePreset|]).
  now rewrite lookup_empty.
Qed.
Hint Resolve keeps_disk_call_preset : pipeline.

Lemma keeps_disk_first_image_or_failure filename result :
  keeps disk (first_image_or_failure filename result).
Proof. unfold first_image_or_failure, set_header. keep. Qed.
Hint Resolve keeps_disk_first_image_or_failure : pipeline.

Lemma keeps_disk_preset_post method filename image :
  keeps disk (preset_post rt method filename image).
Proof. unfold preset_post. keep. Qed.

Lemma keeps_disk_preset_get method filename imageUrl :
  keeps disk (preset_get rt method filename imageUrl).
Proof. unfold preset_get. keep. Qed.

Lemma keeps_disk_chatController_handler request :
  keeps disk (chatController_handler rt request).
Proof.
  unfold chatController_handler, set_status_code.
  apply keeps_try_catch; [|intros e; keep].
  apply keeps_bind; [|intros; apply keeps_ret].
  rewrite call_chat_generateChatResponse. apply keeps_disk_generateChatResponse_2.
Qed.

End KeepsService.

(** ** What the handlers answer *)

Ltac unfold_controllers :=
  unfold controller_post, controller_get,
    figurineController_post, figurineController_get,
    hijabController_post, hijabController_get,
    sdmtinggiController_post, sdmtinggiController_get,
    hitamController_post, hitamController_get.

Lemma never_throws_try_catch {A} (m : M A) (h : Exn -> M A) :
  (forall e, never_throws (h e)) -> never_throws (try_catch m h).
Proof.
  intros Hh st. unfold try_catch.
  destruct (m st) as [[a|e] st1]; [now exists a|apply Hh].
Qed.

Lemma never_throws_failure rt (e : Exn) :
  never_throws (set_status_code 500 ;; ret (BodyFailure (message_of rt e))).
Proof. intros st. now eexists. Qed.

Lemma preset_collect_has_buffer rt ps images textResponse :
  Forall has_buffer images ->
  Forall has_buffer (preset_collect rt ps images textResponse).1.
Proof.
  intros Himages. rewrite preset_collect_images. apply Forall_app. split; [exact Himages|].
  apply Forall_fmap, Forall_true. intros i. unfold has_buffer. simpl. discriminate.
Qed.

Lemma emits_generatePreset_any rt P PROMPT type failed request :
  (forall url, P (EvFetch url)) -> (forall r, P (EvGenerateContent r)) ->
  emits P (fun result => Forall has_buffer (images result))
    (generatePreset rt PROMPT type failed request).
Proof.
  intros Hf Hg. unfold generatePreset.
  apply emits_try_catch; [|intros e; apply emits_throw].
  eapply emits_bind; [now apply emits_resolveFile|]. intros media _.
  eapply emits_bind; [apply emits_ai_generateContent, Hg|]. intros response _.
  apply emits_ret. simpl.
  destruct (guarded_parts (resp_candidates response)) as [ps|]; simpl.
  - now apply preset_collect_has_buffer.
  - constructor.
Qed.

Lemma emits_first_image_or_failure P filename result :
  Forall has_buffer (images result) ->
  emits P buffer_or_failure (first_image_or_failure filename result).
Proof.
  intros Hb. apply emits_silent.
  - intros st. rewrite first_image_or_failure_run. simpl.
    now destruct (images result).
  - intros st a. rewrite first_image_or_failure_run. simpl. intros [= <-].
    unfold first_image_body, buffer_or_failure.
    destruct (images result) as [|firstImage rest]; [right; eauto|].
    apply Forall_cons in Hb as [Hfirst _]. unfold has_buffer in Hfirst.
    destruct (img_buffer firstImage) as [buffer|]; [left; eauto|contradiction].
Qed.

Lemma emits_call_preset rt P p request method :
  (forall url, P (EvFetch url)) -> (forall r, P (EvGenerateContent r)) ->
  method = match p with
           | figurine => "generateFigurine"
           | hijab => "generateHijab"
           | sdmtinggi => "generateSdmTinggi"
           | hitam => "generateHitam"
           end ->
  emits P (fun result => Forall has_buffer (images result))
    (call_preset rt method request).
Proof.
  intros Hf Hg ->. destruct p.
  - rewrite call_preset_generateFigurine. now apply emits_generatePreset_any.
  - rewrite call_preset_generateHijab. now apply emits_generatePreset_any.
  - rewrite call_preset_generateSdmTinggi. now apply emits_generatePreset_any.
  - rewrite call_preset_generateHitam. apply emits_throw.
Qed.

Lemma emits_controller_post rt P p image :
  (forall url, P (EvFetch url)) -> (forall r, P (EvGenerateContent r)) ->
  emits P buffer_or_failure (controller_post rt p image).
Proof.
  intros Hf Hg.
  assert (forall method filename,
             method = match p with
                      | figurine => "generateFigurine"
                      | hijab => "generateHijab"
                      | sdmtinggi => "generateSdmTinggi"
                      | hitam => "generateHitam"
                      end ->
             emits P buffer_or_failure (preset_post rt method filename image)) as H.
  { intros method filename Hm. unfold preset_post.
    apply emits_try_catch; [|intros e; apply emits_ret; right; eauto].
    eapply emits_bind; [now apply (emits_call_preset rt P p)|].
    intros result Hr. now apply emits_first_image_or_failure. }
  unfold_controllers. destruct p; now apply H.
Qed.

Lemma emits_controller_get rt P p imageUrl :
  (forall url, P (EvFetch url)) -> (forall r, P (EvGenerateContent r)) ->
  emits P buffer_or_failure (controller_get rt p imageUrl).
Proof.
  intros Hf Hg.
  assert (forall method filename,
             method = match p with
                      | figurine => "generateFigurine"
                      | hijab => "generateHijab"
                      | sdmtinggi => "generateSdmTinggi"
                      | hitam => "generateHitam"
                      end ->
             emits P buffer_or_failure (preset_get rt method filename imageUrl)) as H.
  { intros method filename Hm. unfold preset_get.
    apply emits_try_catch; [|intros e; apply emits_ret; right; eauto].
    destruct (negb (Js.truthy_opt imageUrl)); [apply emits_ret; right; eauto|].
    eapply emits_bind; [now apply (emits_call_preset rt P p)|].
    intros result Hr. now apply emits_first_image_or_failure. }
  unfold_controllers. destruct p; now apply H.
Qed.

Lemma never_throws_controller_post rt p image : never_throws (controller_post rt p image).
Proof.
  unfold_controllers. unfold preset_post, preset_get.
  destruct p; apply never_throws_try_catch; intros e st; now eexists.
Qed.

Lemma never_throws_controller_get rt p imageUrl : never_throws (controller_get rt p imageUrl).
Proof.
  unfold_controllers. unfold preset_post, preset_get.
  destruct p; apply never_throws_try_catch; intros e st; now eexists.
Qed.

Lemma emits_imageController_generate_buffer_failure rt request :
  emits (fun _ => True) (fun body => exists error, body = BodyFailure error)
    (imageController_generate_buffer rt request).
Proof.
  unfold imageController_generate_buffer.
  apply emits_try_catch.
  - eapply emits_bind.
    + rewrite call_image_generateImage. apply emits_generateImage_2.
    + intros response Himages. simpl in Himages.
      destruct (images response) as [|firstImage rest]; [apply emits_ret; eauto|].
      apply Forall_cons in Himages as [Hfirst _]. unfold no_data in Hfirst.
      eapply emits_bind with (Q := fun _ => True); [now apply emits_silent|].
      intros _ _.
      eapply emits_bind with (Q := fun _ => True); [now apply emits_silent|].
      intros _ _. rewrite Hfirst. apply emits_throw.
  - intros e.
    eapply emits_bind with (Q := fun _ => True); [now apply emits_silent|].
    intros _ _. apply emits_ret. eauto.
Qed.

(** X1. Whatever fails inside a handler, the handler returns: every request is
    answered, a chat request with the chat result or a failure object, an
    image request with the image result or a failure object, a preset
    request with a buffer or a failure object (never with [undefined]), and
    the buffer-returning [/image/generate] with a failure object only. *)
Theorem handlers_always_answer rt (i : Inbound) st :
  exists body, (handle rt i st).1 = Ok body /\ answer_shape i body.
Proof.
  destruct i as [request|request|request|p image|p imageUrl]; simpl.
  - unfold chatController_handler, try_catch, bind.
    destruct (call_chat rt "generateChatResponse" request st) as [[data|e] st1];
      simpl; eauto 6.
  - unfold imageController_generate, try_catch, bind.
    destruct (call_image rt "generateImage" request st) as [[data|e] st1];
      simpl; eauto 6.
  - assert (never_throws (imageController_generate_buffer rt request)) as Hn.
    { apply never_throws_try_catch, never_throws_failure. }
    destruct (Hn st) as [body Hbody]. exists body. split; [exact Hbody|].
    destruct (emits_imageController_generate_buffer_failure rt request st) as [_ Hq].
    now apply Hq.
  - destruct (never_throws_controller_post rt p image st) as [body Hbody].
    exists body. split; [exact Hbody|].
    destruct (emits_controller_post rt (fun _ => True) p image
                (fun _ => I) (fun _ => I) st) as [_ Hq].
    now apply Hq.
  - destruct (never_throws_controller_get rt p imageUrl st) as [body Hbody].
    exists body. split; [exact Hbody|].
    destruct (emits_controller_get rt (fun _ => True) p imageUrl
                (fun _ => I) (fun _ => I) st) as [_ Hq].
    now apply Hq.
Qed.

(** ** No file is written on the chat and preset paths *)

Lemma keeps_disk_controller_post rt p image : keeps disk (controller_post rt p image).
Proof. unfold_controllers. destruct p; apply keeps_disk_preset_post. Qed.

Lemma keeps_disk_controller_get rt p imageUrl : keeps disk (controller_get rt p imageUrl).
Proof. unfold_controllers. destruct p; apply keeps_disk_preset_get. Qed.

(** X2. Handling a chat request or a preset request (figurine, hijab, sdmtinggi,
    hitam; upload or URL) leaves the files, the directories and the clock
    untouched, and the calls it makes are fetches and generation calls only:
    on these paths nothing is ever written to disk. *)
Theorem chat_and_presets_do_no_file_io rt st :
  (forall request,
      disk (chatController_handler rt request st).2 = disk st /\
      Forall not_write (events_of (chatController_handler rt request) st)) /\
  (forall p image,
      disk (controller_post rt p image st).2 = disk st /\
      Forall not_write (events_of (controller_post rt p image) st)) /\
  (forall p imageUrl,
      disk (controller_get rt p imageUrl st).2 = disk st /\
      Forall not_write (events_of (controller_get rt p imageUrl) st)).
Proof.
  split_and!.
  - intros request. split; [apply keeps_disk_chatController_handler|].
    eapply emits_events.
    apply (emits_chatController_handler rt not_write request (fun _ => I) (fun _ => I)).
  - intros p image. split; [apply keeps_disk_controller_post|].
    eapply emits_events.
    apply (emits_controller_post rt not_write p image (fun _ => I) (fun _ => I)).
  - intros p imageUrl. split; [apply keeps_disk_controller_get|].
    eapply emits_events.
    apply (emits_controller_get rt not_write p imageUrl (fun _ => I) (fun _ => I)).
Qed.

(** ** Running a chat request step by step *)

Lemma includes_prefix pre m c : Js.includes m c -> Js.includes (pre +:+ m) c.
Proof.
  intros (a & b & ->). exists (pre +:+ a), b. now rewrite string_app_assoc.
Qed.

Lemma fetchFileFromUrl_unretrievable rt url st cause :
  unretrievable rt url cause ->
  exists m,
    fetchFileFromUrl rt url st =
      (Throw (JsError m), with_trace (trace st ++ [EvFetch url]) st) /\
    Js.includes m cause.
Proof.
  intros [msg Hf | response Hf Hok | response msg Hf Hok Hbody].
  - eexists. split; [apply fetchFileFromUrl_network; eassumption|].
    apply includes_suffix.
  - eexists. split; [apply fetchFileFromUrl_status; eassumption|].
    rewrite <- string_app_assoc. apply includes_suffix.
  - eexists. split; [eapply fetchFileFromUrl_aborted; eassumption|].
    apply includes_suffix.
Qed.

Lemma chat_parts_none rt request st :
  if_file (chat_file request) = None ->
  chat_parts rt (chat_message request) (chat_file request) st =
  (Ok [TextPart (chat_message request)], st).
Proof. intros H. unfold chat_parts. now rewrite H. Qed.

Lemma chat_parts_some rt request st f :
  if_file (chat_file request) = Some f ->
  chat_parts rt (chat_message request) (chat_file request) st =
  match resolveFile rt "file" (Some f) st with
  | (Ok media, st1) => (Ok [TextPart (chat_message request); InlineDataPart media], st1)
  | (Throw e, st1) => (Throw e, st1)
  end.
Proof. intros H. unfold chat_parts. rewrite H. unfold bind. now destruct (resolveFile _ _ _ _) as [[m|e] st1]. Qed.

Lemma generateChatResponse_2_parts_throw rt request st e st1 :
  chat_parts rt (chat_message request) (chat_file request) st = (Throw e, st1) ->
  generateChatResponse_2 rt request st =
  (Throw (JsError ("Chat generation failed: " +:+ message_of rt e)), st1).
Proof.
  intros H. unfold generateChatResponse_2, try_catch, bind. simpl. now rewrite H.
Qed.

Lemma generateChatResponse_2_run rt request st ps st1 :
  chat_parts rt (chat_message request) (chat_file request) st = (Ok ps, st1) ->
  generateChatResponse_2 rt request st =
  (match generateContent rt (chat_request request ps) with
   | ModelResult response =>
       Ok {| cr_text := Js.or_string (resp_text response) "";
             cr_chunks := None;
             cr_sessionId := Js.or_null (chat_sessionId request);
             cr_usedTools := Js.default false (chat_useTools request);
             cr_usedThinking := Js.default false (chat_useThinking request) |}
   | ModelError m => Throw (JsError ("Chat generation failed: " +:+ m))
   end,
   with_trace (trace st1 ++ [EvGenerateContent (chat_request request ps)]) st1).
Proof.
  intros H. unfold generateChatResponse_2, try_catch, bind. simpl. rewrite H.
  unfold ai_generateContent, bind, emit. simpl. fold (chat_request request ps).
  now destruct (generateContent rt (chat_request request ps)).
Qed.

Lemma chatController_handler_run rt request st :
  chatController_handler rt request st =
  match generateChatResponse_2 rt request st with
  | (Ok response, st1) => (Ok (BodyChat response), st1)
  | (Throw e, st1) =>
      (Ok (BodyFailure (message_of rt e)),
       with_set {| set_status := Some 500; set_headers := set_headers (set st1) |} st1)
  end.
Proof.
  unfold chatController_handler, try_catch, bind.
  rewrite call_chat_generateChatResponse.
  now destruct (generateChatResponse_2 rt request st) as [[response|e] st1].
Qed.

Lemma imageController_generate_run rt request st :
  imageController_generate rt request st =
  match generateImage_2 rt request st with
  | (Ok response, st1) => (Ok (BodyImage response), st1)
  | (Throw e, st1) =>
      (Ok (BodyFailure (message_of rt e)),
       with_set {| set_status := Some 500; set_headers := set_headers (set st1) |} st1)
  end.
Proof.
  unfold imageController_generate, try_catch, bind.
  rewrite call_image_generateImage.
  now destruct (generateImage_2 rt request st) as [[response|e] st1].
Qed.

(** ** Status codes *)

Lemma keeps_status_of_set {A} (m : M A) : keeps set m -> keeps status_of m.
Proof. intros H st. unfold status_of. now rewrite H. Qed.

Lemma keeps_set_call_preset rt name request : keeps set (call_preset rt name request).
Proof.
  unfold call_preset. destruct (geminiService rt !! name) as [m|] eqn:Hm;
    [|apply keeps_throw].
  destruct m; try apply keeps_throw.
  revert Hm. unfold geminiService, prototype, GeminiService_body.
  cbn [fold_left fst snd].
  repeat (rewrite lookup_insert; case_decide;
          [intros [= <-]; try apply keeps_set_generatePreset|]).
  now rewrite lookup_empty.
Qed.

Lemma keeps_status_first_image_or_failure filename result :
  keeps status_of (first_image_or_failure filename result).
Proof. intros st. rewrite first_image_or_failure_run. simpl. now destruct (images result). Qed.

Lemma keeps_status_preset_post rt method filename image :
  keeps status_of (preset_post rt method filename image).
Proof.
  unfold preset_post.
  apply keeps_try_catch; [|intros e; apply keeps_ret].
  apply keeps_bind; [apply keeps_status_of_set, keeps_set_call_preset|].
  intros result. apply keeps_status_first_image_or_failure.
Qed.

Lemma keeps_status_preset_get rt method filename imageUrl :
  keeps status_of (preset_get rt method filename imageUrl).
Proof.
  unfold preset_get.
  apply keeps_try_catch; [|intros e; apply keeps_ret].
  destruct (negb (Js.truthy_opt imageUrl)); [apply keeps_ret|].
  apply keeps_bind; [apply keeps_status_of_set, keeps_set_call_preset|].
  intros result. apply keeps_status_first_image_or_failure.
Qed.

(** X3. The chat handler and the JSON image handler leave [set] alone when they
    answer a result and set the status to 500, and nothing else, when they
    answer a failure.  The preset handlers never set a status: their failure
    objects go out under whatever status the request started with. *)
Theorem status_is_500_exactly_on_chat_and_image_failures rt st :
  (forall request,
      match (chatController_handler rt request st).1 with
      | Ok (BodyChat _) => set (chatController_handler rt request st).2 = set st
      | _ => set (chatController_handler rt request st).2 =
             {| set_status := Some 500; set_headers := set_headers (set st) |}
      end) /\
  (forall request,
      match (imageController_generate rt request st).1 with
      | Ok (BodyImage _) => set (imageController_generate rt request st).2 = set st
      | _ => set (imageController_generate rt request st).2 =
             {| set_status := Some 500; set_headers := set_headers (set st) |}
      end) /\
  (forall p image, status_of (controller_post rt p image st).2 = status_of st) /\
  (forall p imageUrl, status_of (controller_get rt p imageUrl st).2 = status_of st).
Proof.
  split_and!.
  - intros request. rewrite chatController_handler_run.
    pose proof (keeps_set_generateChatResponse_2 rt request st) as Hk.
    destruct (generateChatResponse_2 rt request st) as [[response|e] st1];
      simpl in *; now rewrite Hk.
  - intros request. rewrite imageController_generate_run.
    pose proof (keeps_set_generateImage_2 rt request st) as Hk.
    destruct (generateImage_2 rt request st) as [[response|e] st1];
      simpl in *; now rewrite Hk.
  - intros p image. unfold_controllers. destruct p; apply keeps_status_preset_post.
  - intros p imageUrl. unfold_controllers. destruct p; apply keeps_status_preset_get.
Qed.

(** ** One request, step by step *)

Lemma chat_parts_trace rt request st ps st1 :
  chat_parts rt (chat_message request) (chat_file request) st = (Ok ps, st1) ->
  trace st1 = trace st ++ chat_fetches request.
Proof.
  unfold chat_fetches.
  destruct (if_file (chat_file request)) as [f|] eqn:Hfile.
  - rewrite (chat_parts_some _ _ _ _ Hfile). destruct f as [url|f].
    + rewrite resolveFile_url.
      destruct (fetchFileFromUrl rt url st) as [[m|e] st'] eqn:Hfetch; [|discriminate].
      intros [= <- <-].
      now apply fetchFileFromUrl_inv in Hfetch as (_ & _ & _ & _ & _ & _ & ->).
    + rewrite resolveFile_inline. intros [= <- <-]. now rewrite app_nil_r.
  - rewrite (chat_parts_none _ _ _ Hfile). intros [= <- <-]. now rewrite app_nil_r.
Qed.

Lemma chat_parts_resolves rt request st :
  chat_media_resolves rt request st ->
  exists ps st1, chat_parts rt (chat_message request) (chat_file request) st = (Ok ps, st1).
Proof.
  unfold chat_media_resolves.
  destruct (if_file (chat_file request)) as [f|] eqn:Hfile.
  - intros (media & st1 & Hres). rewrite (chat_parts_some _ _ _ _ Hfile), Hres. eauto.
  - intros _. rewrite (chat_parts_none _ _ _ Hfile). eauto.
Qed.

Lemma generatePreset_resolve_throw rt PROMPT type failed image st e st1 :
  resolveFile rt "image" image st = (Throw e, st1) ->
  generatePreset rt PROMPT type failed
    {| preset_image := image; preset_model := None |} st =
  (Throw (JsError (failed +:+ message_of rt e)), st1).
Proof.
  intros Hres. unfold generatePreset, try_catch, bind. simpl. now rewrite Hres.
Qed.

Lemma generatePreset_model_error rt PROMPT type failed image st media st1 cause :
  resolveFile rt "image" image st = (Ok media, st1) ->
  generateContent rt (preset_request PROMPT media) = ModelError cause ->
  generatePreset rt PROMPT type failed
    {| preset_image := image; preset_model := None |} st =
  (Throw (JsError (failed +:+ cause)),
   with_trace (trace st1 ++ [EvGenerateContent (preset_request PROMPT media)]) st1).
Proof.
  intros Hres Hgen.
  unfold generatePreset, try_catch, bind. simpl. rewrite Hres.
  unfold ai_generateContent, bind, emit. simpl.
  fold (preset_request PROMPT media). now rewrite Hgen.
Qed.

Lemma controller_with_unfold rt p PROMPT failed ref st :
  preset_prompt p = Some PROMPT ->
  preset_failed p = Some failed ->
  if_file (Some ref) = Some ref ->
  exists type filename,
    controller_with rt p ref st =
    match generatePreset rt PROMPT type failed
            {| preset_image := Some ref; preset_model := None |} st with
    | (Ok result, st1) => first_image_or_failure filename result st1
    | (Throw e, st1) => (Ok (BodyFailure (message_of rt e)), st1)
    end.
Proof.
  intros Hp Hfailed Href.
  assert (match ref with FileUrl u => Js.truthy u = true | FileObject _ => True end)
    as Htruthy.
  { destruct ref as [url|f]; [|exact I]. unfold if_file in Href.
    destruct (Js.truthy url); [reflexivity|discriminate]. }
  assert (forall method filename type,
             call_preset rt method
               {| preset_image := Some ref; preset_model := None |} =
             generatePreset rt PROMPT type failed
               {| preset_image := Some ref; preset_model := None |} ->
             match ref with
             | FileUrl url => preset_get rt method filename (Some url)
             | FileObject f => preset_post rt method filename (Some f)
             end st =
             match generatePreset rt PROMPT type failed
                     {| preset_image := Some ref; preset_model := None |} st with
             | (Ok result, st1) => first_image_or_failure filename result st1
             | (Throw e, st1) => (Ok (BodyFailure (message_of rt e)), st1)
             end) as Hrun.
  { intros method filename type Hcall.
    destruct ref as [url|f].
    - unfold preset_get, try_catch, bind. cbn [Js.truthy_opt fmap option_fmap option_map].
      rewrite Htruthy. cbn [negb]. rewrite Hcall.
      destruct (generatePreset _ _ _ _ _ _) as [[result|e] st1]; [|reflexivity].
      now rewrite first_image_or_failure_run.
    - unfold preset_post, try_catch, bind. cbn [fmap option_fmap option_map].
      rewrite Hcall.
      destruct (generatePreset _ _ _ _ _ _) as [[result|e] st1]; [|reflexivity].
      now rewrite first_image_or_failure_run. }
  destruct p; simpl in Hp, Hfailed; try discriminate;
    injection Hp as <-; injection Hfailed as <-;
    unfold controller_with; unfold_controllers; do 2 eexists; eapply Hrun.
  - apply call_preset_generateFigurine.
  - apply call_preset_generateHijab.
  - apply call_preset_generateSdmTinggi.
Qed.

(** X4. When the model call fails with [cause], the failure object names the
    cause after the prefix of the method that made the call: [Chat generation
    failed: ] for chat, [Image generation failed: ] for image generation, and
    the preset's own prefix for figurine, hijab and sdmtinggi.  (For chat and
    the presets, provided the media resolved.) *)
Theorem model_failure_is_reported_with_its_cause rt cause st :
  model_down rt cause ->
  (forall request,
      chat_media_resolves rt request st ->
      (chatController_handler rt request st).1 =
        Ok (BodyFailure ("Chat generation failed: " +:+ cause))) /\
  (forall request,
      (imageController_generate rt request st).1 =
        Ok (BodyFailure ("Image generation failed: " +:+ cause))) /\
  (forall p PROMPT failed ref media st1,
      preset_prompt p = Some PROMPT ->
      preset_failed p = Some failed ->
      if_file (Some ref) = Some ref ->
      resolveFile rt "image" (Some ref) st = (Ok media, st1) ->
      (controller_with rt p ref st).1 = Ok (BodyFailure (failed +:+ cause))).
Proof.
  intros Hdown. split_and!.
  - intros request Hres.
    destruct (chat_parts_resolves rt request st Hres) as (ps & st1 & Hparts).
    rewrite chatController_handler_run, (generateChatResponse_2_run _ _ _ _ _ Hparts).
    now rewrite Hdown.
  - intros request. rewrite imageController_generate_run.
    unfold generateImage_2, try_catch, bind, ai_generateContent, bind, emit. simpl.
    now rewrite Hdown.
  - intros p PROMPT failed ref media st1 Hp Hfailed Href Hres.
    destruct (controller_with_unfold rt p PROMPT failed ref st Hp Hfailed Href)
      as (type & filename & ->).
    now rewrite (generatePreset_model_error _ _ _ _ _ _ _ _ _ Hres (Hdown _)).
Qed.

Lemma model_failure_witness :
  model_down Demo.rt_quota "quota exceeded" /\
  (imageController_generate Demo.rt_quota Demo.cat Demo.st0).1 =
    Ok (BodyFailure ("Image generation failed: " +:+ "quota exceeded")).
Proof.
  split; [intros req; reflexivity|].
  exact (proj1 (proj2 (model_failure_is_reported_with_its_cause Demo.rt_quota
                         "quota exceeded" Demo.st0 (fun _ => eq_refl))) Demo.cat).
Defined.

(** X5. When the media of a request is a URL that cannot be retrieved, the
    request ends there: the only call made is the one fetch, nothing is sent
    to the model, and the failure object contains the cause.  This holds for
    a chat request with a [file] URL and for the URL routes of figurine,
    hijab and sdmtinggi. *)
Theorem unretrievable_media_stops_the_request rt url cause st :
  unretrievable rt url cause ->
  url <> "" ->
  (forall request,
      chat_file request = Some (FileUrl url) ->
      exists error,
        (chatController_handler rt request st).1 = Ok (BodyFailure error) /\
        Js.includes error cause /\
        events_of (chatController_handler rt request) st = [EvFetch url] /\
        status_of (chatController_handler rt request st).2 = Some 500) /\
  (forall p PROMPT,
      preset_prompt p = Some PROMPT ->
      exists error,
        (controller_get rt p (Some url) st).1 = Ok (BodyFailure error) /\
        Js.includes error cause /\
        events_of (controller_get rt p (Some url)) st = [EvFetch url]).
Proof.
  intros Hc Hurl.
  destruct (fetchFileFromUrl_unretrievable rt url st cause Hc) as (m & Hfetch & Hinc).
  apply truthy_nonempty in Hurl. split.
  - intros request Hfile.
    assert (if_file (chat_file request) = Some (FileUrl url)) as Hif.
    { rewrite Hfile. simpl. now rewrite Hurl. }
    assert (chat_parts rt (chat_message request) (chat_file request) st =
            (Throw (JsError m), with_trace (trace st ++ [EvFetch url]) st)) as Hparts.
    { now rewrite (chat_parts_some _ _ _ _ Hif), resolveFile_url, Hfetch. }
    eexists. unfold events_of.
    rewrite chatController_handler_run, (generateChatResponse_2_parts_throw _ _ _ _ _ Hparts).
    simpl. split_and!; [reflexivity|now apply includes_prefix| |reflexivity].
    now rewrite drop_app_length.
  - intros p PROMPT Hp.
    assert (exists failed, preset_failed p = Some failed) as [failed Hfailed].
    { destruct p; simpl in *; eauto; discriminate. }
    assert (if_file (Some (FileUrl url)) = Some (FileUrl url)) as Hif.
    { simpl. now rewrite Hurl. }
    destruct (controller_with_unfold rt p PROMPT failed (FileUrl url) st Hp Hfailed Hif)
      as (type & filename & Heq).
    simpl in Heq. eexists. unfold events_of. rewrite Heq.
    assert (resolveFile rt "image" (Some (FileUrl url)) st =
            (Throw (JsError m), with_trace (trace st ++ [EvFetch url]) st)) as Hres.
    { now rewrite resolveFile_url. }
    rewrite (generatePreset_resolve_throw _ _ _ _ _ _ _ _ Hres). simpl.
    split_and!; [reflexivity|now apply includes_prefix|].
    now rewrite drop_app_length.
Qed.

Lemma unretrievable_media_witness :
  unretrievable Demo.rt_404 "http://x/missing.png" "Not Found" /\
  "http://x/missing.png" <> "" /\
  events_of (controller_get Demo.rt_404 sdmtinggi (Some "http://x/missing.png")) Demo.st0 =
    [EvFetch "http://x/missing.png"].
Proof.
  assert (unretrievable Demo.rt_404 "http://x/missing.png" "Not Found") as Hc.
  { apply (bad_status Demo.rt_404 "http://x/missing.png"
             {| ok := false; statusText := "Not Found"; contentType := None;
                body := BodyBytes [] |}); reflexivity. }
  split; [exact Hc|]. split; [discriminate|].
  destruct (unretrievable_media_stops_the_request Demo.rt_404 "http://x/missing.png"
              "Not Found" Demo.st0 Hc ltac:(discriminate)) as [_ Hpreset].
  destruct (Hpreset sdmtinggi SDMTINGGI_PROMPT eq_refl) as (error & _ & _ & Hev).
  exact Hev.
Defined.

(** X6. A chat request that is answered with a result made exactly one
    generation call, after at most one fetch (the one for its [file] URL):
    the answer's text is [response.text || ''] of that one response, and no
    [chunks] are returned. *)
Theorem chat_success_is_one_generation_call rt request st data :
  (chatController_handler rt request st).1 = Ok (BodyChat data) ->
  exists ps response,
    generateContent rt (chat_request request ps) = ModelResult response /\
    events_of (chatController_handler rt request) st =
      chat_fetches request ++ [EvGenerateContent (chat_request request ps)] /\
    cr_text data = Js.or_string (resp_text response) "" /\
    cr_chunks data = None.
Proof.
  unfold events_of. rewrite chatController_handler_run.
  destruct (chat_parts rt (chat_message request) (chat_file request) st)
    as [[ps|e] st1] eqn:Hparts.
  - rewrite (generateChatResponse_2_run _ _ _ _ _ Hparts).
    destruct (generateContent rt (chat_request request ps)) as [m|response] eqn:Hgen;
      simpl; [discriminate|].
    intros [= <-]. exists ps, response. split_and!; try reflexivity; [exact Hgen|].
    rewrite (chat_parts_trace _ _ _ _ _ Hparts), <- app_assoc.
    now rewrite drop_app_length.
  - rewrite (generateChatResponse_2_parts_throw _ _ _ _ _ Hparts). discriminate.
Qed.

Lemma chat_success_witness :
  (chatController_handler Demo.rt Demo.hello Demo.st0).1 = Ok (BodyChat Demo.hello_answer) /\
  exists ps response,
    generateContent Demo.rt (chat_request Demo.hello ps) = ModelResult response /\
    events_of (chatController_handler Demo.rt Demo.hello) Demo.st0 =
      chat_fetches Demo.hello ++ [EvGenerateContent (chat_request Demo.hello ps)] /\
    cr_text Demo.hello_answer = Js.or_string (resp_text response) "" /\
    cr_chunks Demo.hello_answer = None.
Proof.
  assert ((chatController_handler Demo.rt Demo.hello Demo.st0).1 =
          Ok (BodyChat Demo.hello_answer)) as Hrun by (vm_compute; reflexivity).
  split; [exact Hrun|].
  exact (chat_success_is_one_generation_call Demo.rt Demo.hello Demo.st0
           Demo.hello_answer Hrun).
Defined.

(** ** What the model is asked *)

Lemma chat_request_configured request ps :
  chat_configured request (chat_request request ps).
Proof.
  unfold chat_configured, chat_request, chat_configOptions, config_models_chat. simpl.
  destruct (chat_useThinking request) as [[|]|], (chat_useTools request) as [[|]|];
    simpl; split_and!; try reflexivity; split; congruence.
Qed.

Lemma emits_generateChatResponse_2_configured rt request :
  emits (dispatches (chat_configured request)) (fun _ => True)
    (generateChatResponse_2 rt request).
Proof.
  unfold generateChatResponse_2.
  apply emits_try_catch; [|intros e; apply emits_throw].
  eapply emits_bind; [apply emits_chat_parts; now intros url|]. intros ps _.
  eapply emits_bind; [|intros; now apply emits_ret].
  apply emits_ai_generateContent. apply chat_request_configured.
Qed.

Lemma emits_generateChatResponse_1_configured rt request :
  emits (dispatches (chat_configured request)) (fun _ => True)
    (generateChatResponse_1 rt request).
Proof.
  unfold generateChatResponse_1.
  apply emits_try_catch; [|intros e; apply emits_throw].
  eapply emits_bind; [apply emits_chat_parts; now intros url|]. intros ps _.
  eapply emits_bind; [|intros; now apply emits_ret].
  apply emits_ai_generateContentStream. apply chat_request_configured.
Qed.

Lemma emits_generatePreset_configured rt PROMPT type failed request :
  emits (dispatches (image_configured (preset_model request))) (fun _ => True)
    (generatePreset rt PROMPT type failed request).
Proof.
  unfold generatePreset.
  apply emits_try_catch; [|intros e; apply emits_throw].
  eapply emits_bind; [apply emits_resolveFile; now intros url|]. intros media _.
  eapply emits_bind; [|intros; now apply emits_ret].
  apply emits_ai_generateContent. now split.
Qed.

Lemma emits_generateImage_2_configured rt request :
  emits (dispatches (image_configured (img_model request))) (fun _ => True)
    (generateImage_2 rt request).
Proof.
  unfold generateImage_2.
  apply emits_try_catch; [|intros e; apply emits_throw].
  eapply emits_bind; [apply emits_ai_generateContent; now split|]. intros response _.
  eapply emits_bind with (Q := fun _ => True); [|intros; now apply emits_ret].
  destruct (guarded_parts (resp_candidates response)) as [ps|].
  - apply emits_image_collect_file_any. now intros path.
  - now apply emits_ret.
Qed.

(** X7. Every request a chat call sends names the requested model, or
    [gemini-2.5-flash] when none is requested; it carries the thinking budget
    -1 exactly when [useThinking] is true and the Google Search tool exactly
    when [useTools] is true, independently of each other, and no response
    modalities.  Every request a preset or an image generation sends names
    the requested model, or [gemini-2.5-flash-image-preview], and asks for the
    modalities IMAGE and TEXT with no tools and no thinking budget. *)
Theorem dispatched_model_and_configuration rt st :
  (forall request r,
      EvGenerateContent r ∈ events_of (generateChatResponse_2 rt request) st \/
      EvGenerateContentStream r ∈ events_of (generateChatResponse_1 rt request) st ->
      chat_configured request r) /\
  (forall PROMPT type failed request r,
      EvGenerateContent r ∈ events_of (generatePreset rt PROMPT type failed request) st ->
      image_configured (preset_model request) r) /\
  (forall request r,
      EvGenerateContent r ∈ events_of (generateImage_2 rt request) st ->
      image_configured (img_model request) r).
Proof.
  split_and!.
  - intros request r [Hin|Hin].
    + eapply dispatched_ordered; [apply emits_generateChatResponse_2_configured|].
      left. exact Hin.
    + eapply dispatched_ordered; [apply emits_generateChatResponse_1_configured|].
      right. exact Hin.
  - intros PROMPT type failed request r Hin.
    eapply dispatched_ordered; [apply emits_generatePreset_configured|]. left. exact Hin.
  - intros request r Hin.
    eapply dispatched_ordered; [apply emits_generateImage_2_configured|]. left. exact Hin.
Qed.

Lemma dispatched_configuration_witness :
  EvGenerateContent Demo.hello_request ∈
    events_of (generateChatResponse_2 Demo.rt Demo.hello) Demo.st0 /\
  chat_configured Demo.hello Demo.hello_request.
Proof.
  assert (EvGenerateContent Demo.hello_request ∈
          events_of (generateChatResponse_2 Demo.rt Demo.hello) Demo.st0) as Hin.
  { vm_compute. apply list_elem_of_here. }
  split; [exact Hin|].
  destruct (dispatched_model_and_configuration Demo.rt Demo.st0) as [Hchat _].
  apply Hchat. left. exact Hin.
Defined.

(** ** Order of aggregation *)

Lemma joined_app (a b : list string) : joined (a ++ b) = joined a +:+ joined b.
Proof.
  induction a as [|x a IH]; simpl; [reflexivity|].
  now rewrite IH, string_app_assoc.
Qed.

Lemma preset_collect_text rt ps images textResponse :
  (preset_collect rt ps images textResponse).2 =
  textResponse +:+ joined (text_of_part <$> ps).
Proof.
  revert images textResponse.
  induction ps as [|part rest IH]; intros images textResponse; simpl.
  - now rewrite string_app_nil_r.
  - unfold text_of_part at 1.
    destruct (part_inlineData part) as [i|]; simpl.
    + now rewrite IH.
    + destruct (part_text part) as [t|]; simpl; [|now rewrite IH].
      destruct (Js.truthy t); rewrite IH; [|reflexivity].
      now rewrite string_app_assoc.
Qed.

(** X8. A preset aggregates the parts of the first candidate in their order: the
    images are the inline parts, decoded, in emission order; the text is the
    concatenation, in order, of the non-empty texts of the parts that carry
    no inline data (a part with both counts as an image only); and
    [totalImages] counts the inline parts. *)
Theorem preset_aggregation_preserves_order rt PROMPT type failed image st media st1 response ps :
  resolveFile rt "image" image st = (Ok media, st1) ->
  generateContent rt (preset_request PROMPT media) = ModelResult response ->
  guarded_parts (resp_candidates response) = Some ps ->
  (generatePreset rt PROMPT type failed
     {| preset_image := image; preset_model := None |} st).1 =
  Ok {| images := buffer_image rt <$> omap part_inlineData ps;
        ir_text := joined (text_of_part <$> ps);
        totalImages := length (omap part_inlineData ps);
        ir_type := Some type |}.
Proof.
  intros Hres Hgen Hps.
  rewrite (generatePreset_run _ _ _ _ _ _ _ _ _ Hres Hgen). simpl.
  unfold preset_images, preset_text. rewrite Hps.
  rewrite preset_collect_images, preset_collect_text. simpl.
  now rewrite length_fmap.
Qed.

Lemma preset_aggregation_witness :
  (generatePreset Demo.rt SDMTINGGI_PROMPT "sdmtinggi" "SdmTinggi generation failed: "
     {| preset_image := Some (FileObject Demo.upload); preset_model := None |} Demo.st0).1 =
  Ok {| images := [buffer_image Demo.rt Demo.jpeg; buffer_image Demo.rt Demo.png];
        ir_text := "done";
        totalImages := 2;
        ir_type := Some "sdmtinggi" |}.
Proof.
  exact (preset_aggregation_preserves_order Demo.rt SDMTINGGI_PROMPT "sdmtinggi"
           "SdmTinggi generation failed: " (Some (FileObject Demo.upload)) Demo.st0
           _ _ _ _ eq_refl eq_refl eq_refl).
Defined.

(** ** The streaming definition of chat *)

Lemma chat_collect_spec response fullText chunks :
  chat_collect response fullText chunks =
  (fullText +:+ joined (text_deltas response), chunks ++ text_deltas response).
Proof.
  revert fullText chunks. unfold text_deltas.
  induction response as [|chunk rest IH]; intros fullText chunks; simpl.
  - now rewrite string_app_nil_r, app_nil_r.
  - destruct (chunk_text chunk) as [t|]; simpl; [|apply IH].
    destruct t as [|c t]; simpl.
    + rewrite filter_cons_False by (intros H; now apply H). apply IH.
    + rewrite filter_cons_True by discriminate. rewrite IH. simpl.
      now rewrite string_app_assoc, <- app_assoc.
Qed.

(** X9. Whatever the first (streaming) definition of [generateChatResponse]
    returns, its [chunks] are the non-empty text deltas in delivery order and
    its [text] is their concatenation; chunks without text, or with an empty
    one, leave no trace in either. *)
Theorem streaming_chat_text_is_the_joined_chunks rt request st result :
  (generateChatResponse_1 rt request st).1 = Ok result ->
  streamed_result result /\
  exists response,
    cr_chunks result = Some (text_deltas response) /\
    (exists r, generateContentStream rt r = ModelResult response).
Proof.
  unfold generateChatResponse_1, try_catch, bind.
  destruct (chat_parts rt (chat_message request) (chat_file request) st)
    as [[ps|e] st1]; simpl; [|discriminate].
  unfold ai_generateContentStream, bind, emit. simpl.
  destruct (generateContentStream rt _) as [m|response] eqn:Hgen; simpl; [discriminate|].
  intros [= <-]. rewrite chat_collect_spec. simpl. split.
  - exists (text_deltas response). split_and!; try reflexivity.
    unfold text_deltas. apply Forall_forall. intros t Ht.
    now apply list_elem_of_filter in Ht as [Ht _].
  - exists response. split; [reflexivity|]. eauto.
Qed.

Lemma streaming_chat_witness :
  (generateChatResponse_1 Demo.rt Demo.hello Demo.st0).1 =
    Ok {| cr_text := "hello"; cr_chunks := Some ["he"; "llo"];
          cr_sessionId := Some "user123";
          cr_usedTools := false; cr_usedThinking := false |} /\
  streamed_result {| cr_text := "hello"; cr_chunks := Some ["he"; "llo"];
                     cr_sessionId := Some "user123";
                     cr_usedTools := false; cr_usedThinking := false |}.
Proof.
  assert ((generateChatResponse_1 Demo.rt Demo.hello Demo.st0).1 =
          Ok {| cr_text := "hello"; cr_chunks := Some ["he"; "llo"];
                cr_sessionId := Some "user123";
                cr_usedTools := false; cr_usedThinking := false |}) as Hrun
    by (vm_compute; reflexivity).
  split; [exact Hrun|].
  exact (proj1 (streaming_chat_text_is_the_joined_chunks Demo.rt Demo.hello Demo.st0
                  _ Hrun)).
Defined.

(** ** Names of the saved files *)

(** X10. The name of a saved file contains no [/], whatever the MIME type the
    model sent, so the path written is a direct child of the images
    directory; its extension is never empty; and two names are equal exactly
    when the clock readings are equal and the extensions are. *)
Theorem saved_file_names_are_safe_and_timestamped :
  (forall t mimeType,
      no_slash (filename_of t mimeType) = true /\ extension_of mimeType <> "") /\
  (forall t1 t2 m1 m2,
      filename_of t1 m1 = filename_of t2 m2 <->
      t1 = t2 /\ extension_of m1 = extension_of m2).
Proof.
  split.
  - intros t mimeType. destruct (extension_of_safe mimeType) as [Hs Hne].
    split; [|exact Hne]. unfold filename_of.
    rewrite !no_slash_app, Hs, (digits_no_slash _ (pretty_N_digits t)). reflexivity.
  - intros t1 t2 m1 m2. split; [apply filename_of_inj|].
    intros [-> He]. unfold filename_of. now rewrite He.
Qed.

(** X11. Two images saved one after the other: when the clock reads the same both
    times and the extensions agree, both calls return the same URL and the one
    file holds the second image only; when the clock has moved on, the URLs
    differ and each file holds its own image. *)
Theorem same_millisecond_saves_collide rt data1 mimeType1 data2 mimeType2 st :
  writes_succeed rt ->
  (clock rt (ticks st) = clock rt (S (ticks st)) ->
   extension_of mimeType1 = extension_of mimeType2 ->
   exists url path,
     (saveImageToFile rt data1 mimeType1 ;; saveImageToFile rt data2 mimeType2) st =
       (saveImageToFile rt data2 mimeType2 (saveImageToFile rt data1 mimeType1 st).2) /\
     (saveImageToFile rt data1 mimeType1 st).1 = Ok url /\
     (saveImageToFile rt data2 mimeType2 (saveImageToFile rt data1 mimeType1 st).2).1 = Ok url /\
     files (saveImageToFile rt data2 mimeType2 (saveImageToFile rt data1 mimeType1 st).2).2 =
       <[path := fromBase64 rt data2]> (files st)) /\
  (clock rt (ticks st) <> clock rt (S (ticks st)) ->
   exists url1 url2 path1 path2,
     url1 <> url2 /\ path1 <> path2 /\
     (saveImageToFile rt data1 mimeType1 st).1 = Ok url1 /\
     (saveImageToFile rt data2 mimeType2 (saveImageToFile rt data1 mimeType1 st).2).1 = Ok url2 /\
     files (saveImageToFile rt data2 mimeType2 (saveImageToFile rt data1 mimeType1 st).2).2 =
       <[path2 := fromBase64 rt data2]> (<[path1 := fromBase64 rt data1]> (files st))).
Proof.
  intros Hw.
  pose proof (saveImageToFile_run rt data1 mimeType1 st (Hw _)) as H1.
  rewrite H1. simpl.
  match goal with |- context [saveImageToFile rt data2 mimeType2 ?s] =>
    pose proof (saveImageToFile_run rt data2 mimeType2 s (Hw _)) as H2 end.
  simpl in H2. split.
  - intros Hclock Hext. do 2 eexists. split_and!.
    + unfold bind. now rewrite H1.
    + reflexivity.
    + rewrite H2. simpl. unfold filename_of. now rewrite <- Hclock, <- Hext.
    + rewrite H2. simpl. unfold filename_of. rewrite <- Hclock, <- Hext.
      apply insert_insert_eq.
  - intros Hclock. do 4 eexists. rewrite H2. simpl. split_and!; try reflexivity.
    + intros Heq. apply (inj (String.app "/images/")) in Heq.
      now apply filename_of_inj in Heq as [Heq _].
    + intros Heq. destruct (path_join_base (imagesDir st)) as [base Hbase].
      rewrite !Hbase in Heq by apply filename_plain.
      apply (inj (String.app base)) in Heq.
      now apply filename_of_inj in Heq as [Heq _].
Qed.

Lemma same_millisecond_witness :
  writes_succeed Demo.rt /\
  exists url1 url2 path1 path2,
    url1 <> url2 /\ path1 <> path2 /\
    (saveImageToFile Demo.rt "AAAA" "image/png" Demo.st0).1 = Ok url1 /\
    (saveImageToFile Demo.rt "BBBB" "image/png"
       (saveImageToFile Demo.rt "AAAA" "image/png" Demo.st0).2).1 = Ok url2 /\
    files (saveImageToFile Demo.rt "BBBB" "image/png"
             (saveImageToFile Demo.rt "AAAA" "image/png" Demo.st0).2).2 =
      <[path2 := fromBase64 Demo.rt "BBBB"]>
        (<[path1 := fromBase64 Demo.rt "AAAA"]> (files Demo.st0)).
Proof.
  split; [intros path; reflexivity|].
  apply (same_millisecond_saves_collide Demo.rt "AAAA" "image/png" "BBBB" "image/png"
           Demo.st0 (fun _ => eq_refl)).
  vm_compute. discriminate.
Defined.

(** ** Image generation saves every image *)

Lemma saved_images_length rt t inls : length (saved_images rt t inls) = length inls.
Proof.
  revert t. induction inls as [|i rest IH]; intros t; simpl; [reflexivity|].
  now rewrite IH.
Qed.

Lemma image_collect_file_run rt ps :
  writes_succeed rt ->
  forall images textResponse st,
  exists st',
    image_collect_file rt ps images textResponse st =
      (Ok (images ++ saved_images rt (ticks st) (omap part_inlineData ps),
           textResponse +:+ joined (text_of_part <$> ps)), st') /\
    ticks st' = ticks st + length (omap part_inlineData ps) /\
    imagesDir st' = imagesDir st /\
    trace st' =
      trace st ++ (EvWriteFile <$> saved_paths rt (imagesDir st) (ticks st)
                                     (omap part_inlineData ps)).
Proof.
  intros Hw. induction ps as [|part rest IH]; intros images textResponse st.
  - exists st. simpl. rewrite !app_nil_r, string_app_nil_r.
    split_and!; try reflexivity. lia.
  - simpl. unfold text_of_part at 1.
    destruct (part_inlineData part) as [i|]; simpl.
    + unfold bind. rewrite (saveImageToFile_run rt (data i) (mimeType i) st (Hw _)).
      match goal with |- context [image_collect_file rt rest ?imgs ?txt ?s] =>
        destruct (IH imgs txt s) as (st' & Hrun & Ht & Hd & Htr) end.
      exists st'. simpl in *. rewrite Hrun, Ht, Hd, Htr. unfold saved_image.
      split_and!; try reflexivity.
      * now rewrite <- app_assoc.
      * now rewrite Nat.add_succ_r.
      * now rewrite <- app_assoc.
    + destruct (part_text part) as [t|]; simpl.
      * destruct (Js.truthy t).
        -- destruct (IH images (textResponse +:+ t) st) as (st' & Hrun & Hrest).
           exists st'. rewrite Hrun. now rewrite string_app_assoc.
        -- apply IH.
      * apply IH.
Qed.

(** X12. Image generation saves every inline image of the response, not only the
    first: given that no write fails, the result lists one URL per inline
    part, in emission order, each named after its own clock reading and its
    own MIME type; the text is the concatenation of the text parts; and the
    calls made are the one generation call followed by one file write per
    image, in that order. *)
Theorem generateImage_saves_every_image rt request st response ps :
  writes_succeed rt ->
  generateContent rt (image_request request) = ModelResult response ->
  guarded_parts (resp_candidates response) = Some ps ->
  (generateImage_2 rt request st).1 =
    Ok {| images := saved_images rt (ticks st) (omap part_inlineData ps);
          ir_text := joined (text_of_part <$> ps);
          totalImages := length (omap part_inlineData ps);
          ir_type := None |} /\
  events_of (generateImage_2 rt request) st =
    EvGenerateContent (image_request request) ::
    (EvWriteFile <$> saved_paths rt (imagesDir st) (ticks st) (omap part_inlineData ps)) /\
  ticks (generateImage_2 rt request st).2 = ticks st + length (omap part_inlineData ps).
Proof.
  intros Hw Hgen Hps.
  unfold events_of, generateImage_2, try_catch, bind, ai_generateContent, bind, emit.
  simpl. fold (image_request request). rewrite Hgen. simpl. rewrite Hps.
  match goal with |- context [image_collect_file rt ps [] "" ?s] =>
    destruct (image_collect_file_run rt ps Hw [] "" s) as (st' & Hrun & Ht & Hd & Htr) end.
  rewrite Hrun. simpl in *. rewrite Htr, Ht.
  rewrite saved_images_length.
  split_and!; try reflexivity.
  now rewrite <- app_assoc, drop_app_length.
Qed.

Lemma generateImage_saves_witness :
  writes_succeed Demo.rt /\
  (generateImage_2 Demo.rt Demo.cat Demo.st0).1 =
    Ok {| images := saved_images Demo.rt 0 [Demo.jpeg; Demo.png];
          ir_text := "done";
          totalImages := 2;
          ir_type := None |}.
Proof.
  split; [intros path; reflexivity|].
  exact (proj1 (generateImage_saves_every_image Demo.rt Demo.cat Demo.st0 _ _
                  (fun _ => eq_refl) eq_refl eq_refl)).
Defined.

(** ** The constructor *)

Lemma constructor_run rt st :
  GeminiService_constructor rt st =
  if existsSync (Path.join [cwd rt; "public"; "images"]) st
  then (Ok tt, with_imagesDir (Path.join [cwd rt; "public"; "images"]) (with_sessions ∅ st))
  else mkdirSync_recursive rt (Path.join [cwd rt; "public"; "images"])
         (with_imagesDir (Path.join [cwd rt; "public"; "images"]) (with_sessions ∅ st)).
Proof.
  unfold GeminiService_constructor, bind. simpl.
  change (existsSync ?d (with_imagesDir _ (with_sessions _ st))) with (existsSync d st).
  now destruct (existsSync _ st).
Qed.

(** X13. Constructing the service starts from an empty session registry and
    fixes the images directory to [path.join(cwd, 'public', 'images')], that
    is [<cwd>/public/images] for a working directory in normal form and
    [/public/images] for the root.  When something is at that path already,
    a directory or a file, nothing is made.  Otherwise the directory and the
    missing ones above it are made; if that fails the constructor throws the
    cause.  No file is touched, no directory is removed, whatever is made is
    the images directory or above it, and after a construction that succeeded
    constructing again (each controller module constructs its own service)
    changes nothing. *)
Theorem constructor_creates_the_images_directory_once rt st :
  let dir := Path.join [cwd rt; "public"; "images"] in
  let run := GeminiService_constructor rt st in
  (sessions run.2 = ∅ /\ imagesDir run.2 = dir /\ files run.2 = files st /\
   dirs st ⊆ dirs run.2 /\
   (forall d, d ∈ dirs run.2 -> d ∈ dirs st \/ d ∈ Path.ancestors dir \/ d = dir)) /\
  ((forall segs, Forall plain segs -> cwd rt = "/" +:+ Path.join_slash segs ->
                 dir = "/" +:+ Path.join_slash (segs ++ ["public"; "images"])) /\
   (forall segs, segs <> [] -> Forall plain segs -> cwd rt = "/" +:+ Path.join_slash segs ->
                 dir = cwd rt +:+ "/public/images") /\
   (cwd rt = "/" -> dir = "/public/images")) /\
  (existsSync dir st = true -> run.1 = Ok tt /\ dirs run.2 = dirs st) /\
  (existsSync dir st = false -> mkdirError rt dir = None ->
   run.1 = Ok tt /\
   dirs run.2 = list_to_set (Path.ancestors dir ++ [dir]) ∪ dirs st /\
   dir ∈ dirs run.2) /\
  (forall cause, existsSync dir st = false -> mkdirError rt dir = Some cause ->
   run.1 = Throw (JsError cause) /\
   dirs run.2 =
     list_to_set (take (mkdirMade rt dir) (Path.ancestors dir ++ [dir])) ∪ dirs st) /\
  (run.1 = Ok tt ->
   existsSync dir run.2 = true /\
   GeminiService_constructor rt run.2 = (Ok tt, run.2)).
Proof.
  intros dir run.
  assert (forall s : State, existsSync dir s = true ->
            GeminiService_constructor rt s = (Ok tt, with_imagesDir dir (with_sessions ∅ s)))
    as Hthere.
  { intros s Hs. rewrite constructor_run. fold dir. now rewrite Hs. }
  assert (existsSync dir st = false ->
          run = mkdirSync_recursive rt dir (with_imagesDir dir (with_sessions ∅ st)))
    as Hmake.
  { intros Hs. subst run. rewrite constructor_run. fold dir. now rewrite Hs. }
  split_and!.
  - subst run. rewrite constructor_run. fold dir. unfold mkdirSync_recursive.
    destruct (existsSync dir st); [reflexivity|]. now destruct (mkdirError rt dir).
  - subst run. rewrite constructor_run. fold dir. unfold mkdirSync_recursive.
    destruct (existsSync dir st); [reflexivity|]. now destruct (mkdirError rt dir).
  - subst run. rewrite constructor_run. fold dir. unfold mkdirSync_recursive.
    destruct (existsSync dir st); [reflexivity|]. now destruct (mkdirError rt dir).
  - subst run. rewrite constructor_run. fold dir. unfold mkdirSync_recursive.
    destruct (existsSync dir st); [done|].
    destruct (mkdirError rt dir); simpl; set_solver.
  - subst run. rewrite constructor_run. fold dir. unfold mkdirSync_recursive.
    intros d. destruct (existsSync dir st); [simpl; auto|].
    destruct (mkdirError rt dir); simpl.
    + intros [Hd%elem_of_list_to_set|Hd]%elem_of_union; [|auto].
      apply elem_of_take in Hd as (n & Hd & _). apply list_elem_of_lookup_2 in Hd.
      apply elem_of_app in Hd as [Hd|Hd%list_elem_of_singleton]; auto.
    + intros [Hd%elem_of_list_to_set|Hd]%elem_of_union; [|auto].
      apply elem_of_app in Hd as [Hd|Hd%list_elem_of_singleton]; auto.
  - intros segs Hsegs Hcwd. subst dir. rewrite Hcwd.
    apply join_clean_names; [done|exact Hsegs|apply plain_public_images].
  - intros segs Hne Hsegs Hcwd. subst dir. rewrite Hcwd.
    rewrite join_clean_names; [|done|exact Hsegs|apply plain_public_images].
    rewrite join_slash_app by done. now rewrite !string_app_assoc.
  - intros Hcwd. subst dir. now rewrite Hcwd.
  - intros Hs. subst run. now rewrite (Hthere _ Hs).
  - intros Hs Hm. rewrite (Hmake Hs). unfold mkdirSync_recursive. rewrite Hm. simpl.
    split_and!; [reflexivity|reflexivity|]. apply elem_of_union. left.
    apply elem_of_list_to_set, elem_of_app. right. apply list_elem_of_here.
  - intros cause Hs Hm. rewrite (Hmake Hs). unfold mkdirSync_recursive. rewrite Hm.
    split; reflexivity.
  - intros Hok. destruct (existsSync dir st) eqn:Hs.
    + subst run. clear Hok Hmake. rewrite (Hthere _ Hs). simpl.
      change (existsSync dir (with_imagesDir dir (with_sessions ∅ st)))
        with (existsSync dir st).
      split; [exact Hs|].
      now rewrite (Hthere (with_imagesDir dir (with_sessions ∅ st)) Hs).
    + rewrite (Hmake eq_refl) in Hok. rewrite (Hmake eq_refl).
      unfold mkdirSync_recursive in Hok |- *.
      destruct (mkdirError rt dir); [discriminate|]. simpl.
      assert (existsSync dir
                (with_dirs (list_to_set (Path.ancestors dir ++ [dir]) ∪ dirs st)
                   (with_imagesDir dir (with_sessions ∅ st))) = true) as Hnow.
      { apply bool_decide_eq_true. left. simpl. apply elem_of_union. left.
        apply elem_of_list_to_set, elem_of_app. right. apply list_elem_of_here. }
      split; [exact Hnow|]. now rewrite (Hthere _ Hnow).
Qed.

Lemma constructor_witness :
  existsSync (Path.join [cwd Demo.rt; "public"; "images"]) Demo.st_bare = false /\
  mkdirError Demo.rt (Path.join [cwd Demo.rt; "public"; "images"]) = None /\
  (GeminiService_constructor Demo.rt Demo.st_bare).1 = Ok tt /\
  dirs (GeminiService_constructor Demo.rt Demo.st_bare).2 =
    list_to_set ["/srv"; "/srv/public"; "/srv/public/images"] ∪ ∅ /\
  imagesDir (GeminiService_constructor Demo.rt Demo.st_bare).2 = "/srv/public/images".
Proof.
  assert (existsSync (Path.join [cwd Demo.rt; "public"; "images"]) Demo.st_bare = false)
    as Hs by (vm_compute; reflexivity).
  destruct (constructor_creates_the_images_directory_once Demo.rt Demo.st_bare)
    as ((_ & Hdir & _) & _ & _ & Hmade & _).
  destruct (Hmade Hs eq_refl) as (Hok & Hdirs & _).
  split_and!; [exact Hs|reflexivity|exact Hok|exact Hdirs|exact Hdir].
Defined.

(** ** A file write that fails *)

Lemma saveImageToFile_fail rt base64Data mimeType st cause :
  let filepath := path_join (imagesDir st) (filename_of (clock rt (ticks st)) mimeType) in
  writeError rt filepath = Some cause ->
  saveImageToFile rt base64Data mimeType st =
  (Throw (JsError ("Failed to save image: " +:+ cause)),
   with_files (after_failed_write rt filepath (fromBase64 rt base64Data) (files st))
     (with_trace (trace st ++ [EvWriteFile filepath]) (with_ticks (S (ticks st)) st))).
Proof.
  intros filepath Hw.
  unfold saveImageToFile, try_catch, bind, date_now, writeFileSync, bind, emit.
  simpl. fold (filename_of (clock rt (ticks st)) mimeType). fold filepath.
  rewrite Hw. unfold after_failed_write.
  now destruct (writeLeaves rt filepath (fromBase64 rt base64Data)).
Qed.

Lemma image_collect_file_first_fail rt cause ps :
  forall images textResponse st i others,
    let filepath :=
      path_join (imagesDir st) (filename_of (clock rt (ticks st)) (mimeType i)) in
    omap part_inlineData ps = i :: others ->
    writeError rt filepath = Some cause ->
    image_collect_file rt ps images textResponse st =
      (Throw (JsError ("Failed to save image: " +:+ cause)),
       with_files (after_failed_write rt filepath (fromBase64 rt (data i)) (files st))
         (with_trace (trace st ++ [EvWriteFile filepath]) (with_ticks (S (ticks st)) st))).
Proof.
  induction ps as [|part rest IH]; intros images textResponse st i others filepath Hinl Hw;
    simpl in Hinl; [discriminate|].
  simpl. destruct (part_inlineData part) as [i'|]; simpl in Hinl.
  - injection Hinl as -> _. unfold bind.
    now rewrite (saveImageToFile_fail _ _ _ _ _ Hw).
  - destruct (part_text part) as [t|]; [destruct (Js.truthy t)|];
      eapply IH; eassumption.
Qed.

(** X14. When the write of the first image fails with [cause], image generation
    fails as a whole: the handler answers status 500 with the failure
    [Image generation failed: Failed to save image: <cause>], and no further
    write is attempted.  No file but the one being written is added or
    changed; that one is left as the failed write leaves it: as it was when
    the file could not be opened, and otherwise created or truncated, holding
    the bytes that got through. *)
Theorem failed_write_fails_the_request rt request st response ps i others cause :
  let filepath := path_join (imagesDir st) (filename_of (clock rt (ticks st)) (mimeType i)) in
  let run := imageController_generate rt request st in
  generateContent rt (image_request request) = ModelResult response ->
  guarded_parts (resp_candidates response) = Some ps ->
  omap part_inlineData ps = i :: others ->
  writeError rt filepath = Some cause ->
  run.1 =
    Ok (BodyFailure ("Image generation failed: " +:+ ("Failed to save image: " +:+ cause))) /\
  status_of run.2 = Some 500 /\
  events_of (imageController_generate rt request) st =
    [EvGenerateContent (image_request request); EvWriteFile filepath] /\
  files run.2 = after_failed_write rt filepath (fromBase64 rt (data i)) (files st) /\
  (forall path, path <> filepath -> files run.2 !! path = files st !! path) /\
  (forall remains,
      writeLeaves rt filepath (fromBase64 rt (data i)) = Some remains ->
      files run.2 = <[filepath := remains]> (files st)) /\
  (writeLeaves rt filepath (fromBase64 rt (data i)) = None -> files run.2 = files st).
Proof.
  intros filepath run Hgen Hps Hinl Hw.
  assert (imageController_generate rt request st =
          (Ok (BodyFailure ("Image generation failed: " +:+
                            ("Failed to save image: " +:+ cause))),
           with_set {| set_status := Some 500; set_headers := set_headers (set st) |}
             (with_files (after_failed_write rt filepath (fromBase64 rt (data i)) (files st))
                (with_trace ((trace st ++ [EvGenerateContent (image_request request)]) ++
                             [EvWriteFile filepath])
                   (with_ticks (S (ticks st)) st))))) as Hrun.
  { rewrite imageController_generate_run.
    unfold generateImage_2, try_catch, bind, ai_generateContent, bind, emit.
    simpl. fold (image_request request). rewrite Hgen. simpl. rewrite Hps.
    match goal with |- context [image_collect_file rt ps [] "" ?s] =>
      rewrite (image_collect_file_first_fail rt cause ps [] "" s i others Hinl Hw) end.
    reflexivity. }
  assert (files run.2 = after_failed_write rt filepath (fromBase64 rt (data i)) (files st))
    as Hfiles by (subst run; now rewrite Hrun).
  split_and!.
  - subst run. now rewrite Hrun.
  - subst run. now rewrite Hrun.
  - unfold events_of. rewrite Hrun. simpl. now rewrite <- app_assoc, drop_app_length.
  - exact Hfiles.
  - intros path Hpath. rewrite Hfiles. unfold after_failed_write.
    destruct (writeLeaves rt filepath _); [|reflexivity].
    now rewrite lookup_insert_ne.
  - intros remains Hl. rewrite Hfiles. unfold after_failed_write. now rewrite Hl.
  - intros Hl. rewrite Hfiles. unfold after_failed_write. now rewrite Hl.
Qed.

Lemma failed_write_witness :
  writeError Demo.rt_full
    (path_join (imagesDir Demo.st0)
       (filename_of (clock Demo.rt_full (ticks Demo.st0)) (mimeType Demo.jpeg))) =
    Some "ENOSPC: no space left on device" /\
  (imageController_generate Demo.rt_full Demo.cat Demo.st0).1 =
    Ok (BodyFailure ("Image generation failed: " +:+
                     ("Failed to save image: " +:+ "ENOSPC: no space left on device"))) /\
  files (imageController_generate Demo.rt_full Demo.cat Demo.st0).2 =
    <["/srv/public/images/generated_1700000000000.jpeg" := []]> (files Demo.st0).
Proof.
  split; [reflexivity|].
  destruct (failed_write_fails_the_request Demo.rt_full Demo.cat Demo.st0 _ _
              Demo.jpeg [Demo.png] "ENOSPC: no space left on device"
              eq_refl eq_refl eq_refl eq_refl) as (Hbody & _ & _ & _ & _ & Hleft & _).
  split; [exact Hbody|].
  rewrite (Hleft [] eq_refl).
  assert (path_join (imagesDir Demo.st0)
            (filename_of (clock Demo.rt_full (ticks Demo.st0)) (mimeType Demo.jpeg)) =
          "/srv/public/images/generated_1700000000000.jpeg") as ->
    by (vm_compute; reflexivity).
  reflexivity.
Defined.

(** ** Headers of a preset answer *)

(** X15. When a preset answers with an image, [Content-Type] is the MIME type of
    that image and [Content-Disposition] names the preset's fixed [.png] file,
    whatever that MIME type is; when the model produced no image, the handler
    leaves [set] as it found it. *)
Theorem preset_answer_headers rt p PROMPT ref st media st1 response :
  preset_prompt p = Some PROMPT ->
  if_file (Some ref) = Some ref ->
  resolveFile rt "image" (Some ref) st = (Ok media, st1) ->
  generateContent rt (preset_request PROMPT media) = ModelResult response ->
  match preset_images rt response with
  | firstImage :: _ =>
      set (controller_with rt p ref st).2 =
      {| set_status := set_status (set st);
         set_headers :=
           <["Content-Disposition" := attachment (preset_filename p)]>
             (<["Content-Type" := img_mimeType firstImage]> (set_headers (set st))) |}
  | [] => set (controller_with rt p ref st).2 = set st
  end.
Proof.
  intros Hp Href Hres Hgen.
  pose proof (keeps_set_resolveFile rt "image" (Some ref) st) as Hset.
  rewrite Hres in Hset. simpl in Hset.
  assert (match ref with FileUrl u => Js.truthy u = true | FileObject _ => True end)
    as Htruthy.
  { destruct ref as [url|f]; [|exact I]. unfold if_file in Href.
    destruct (Js.truthy url); [reflexivity|discriminate]. }
  assert (forall method type failed,
             call_preset rt method
               {| preset_image := Some ref; preset_model := None |} =
             generatePreset rt PROMPT type failed
               {| preset_image := Some ref; preset_model := None |} ->
             match ref with
             | FileUrl url => preset_get rt method (preset_filename p) (Some url)
             | FileObject f => preset_post rt method (preset_filename p) (Some f)
             end st =
             first_image_or_failure (preset_filename p)
               {| images := preset_images rt response;
                  ir_text := preset_text rt response;
                  totalImages := length (preset_images rt response);
                  ir_type := Some type |}
               (with_trace (trace st1 ++ [EvGenerateContent (preset_request PROMPT media)])
                  st1)) as Hrun.
  { intros method type failed Hcall.
    destruct ref as [url|f].
    - unfold preset_get, try_catch, bind. cbn [Js.truthy_opt fmap option_fmap option_map].
      rewrite Htruthy. cbn [negb].
      rewrite Hcall, (generatePreset_run _ _ _ _ _ _ _ _ _ Hres Hgen).
      now rewrite first_image_or_failure_run.
    - unfold preset_post, try_catch, bind. cbn [fmap option_fmap option_map].
      rewrite Hcall, (generatePreset_run _ _ _ _ _ _ _ _ _ Hres Hgen).
      now rewrite first_image_or_failure_run. }
  assert (exists type,
             controller_with rt p ref st =
             first_image_or_failure (preset_filename p)
               {| images := preset_images rt response;
                  ir_text := preset_text rt response;
                  totalImages := length (preset_images rt response);
                  ir_type := Some type |}
               (with_trace (trace st1 ++ [EvGenerateContent (preset_request PROMPT media)])
                  st1)) as (type & ->).
  { destruct p; simpl in Hp; try discriminate; injection Hp as <-;
      unfold controller_with; unfold_controllers; eexists; eapply Hrun.
    - apply call_preset_generateFigurine.
    - apply call_preset_generateHijab.
    - apply call_preset_generateSdmTinggi. }
  rewrite first_image_or_failure_run. simpl.
  destruct (preset_images rt response); simpl; now rewrite Hset.
Qed.

Lemma preset_answer_headers_witness :
  set_headers (set (controller_with Demo.rt sdmtinggi (FileObject Demo.upload) Demo.st0).2)
    !! "Content-Disposition" = Some (attachment "sdmtinggi.png") /\
  set_headers (set (controller_with Demo.rt sdmtinggi (FileObject Demo.upload) Demo.st0).2)
    !! "Content-Type" = Some "image/jpeg".
Proof.
  pose proof (preset_answer_headers Demo.rt sdmtinggi SDMTINGGI_PROMPT
                (FileObject Demo.upload) Demo.st0 _ _ _
                eq_refl eq_refl eq_refl eq_refl) as H.
  match type of H with
  | match ?x with _ => _ end =>
      change x with [buffer_image Demo.rt Demo.jpeg; buffer_image Demo.rt Demo.png] in H
  end.
  cbv beta iota in H. rewrite H. cbn [set_headers buffer_image img_mimeType mimeType Demo.jpeg].
  split.
  - apply lookup_insert_eq.
  - rewrite lookup_insert_ne by discriminate. apply lookup_insert_eq.
Defined.
